(** * GetSTRM: GetSTRM.go embedded in Rocq

    The reconciliation engine ([processStreams], [removeEmptyDirs] and what
    they call), the reader of playlists ([processM3U] from the body of the
    response on) and the part of [main] that builds the configuration.

    Go strings are byte sequences: a string is a [list ascii].  The functions
    of the Go standard library that the program calls ([strings.TrimSpace],
    [strings.TrimRight], [strings.ReplaceAll], [filepath.Join],
    [filepath.WalkDir], [bufio.Scanner], ...) are written out at the byte
    level, following their Unix implementation.

    The file system is a tree; an operation fails only where the shape of
    the tree makes it fail (a regular file where a directory is needed, a
    directory where a file is to be written).  What the program logs and
    what it downloads is not modelled.  The counters are Go [int]s, modelled
    in [Z]: no run comes near their bound. *)

From Stdlib Require Import Ascii String List Bool Arith NArith ZArith Lia.
From stdpp Require Import base option list gmap strings.

Local Open Scope Z_scope.
Local Open Scope list_scope.

Abbreviation gostring := (list ascii).

(** A literal: the bytes of a Rocq string. *)
Definition str (s : string) : gostring := list_ascii_of_string s.

(** ** Package [strings] and [unicode] *)
Module Strings.

Definition byteIn (c : ascii) (cutset : gostring) : bool :=
  existsb (Ascii.eqb c) cutset.

(** [strings.HasPrefix]. *)
Fixpoint HasPrefix (s prefix : gostring) {struct prefix} : bool :=
  match prefix, s with
  | [], _ => true
  | p :: prefix', c :: s' => Ascii.eqb c p && HasPrefix s' prefix'
  | _ :: _, [] => false
  end.

(** [strings.HasSuffix]. *)
Definition HasSuffix (s suffix : gostring) : bool :=
  HasPrefix (rev s) (rev suffix).

(** Equality of strings, [==] in Go. *)
Definition eqs (s t : gostring) : bool := bool_decide (s = t).

(** [strings.ReplaceAll s old new] for a non-empty [old] (the program never
    passes an empty one): the non-overlapping occurrences of [old], found
    from the left, are replaced by [new].  [skip] counts the bytes of an
    occurrence that are still to be passed over. *)
Fixpoint replaceFrom (old new : gostring) (skip : nat) (s : gostring) : gostring :=
  match s with
  | [] => []
  | c :: s' =>
      match skip with
      | S k => replaceFrom old new k s'
      | O =>
          if HasPrefix s old
          then new ++ replaceFrom old new (length old - 1) s'
          else c :: replaceFrom old new 0 s'
      end
  end.

Definition ReplaceAll (s old new : gostring) : gostring := replaceFrom old new 0 s.

(** [strings.TrimRight s cutset] for a cutset of ASCII bytes: the trailing
    bytes that belong to [cutset] are removed. *)
Fixpoint TrimRight (s cutset : gostring) : gostring :=
  match s with
  | [] => []
  | c :: s' =>
      match TrimRight s' cutset with
      | [] => if byteIn c cutset then [] else [c]
      | r => c :: r
      end
  end.

(** UTF-8 encoding of a code point below U+10000 ([utf8.EncodeRune]). *)
Definition EncodeRune (r : N) : gostring :=
  let byte (n : N) := ascii_of_N n in
  if (r <? 128)%N then [byte r]
  else if (r <? 2048)%N then [byte (192 + r / 64); byte (128 + r mod 64)]%N
  else [byte (224 + r / 4096); byte (128 + (r / 64) mod 64); byte (128 + r mod 64)]%N.

(** The code points for which [unicode.IsSpace] holds: tab, line feed,
    vertical tab, form feed, carriage return, space, U+0085, U+00A0, and the
    characters with the White_Space property: U+1680, U+2000..U+200A, U+2028,
    U+2029, U+202F, U+205F, U+3000. *)
Definition spaceRunes : list N :=
  [9; 10; 11; 12; 13; 32; 133; 160; 5760;
   8192; 8193; 8194; 8195; 8196; 8197; 8198; 8199; 8200; 8201; 8202;
   8232; 8233; 8239; 8287; 12288]%N.

Definition spaceEncodings : list gostring := map EncodeRune spaceRunes.

(** The string without its first rune when that rune is a space: decoding at
    the start yields a space exactly when the bytes start with its encoding. *)
Definition dropSpacePrefix (s : gostring) : option gostring :=
  match find (HasPrefix s) spaceEncodings with
  | Some e => Some (drop (length e) s)
  | None => None
  end.

(** The string without its last rune when that rune is a space. *)
Definition dropSpaceSuffix (s : gostring) : option gostring :=
  match find (HasSuffix s) spaceEncodings with
  | Some e => Some (take (length s - length e) s)
  | None => None
  end.

(** [strings.TrimLeftFunc s unicode.IsSpace]; the loop runs at most
    [length s] times. *)
Fixpoint trimLeftSpace (n : nat) (s : gostring) : gostring :=
  match n with
  | O => s
  | S n' => match dropSpacePrefix s with
            | Some s' => trimLeftSpace n' s'
            | None => s
            end
  end.

(** [strings.TrimRightFunc s unicode.IsSpace]. *)
Fixpoint trimRightSpace (n : nat) (s : gostring) : gostring :=
  match n with
  | O => s
  | S n' => match dropSpaceSuffix s with
            | Some s' => trimRightSpace n' s'
            | None => s
            end
  end.

(** [strings.TrimSpace]: leading, then trailing white space is removed. *)
Definition TrimSpace (s : gostring) : gostring :=
  let l := trimLeftSpace (length s) s in
  trimRightSpace (length l) l.

(** [strings.Split s sep] for a separator [sep] of one byte. *)
Fixpoint Split (s : gostring) (sep : ascii) : list gostring :=
  match s with
  | [] => [[]]
  | c :: s' =>
      if Ascii.eqb c sep then [] :: Split s' sep
      else match Split s' sep with
           | e :: rest => (c :: e) :: rest
           | [] => [[c]]
           end
  end.

(** [strings.Contains]. *)
Fixpoint Contains (s substr : gostring) : bool :=
  HasPrefix s substr
  || match s with
     | [] => false
     | _ :: s' => Contains s' substr
     end.

End Strings.

(** ** The name sanitizer (GetSTRM.go, lines 819-837) *)

(** The character class of [sanitizeFileName]'s regular expression:
    < > : double quote / \ | ? * [ ] # % & { } $ ! ' + = @ ~ and the backquote. *)
Definition invalidChars : gostring :=
  ascii_of_nat 34 :: str "<>:/\|?*[]#%&{}$!'+=@~`".

(** [invalidChars.ReplaceAllString name "_"]: every byte of the class becomes
    an underscore. *)
Definition replaceInvalid (name : gostring) : gostring :=
  map (fun c => if Strings.byteIn c invalidChars then "_"%char else c) name.

Definition sanitizeFileName (name : gostring) : gostring :=
  let sanitized := Strings.TrimSpace (replaceInvalid name) in
  let sanitized := Strings.TrimRight sanitized (str "_.:") in
  let sanitized := Strings.ReplaceAll sanitized (str "..") (str ".") in
  let sanitized := Strings.ReplaceAll sanitized (str ".") (str "_") in
  let sanitized := Strings.TrimRight sanitized (str " ") in
  sanitized.

Definition normalizeName (name : gostring) : gostring :=
  let name := Strings.ReplaceAll name (str "...") (str "") in
  let name := Strings.ReplaceAll name (str "..") (str "") in
  let name := Strings.ReplaceAll name (str ".") (str " ") in
  Strings.TrimSpace name.

(** A byte that [sanitizeFileName] lets through unchanged. *)
Definition plainByte (c : ascii) : Prop :=
  Strings.byteIn c invalidChars = false /\ c <> "."%char.

(** The string ends with an underscore or with a space. *)
Definition endsInUnderscoreOrSpace (s : gostring) : bool :=
  match last s with
  | Some c => Ascii.eqb c "_" || bool_decide (is_Some (Strings.dropSpaceSuffix s))
  | None => false
  end.

(** ** Package [path/filepath] (Unix) *)
Module Filepath.

(** [strings.Split s "/"]. *)
Fixpoint splitSlash (s : gostring) : list gostring :=
  match s with
  | [] => [[]]
  | c :: s' =>
      if Ascii.eqb c "/" then [] :: splitSlash s'
      else match splitSlash s' with
           | e :: rest => (c :: e) :: rest
           | [] => [[c]]
           end
  end.

(** [strings.Join elems "/"]. *)
Fixpoint joinSlash (elems : list gostring) : gostring :=
  match elems with
  | [] => []
  | [e] => e
  | e :: rest => e ++ "/"%char :: joinSlash rest
  end.

(** The loop of [filepath.Clean] over the elements of the path; [out] is the
    output written so far, last element first.  Empty and [.] elements are
    dropped; a [..] element removes the element before it, is dropped at the
    start of a rooted path and is kept at the start of a relative one. *)
Fixpoint cleanElems (rooted : bool) (elems out : list gostring) : list gostring :=
  match elems with
  | [] => out
  | e :: rest =>
      if Strings.eqs e [] || Strings.eqs e (str ".") then cleanElems rooted rest out
      else if Strings.eqs e (str "..") then
        match out with
        | top :: out' =>
            if Strings.eqs top (str "..") then cleanElems rooted rest (e :: out)
            else cleanElems rooted rest out'
        | [] => if rooted then cleanElems rooted rest [] else cleanElems rooted rest [e]
        end
      else cleanElems rooted rest (e :: out)
  end.

(** The path starts with a slash. *)
Definition isRooted (path : gostring) : bool :=
  match path with
  | c :: _ => Ascii.eqb c "/"
  | [] => false
  end.

(** [filepath.Clean]. *)
Definition Clean (path : gostring) : gostring :=
  let rooted := isRooted path in
  let out := joinSlash (rev (cleanElems rooted (splitSlash path) [])) in
  let out := if rooted then "/"%char :: out else out in
  if Strings.eqs out [] then str "." else out.

(** [filepath.Join]: the elements from the first non-empty one on are joined
    with a slash and the result is cleaned; [""] when all are empty. *)
Fixpoint Join (elem : list gostring) : gostring :=
  match elem with
  | [] => []
  | e :: rest => if Strings.eqs e [] then Join rest else Clean (joinSlash elem)
  end.

(** [filepath.Ext]: the suffix from the last dot of the last element on. *)
Fixpoint Ext (path : gostring) : gostring :=
  match path with
  | [] => []
  | c :: path' =>
      if existsb (fun x => Ascii.eqb x "." || Ascii.eqb x "/") path' then Ext path'
      else if Ascii.eqb c "." then path else []
  end.

(** An element that [filepath.Clean] keeps as it is: not empty, neither [.]
    nor [..], without a slash. *)
Definition plain (e : gostring) : Prop :=
  e <> [] /\ e <> str "." /\ e <> str ".." /\ Forall (fun c => c <> "/"%char) e.

(** The canonical text of a rooted path with the elements [l]. *)
Definition rootedPath (l : list gostring) : gostring := "/"%char :: joinSlash l.

End Filepath.

(** ** The file system

    A tree of directories and regular files; no links, no permissions.  The
    entries of a directory are kept sorted by name, the order in which
    [ioutil.ReadDir] and [os.ReadDir] return them.  The working directory of
    the process is the root of the tree. *)
Module OS.

#[local] Unset Elimination Schemes.
Inductive node : Type :=
  | File (content : gostring)
  | Dir (entries : list (gostring * node)).
#[local] Set Elimination Schemes.

Definition isDir (n : node) : bool :=
  match n with
  | Dir _ => true
  | File _ => false
  end.

(** Order of Go strings, byte by byte. *)
Fixpoint lessString (a b : gostring) : bool :=
  match a, b with
  | _, [] => false
  | [], _ :: _ => true
  | x :: a', y :: b' =>
      if (N_of_ascii x <? N_of_ascii y)%N then true
      else if (N_of_ascii y <? N_of_ascii x)%N then false
      else lessString a' b'
  end.

Fixpoint lookupEntry (name : gostring) (es : list (gostring * node)) : option node :=
  match es with
  | [] => None
  | (k, n) :: es' => if Strings.eqs k name then Some n else lookupEntry name es'
  end.

(** The entry [name] is replaced, or added at its place in the order. *)
Fixpoint putEntry (name : gostring) (n : node) (es : list (gostring * node))
  : list (gostring * node) :=
  match es with
  | [] => [(name, n)]
  | (k, m) :: es' =>
      if Strings.eqs k name then (name, n) :: es'
      else if lessString name k then (name, n) :: es
      else (k, m) :: putEntry name n es'
  end.

Fixpoint removeEntry (name : gostring) (es : list (gostring * node))
  : list (gostring * node) :=
  match es with
  | [] => []
  | (k, m) :: es' => if Strings.eqs k name then es' else (k, m) :: removeEntry name es'
  end.

(** The elements of a path from the root of the tree; a relative path is
    resolved from the working directory, which is that root. *)
Definition resolve (path : gostring) : list gostring :=
  rev (Filepath.cleanElems true (Filepath.splitSlash path) []).

(** Outcome of looking a path up: found, [ENOENT], or [ENOTDIR] when an
    element before the last one is a regular file. *)
Inductive lookupResult : Type :=
  | Found (n : node)
  | ENOENT
  | ENOTDIR.

Fixpoint lookup (n : node) (elems : list gostring) : lookupResult :=
  match elems with
  | [] => Found n
  | e :: elems' =>
      match n with
      | File _ => ENOTDIR
      | Dir es =>
          match lookupEntry e es with
          | Some c => lookup c elems'
          | None => ENOENT
          end
      end
  end.

(** [os.Stat] (and [os.Lstat]); the empty path does not exist. *)
Definition Stat (fs : node) (path : gostring) : lookupResult :=
  if Strings.eqs path [] then ENOENT else lookup fs (resolve path).

(** [os.IsNotExist] of the error of a [Stat]. *)
Definition IsNotExist (r : lookupResult) : bool :=
  match r with
  | ENOENT => true
  | _ => false
  end.

(** [os.MkdirAll] on the elements of the path: missing directories are
    created; [None] is the error when an element is a regular file. *)
Fixpoint mkdirAll (n : node) (elems : list gostring) : option node :=
  match n with
  | File _ => None
  | Dir es =>
      match elems with
      | [] => Some n
      | e :: elems' =>
          match lookupEntry e es with
          | Some c =>
              match mkdirAll c elems' with
              | Some c' => Some (Dir (putEntry e c' es))
              | None => None
              end
          | None =>
              match mkdirAll (Dir []) elems' with
              | Some c' => Some (Dir (putEntry e c' es))
              | None => None
              end
          end
      end
  end.

Definition MkdirAll (fs : node) (path : gostring) : option node :=
  if Strings.eqs path [] then None else mkdirAll fs (resolve path).

(** [os.Create] followed by [WriteString]: the file is created or truncated
    and holds [content]; [None] is the error when the parent is not an
    existing directory or the path is a directory. *)
Fixpoint writeFile (n : node) (elems : list gostring) (content : gostring) : option node :=
  match n, elems with
  | Dir es, [e] =>
      match lookupEntry e es with
      | Some (Dir _) => None
      | _ => Some (Dir (putEntry e (File content) es))
      end
  | Dir es, e :: elems' =>
      match lookupEntry e es with
      | Some c =>
          match writeFile c elems' content with
          | Some c' => Some (Dir (putEntry e c' es))
          | None => None
          end
      | None => None
      end
  | _, _ => None
  end.

Definition Create (fs : node) (path content : gostring) : option node :=
  if Strings.eqs path [] then None else writeFile fs (resolve path) content.

(** The tree with the node at [elems] replaced ([Some]) or removed ([None]). *)
Fixpoint replaceAt (n : node) (elems : list gostring) (new : option node) : node :=
  match elems with
  | [] => match new with Some n' => n' | None => n end
  | [e] =>
      match n with
      | Dir es => Dir (match new with
                       | Some n' => putEntry e n' es
                       | None => removeEntry e es
                       end)
      | File _ => n
      end
  | e :: elems' =>
      match n with
      | Dir es =>
          match lookupEntry e es with
          | Some c => Dir (putEntry e (replaceAt c elems' new) es)
          | None => n
          end
      | File _ => n
      end
  end.

(** [ioutil.ReadDir]: the entries of a directory; [None] is the error when
    the path is not an existing directory. *)
Definition ReadDir (fs : node) (path : gostring) : option (list (gostring * node)) :=
  match Stat fs path with
  | Found (Dir entries) => Some entries
  | _ => None
  end.

(** [os.Remove]: the regular file or the empty directory at the path is
    removed; [None] is the error when there is none, or when it is the top of
    the tree. *)
Definition Remove (fs : node) (path : gostring) : option node :=
  match Stat fs path, resolve path with
  | Found (File _), _ :: _ | Found (Dir []), _ :: _ => Some (replaceAt fs (resolve path) None)
  | _, _ => None
  end.

End OS.

(** ** The program (GetSTRM.go) *)

Record Stream : Type := mkStream {
  URL : gostring;
  TvgName : gostring;
  GroupTitle : gostring
}.

(** The package-level configuration variables that the engine reads, and
    [config.LimitDelete]. *)
Record Config : Type := mkConfig {
  tvShowsDir : gostring;
  moviesDir : gostring;
  useGroup : Z;
  defaultGroup : gostring;
  excludeGroups : list gostring;
  includeGroups : list gostring;
  LimitDelete : Z
}.

(** The counters of the [stats] map; the package-level counters of the same
    names always hold the same values. *)
Record Stats : Type := mkStats {
  createdDirs : Z;
  keptStrmFiles : Z;
  removedStrmFiles : Z;
  removedEmptyDirs : Z
}.

(** The state of a run: the file system, the [keepFiles] map (every value
    stored in it is [true], so it is the set of its keys) and the counters.
    Log output is not part of the state. *)
Record State : Type := mkState {
  fs : OS.node;
  keepFiles : gset gostring;
  stats : Stats
}.

Definition incCreatedDirs (s : Stats) : Stats :=
  mkStats (createdDirs s + 1) (keptStrmFiles s) (removedStrmFiles s) (removedEmptyDirs s).
Definition incKeptStrmFiles (s : Stats) : Stats :=
  mkStats (createdDirs s) (keptStrmFiles s + 1) (removedStrmFiles s) (removedEmptyDirs s).
Definition incRemovedStrmFiles (s : Stats) : Stats :=
  mkStats (createdDirs s) (keptStrmFiles s) (removedStrmFiles s + 1) (removedEmptyDirs s).
Definition incRemovedEmptyDirs (s : Stats) : Stats :=
  mkStats (createdDirs s) (keptStrmFiles s) (removedStrmFiles s) (removedEmptyDirs s + 1).

(** *** The regular expression [S\d{1,2}E\d{1,3}] *)

Definition isDigit (c : ascii) : bool :=
  let n := N_of_ascii c in ((48 <=? n) && (n <=? 57))%N.

(** [\d{0,2}], greedy: the digits that extend [E\d] to [E\d{1,3}]. *)
Definition moreDigits (s : gostring) : gostring :=
  match s with
  | d :: s' =>
      if isDigit d then
        d :: match s' with
             | d' :: _ => if isDigit d' then [d'] else []
             | [] => []
             end
      else []
  | [] => []
  end.

(** [E\d{1,3}] at the start of [s]: the text matched. *)
Definition matchEpisode (s : gostring) : option gostring :=
  match s with
  | e :: d :: s' =>
      if Ascii.eqb e "E" && isDigit d then Some (e :: d :: moreDigits s') else None
  | _ => None
  end.

(** The whole expression at the start of [s].  [\d{1,2}] prefers two digits
    and falls back to one. *)
Definition matchHere (s : gostring) : option gostring :=
  match s with
  | c :: d1 :: s1 =>
      if Ascii.eqb c "S" && isDigit d1 then
        let two :=
          match s1 with
          | d2 :: s2 =>
              if isDigit d2 then
                match matchEpisode s2 with
                | Some m => Some (c :: d1 :: d2 :: m)
                | None => None
                end
              else None
          | [] => None
          end in
        match two with
        | Some m => Some m
        | None =>
            match matchEpisode s1 with
            | Some m => Some (c :: d1 :: m)
            | None => None
            end
        end
      else None
  | _ => None
  end.

(** [tvShowRegex.FindString]: the text of the leftmost match, [""] if none. *)
Fixpoint FindString (s : gostring) : gostring :=
  match matchHere s with
  | Some m => m
  | None => match s with
            | [] => []
            | _ :: s' => FindString s'
            end
  end.

(** [tvShowRegex.MatchString]. *)
Fixpoint MatchString (s : gostring) : bool :=
  match matchHere s with
  | Some _ => true
  | None => match s with
            | [] => false
            | _ :: s' => MatchString s'
            end
  end.

(** [strings.SplitN(s, sep, 2)[0]] for a non-empty [sep]: the text before the
    first occurrence of [sep], all of [s] when there is none. *)
Fixpoint beforeFirst (s sep : gostring) : gostring :=
  match s with
  | [] => []
  | c :: s' => if Strings.HasPrefix s sep then [] else c :: beforeFirst s' sep
  end.

(** [seasonEpisode[:3]]; the slice cannot fail, a match has four bytes or
    more. *)
Definition seasonOf (seasonEpisode : gostring) : gostring := take 3 seasonEpisode.

(** The show name of [processTVShow]: the text before the match, normalized
    and sanitized. *)
Definition showNameOf (stream : Stream) (parts : gostring) : gostring :=
  sanitizeFileName (normalizeName (beforeFirst (TvgName stream) parts)).

(** The test of the callback for a stream file: a directory entry [name]
    that is not a directory and has the extension [.strm]. *)
Definition isStrmFile (name : gostring) (n : OS.node) : bool :=
  negb (OS.isDir n) && Strings.eqs (Filepath.Ext name) (str ".strm").

Inductive Kind : Type := TVEpisode | Movie.

Record ClassifiedTarget : Type := mkTarget {
  kind : Kind;
  canonicalName : gostring;
  season : gostring;
  groupLabel : gostring
}.

Section Engine.

(** The Unicode case tables are not part of the program: what
    [strings.ToLower] and [strings.EqualFold] return on a string that has a
    byte outside ASCII is a parameter. *)
Variable unicodeToLower : gostring -> gostring.
Variable unicodeEqualFold : gostring -> gostring -> bool.

Definition isASCII (s : gostring) : bool :=
  forallb (fun c => (N_of_ascii c <? 128)%N) s.

Definition lowerByte (c : ascii) : ascii :=
  let n := N_of_ascii c in
  if ((65 <=? n) && (n <=? 90))%N then ascii_of_N (n + 32) else c.

(** [strings.ToLower]. *)
Definition ToLower (s : gostring) : gostring :=
  if isASCII s then map lowerByte s else unicodeToLower s.

(** [strings.EqualFold]. *)
Definition EqualFold (s t : gostring) : bool :=
  if isASCII s && isASCII t then Strings.eqs (map lowerByte s) (map lowerByte t)
  else unicodeEqualFold s t.

Variable cfg : Config.

(** [contains]. *)
Definition contains (slice : list gostring) (item : gostring) : bool :=
  let item := ToLower (Strings.TrimSpace item) in
  existsb (fun s => EqualFold (Strings.TrimSpace s) item) slice.

(** [createOrUpdateStrmFile]: an error of [os.Create] is logged only. *)
Definition createOrUpdateStrmFile (filePath url : gostring) (st : State) : State :=
  match OS.Create (fs st) filePath url with
  | Some fs' => mkState fs' (keepFiles st) (stats st)
  | None => st
  end.

(** The directory and the stream file of a television episode, as
    [processTVShow] computes them from the matched text [parts]. *)
Definition showDirOf (stream : Stream) (groupTitle parts : gostring) : gostring :=
  let showName := showNameOf stream parts in
  let seasonEpisode := parts in
  let season := seasonOf seasonEpisode in
  if useGroup cfg =? 1
  then Filepath.Join [tvShowsDir cfg; groupTitle; showName; season]
  else Filepath.Join [tvShowsDir cfg; showName; season].

(** The stream file of a record in its directory [dir]: the sanitized
    display name with the extension [.strm]. *)
Definition strmFilePathOf (dir : gostring) (stream : Stream) : gostring :=
  Filepath.Join [dir; sanitizeFileName (normalizeName (TvgName stream)) ++ str ".strm"].

(** [processTVShow]. *)
Definition processTVShow (stream : Stream) (groupTitle : gostring) (st : State) : State :=
  let parts := FindString (TvgName stream) in
  if Strings.eqs parts [] then st
  else
    let showDir := showDirOf stream groupTitle parts in
    let created :=
      if OS.IsNotExist (OS.Stat (fs st) showDir) then
        match OS.MkdirAll (fs st) showDir with
        | Some fs' => Some (mkState fs' (keepFiles st) (incCreatedDirs (stats st)))
        | None => None
        end
      else Some st in
    match created with
    | None => st
    | Some st =>
        let strmFilePath := strmFilePathOf showDir stream in
        let st := mkState (fs st) ({[ strmFilePath ]} ∪ keepFiles st) (stats st) in
        let st := createOrUpdateStrmFile strmFilePath (URL stream) st in
        mkState (fs st) (keepFiles st) (incKeptStrmFiles (stats st))
    end.

Definition movieDirOf (stream : Stream) (groupTitle : gostring) : gostring :=
  if useGroup cfg =? 1
  then Filepath.Join [moviesDir cfg; groupTitle; sanitizeFileName (normalizeName (TvgName stream))]
  else Filepath.Join [moviesDir cfg; sanitizeFileName (normalizeName (TvgName stream))].

(** [processMovie]. *)
Definition processMovie (stream : Stream) (groupTitle : gostring) (st : State) : State :=
  let movieDir := movieDirOf stream groupTitle in
  let created :=
    if OS.IsNotExist (OS.Stat (fs st) movieDir) then
      match OS.MkdirAll (fs st) movieDir with
      | Some fs' => Some (mkState fs' (keepFiles st) (incCreatedDirs (stats st)))
      | None => None
      end
    else Some st in
  match created with
  | None => st
  | Some st =>
      let strmFilePath := strmFilePathOf movieDir stream in
      let st := mkState (fs st) ({[ strmFilePath ]} ∪ keepFiles st) (stats st) in
      let st := createOrUpdateStrmFile strmFilePath (URL stream) st in
      mkState (fs st) (keepFiles st) (incKeptStrmFiles (stats st))
  end.

(** The group label of a record: trimmed, lower-cased, defaulted. *)
Definition groupTitleOf (stream : Stream) : gostring :=
  let groupTitle := ToLower (Strings.TrimSpace (GroupTitle stream)) in
  if Strings.eqs groupTitle [] then defaultGroup cfg else groupTitle.

(** What the engine derives from a record before it builds paths: the kind
    ([MatchString] decides), the show or movie name, the season of an
    episode and the group label. *)
Definition classify (stream : Stream) : ClassifiedTarget :=
  if MatchString (TvgName stream) then
    let parts := FindString (TvgName stream) in
    mkTarget TVEpisode (showNameOf stream parts) (seasonOf parts) (groupTitleOf stream)
  else
    mkTarget Movie (sanitizeFileName (normalizeName (TvgName stream))) [] (groupTitleOf stream).

(** The directory and the stream file that [processStreams] gives a record. *)
Definition targetDir (stream : Stream) : gostring :=
  if MatchString (TvgName stream)
  then showDirOf stream (groupTitleOf stream) (FindString (TvgName stream))
  else movieDirOf stream (groupTitleOf stream).

Definition targetFile (stream : Stream) : gostring :=
  strmFilePathOf (targetDir stream) stream.

(** The body of the loop of [processStreams]. *)
Definition processStream (st : State) (stream : Stream) : State :=
  let groupTitle := groupTitleOf stream in
  if contains (excludeGroups cfg) groupTitle then st
  else if negb (Nat.eqb (length (includeGroups cfg)) 0)
          && negb (contains (includeGroups cfg) groupTitle) then st
  else if MatchString (TvgName stream) then processTVShow stream groupTitle st
  else processMovie stream groupTitle st.

(** [os.MkdirAll] whose error is ignored. *)
Definition mkdirRoot (path : gostring) (st : State) : State :=
  match OS.MkdirAll (fs st) path with
  | Some fs' => mkState fs' (keepFiles st) (stats st)
  | None => st
  end.

(** [processStreams]. *)
Definition processStreams (streams : list Stream) (st : State) : State :=
  let st := mkdirRoot (tvShowsDir cfg) st in
  let st := mkdirRoot (moviesDir cfg) st in
  fold_left processStream streams st.

(** *** The pruning walk ([removeEmptyDirs]) *)

(** The local counter [deletions] of [removeEmptyDirs] and the counters. *)
Record Walk : Type := mkWalk {
  deletions : Z;
  wstats : Stats
}.

(** From [w] to [w'] the local counter [deletions] and the counter of
    removed stream files grew by the same amount, and no counter fell. *)
Definition countsFiles (w w' : Walk) : Prop :=
  deletions w' - deletions w
  = removedStrmFiles (wstats w') - removedStrmFiles (wstats w) /\
  deletions w <= deletions w' /\
  removedEmptyDirs (wstats w) <= removedEmptyDirs (wstats w') /\
  createdDirs (wstats w') = createdDirs (wstats w) /\
  keptStrmFiles (wstats w') = keptStrmFiles (wstats w).

Section WalkDir.

Variable ciKeepFiles : gset gostring.
Variable rootDir : gostring.
Variable limit : Z.

(** The loop over the entries [files] of the directory [path] in the
    callback.  The result tells for each entry whether it is still there
    ([true]) or was removed, and whether the loop was left with
    [filepath.SkipDir] because the limit was reached. *)
Fixpoint pruneFiles (path : gostring) (files : list (gostring * OS.node)) (w : Walk)
  : list bool * Walk * bool :=
  match files with
  | [] => ([], w, false)
  | (name, file) :: rest =>
      if limit <=? deletions w then (map (fun _ => true) files, w, true)
      else
        let filePath := Filepath.Join [path; name] in
        if negb (OS.isDir file) && Strings.eqs (Filepath.Ext name) (str ".strm") then
          let lowerCaseFilePath := ToLower filePath in
          if negb (bool_decide (lowerCaseFilePath ∈ ciKeepFiles)) then
            let '(kept, w', skip) :=
              pruneFiles path rest (mkWalk (deletions w + 1) (incRemovedStrmFiles (wstats w))) in
            (false :: kept, w', skip)
          else
            let '(kept, w', skip) := pruneFiles path rest w in (true :: kept, w', skip)
        else
          let '(kept, w', skip) := pruneFiles path rest w in (true :: kept, w', skip)
  end.

(** The entries that are still there. *)
Fixpoint remaining (files : list (gostring * OS.node)) (kept : list bool)
  : list (gostring * OS.node) :=
  match files, kept with
  | f :: files', true :: kept' => f :: remaining files' kept'
  | _ :: files', false :: kept' => remaining files' kept'
  | _, _ => []
  end.

(** The loop of [filepath.WalkDir]'s [walkDir] over the entries [dirs] that
    it reads in the directory [path] once the callback has returned: each
    entry that is still there is walked by [walk]; the result lists the
    entries that are there afterwards. *)
Definition walkEntries (walk : gostring -> OS.node -> Walk -> option OS.node * Walk)
    (path : gostring)
  : list (gostring * OS.node) -> list bool -> Walk -> list (gostring * OS.node) * Walk :=
  fix loop (dirs : list (gostring * OS.node)) (kept : list bool) (w : Walk) :=
    match dirs, kept with
    | (name, d1) :: dirs', true :: kept' =>
        let '(r, w) := walk (Filepath.Join [path; name]) d1 w in
        let '(rest, w) := loop dirs' kept' w in
        (match r with
         | Some d1' => (name, d1') :: rest
         | None => rest
         end, w)
    | _ :: dirs', false :: kept' => loop dirs' kept' w
    | _, _ => ([], w)
    end.

(** [filepath.WalkDir]'s [walkDir] with the callback of [removeEmptyDirs]
    inlined: the node at [path] after the walk ([None] when it was removed)
    and the counters.  On a directory the callback first removes stream
    files, then removes the directory if it is empty and not the root; the
    entries are read and walked after the callback has returned, unless it
    returned [filepath.SkipDir]. *)
Fixpoint walkDir (path : gostring) (d : OS.node) (w : Walk) {struct d}
  : option OS.node * Walk :=
  match d with
  | OS.File _ => (Some d, w)
  | OS.Dir files =>
      let '(kept, w, skip) := pruneFiles path files w in
      if skip then (Some (OS.Dir (remaining files kept)), w)
      else if Nat.eqb (length (remaining files kept)) 0 && negb (Strings.eqs path rootDir)
      then (None, mkWalk (deletions w) (incRemovedEmptyDirs (wstats w)))
      else
        let '(entries, w) := walkEntries walkDir path files kept w in
        (Some (OS.Dir entries), w)
  end.

(** The entry is a stream file that the callback removes when it reaches
    it: its path, lower-cased, is not in the set. *)
Definition stale (path : gostring) (f : gostring * OS.node) : Prop :=
  isStrmFile f.1 f.2 = true /\ ToLower (Filepath.Join [path; f.1]) ∉ ciKeepFiles.

(** The callback does not remove the entry [f] of the directory [path]: it
    is no stream file, or its path is in the set. *)
Definition keptEntry (path : gostring) (f : gostring * OS.node) : Prop :=
  isStrmFile f.1 f.2 = true -> ToLower (Filepath.Join [path; f.1]) ∈ ciKeepFiles.

(** No stream file below the node [n], walked as [path], is stale. *)
Fixpoint allKept (path : gostring) (n : OS.node) {struct n} : Prop :=
  match n with
  | OS.File _ => True
  | OS.Dir es =>
      (fix entries (es : list (gostring * OS.node)) : Prop :=
         match es with
         | [] => True
         | f :: es' =>
             (keptEntry path f /\ allKept (Filepath.Join [path; f.1]) f.2) /\ entries es'
         end) es
  end.

Definition entryKept (path : gostring) (f : gostring * OS.node) : Prop :=
  keptEntry path f /\ allKept (Filepath.Join [path; f.1]) f.2.

End WalkDir.

(** [removeEmptyDirs]. *)
Definition removeEmptyDirs (rootDir : gostring) (limit : Z) (st : State) : State :=
  let ciKeepFiles : gset gostring := set_map ToLower (keepFiles st) in
  match OS.Stat (fs st) rootDir with
  | OS.Found d =>
      let '(r, w) := walkDir ciKeepFiles rootDir limit rootDir d (mkWalk 0 (stats st)) in
      mkState (OS.replaceAt (fs st) (OS.resolve rootDir) r) (keepFiles st) (wstats w)
  | _ => st
  end.

(** One run of [main] on a catalog: a new process starts with an empty
    [keepFiles] and counters at zero. *)
Definition run (streams : list Stream) (fs0 : OS.node) : State :=
  let st := mkState fs0 ∅ (mkStats 0 0 0 0) in
  let st := processStreams streams st in
  let st := removeEmptyDirs (tvShowsDir cfg) (LimitDelete cfg) st in
  let st := removeEmptyDirs (moviesDir cfg) (LimitDelete cfg) st in
  st.

(** No stream file of the tree of the root [rootDir] is stale with respect
    to the keys [keys] of [keepFiles]. *)
Definition NoStale (keys : gset gostring) (rootDir : gostring) (tree : OS.node) : Prop :=
  forall d, OS.lookup tree (OS.resolve rootDir) = OS.Found d ->
            allKept (set_map ToLower keys) rootDir d.

(** [processStreams] passes the record on to [processTVShow] or
    [processMovie]: its group is not excluded and, if groups are included,
    it is one of them. *)
Definition accepted (stream : Stream) : bool :=
  let groupTitle := groupTitleOf stream in
  negb (contains (excludeGroups cfg) groupTitle)
  && negb (negb (Nat.eqb (length (includeGroups cfg)) 0)
           && negb (contains (includeGroups cfg) groupTitle)).

(** The keys that [processStreams] adds to [keys]. *)
Definition wantedFrom (keys : gset gostring) (streams : list Stream) : gset gostring :=
  fold_left (fun keys stream =>
               if accepted stream then {[ targetFile stream ]} ∪ keys else keys)
            streams keys.

End Engine.

(** The root directory of a kind of record. *)
Definition rootOf (cfg : Config) (k : Kind) : gostring :=
  match k with
  | TVEpisode => tvShowsDir cfg
  | Movie => moviesDir cfg
  end.

(** Case tables for strings that hold ASCII only, where they are never
    consulted: the examples below use them. *)
Definition noUnicodeToLower : gostring -> gostring := fun s => s.
Definition noUnicodeEqualFold : gostring -> gostring -> bool := Strings.eqs.

(** The path that the walk of [rootDir] passes to its callback for the node
    reached through the entries [names]: each step is a [filepath.Join]. *)
Definition walkPath (rootDir : gostring) (names : list gostring) : gostring :=
  fold_left (fun path name => Filepath.Join [path; name]) names rootDir.

(** The catalog, the roots and the stale file of the end-to-end scenario;
    [limit] is the deletion limit. *)
Definition scenarioConfig (limit : Z) : Config :=
  mkConfig (str "tvshows") (str "movies") 0 (str "Dummy") [] [] limit.

Definition scenarioCatalog : list Stream :=
  [mkStream (str "http://x/a.mkv") (str "Show.S01E01") (str "");
   mkStream (str "http://x/b.avi") (str "Old.Movie") (str "")].

Definition staleFile (name : string) : gostring * OS.node :=
  (str name, OS.File (str "http://x/old.mkv")).

Definition scenarioTree : OS.node :=
  OS.Dir [(str "movies", OS.Dir [(str "Stale_Movie", OS.Dir [staleFile "Stale_Movie.strm"])])].

(** A tree with one stale stream file under each root. *)
Definition twoRootsTree : OS.node :=
  OS.Dir [(str "movies", OS.Dir [(str "Gone", OS.Dir [staleFile "Gone.strm"])]);
          (str "tvshows", OS.Dir [(str "Over", OS.Dir [(str "S01", OS.Dir [staleFile "Over S01E01.strm"])])])].

(** A tree with two stale stream files in one directory. *)
Definition twoStaleTree : OS.node :=
  OS.Dir [(str "movies", OS.Dir [(str "Gone", OS.Dir [staleFile "Gone.strm"; staleFile "Gone2.strm"])])].

(** ** Reading a playlist ([processM3U] and its helpers) *)

(** The double quote. *)
Definition doubleQuote : ascii := ascii_of_nat 34.

(** Any number of bytes other than a double quote, then a double quote, at
    the start of [s]: the text before the first double quote, if there is
    one. *)
Fixpoint untilQuote (s : gostring) : option gostring :=
  match s with
  | [] => None
  | c :: s' =>
      if Ascii.eqb c doubleQuote then Some []
      else match untilQuote s' with
           | Some g => Some (c :: g)
           | None => None
           end
  end.

(** [FindStringSubmatch(line)[1]] for the expression made of the literal
    text [key], a group of any number of bytes other than a double quote,
    and a double quote ([key] ends with the opening double quote).  The
    places of [line] are tried from the left; at a place where [key] stands,
    the group takes the bytes up to the next double quote, and the match
    fails there if none follows. *)
Fixpoint FindStringSubmatch (key line : gostring) : option gostring :=
  match (if Strings.HasPrefix line key then untilQuote (drop (length key) line) else None) with
  | Some g => Some g
  | None =>
      match line with
      | [] => None
      | _ :: line' => FindStringSubmatch key line'
      end
  end.

Definition parseTvgName (line : gostring) : gostring :=
  match FindStringSubmatch (str "tvg-name=" ++ [doubleQuote]) line with
  | Some g => g
  | None => []
  end.

Definition parseGroupTitle (line : gostring) : gostring :=
  match FindStringSubmatch (str "group-title=" ++ [doubleQuote]) line with
  | Some g => g
  | None => []
  end.

(** [bufio.ScanLines] drops one carriage return at the end of a line. *)
Definition dropCR (data : gostring) : gostring :=
  match last data with
  | Some c => if Ascii.eqb c (ascii_of_nat 13) then removelast data else data
  | None => data
  end.

(** [bufio.MaxScanTokenSize]. *)
Definition MaxScanTokenSize : Z := 64 * 1024.

(** The lines that a [bufio.Scanner] returns for [body]: the text is cut at
    every line feed, what follows the last line feed is a line if it is not
    empty, and each line loses one carriage return at its end.  [None] is
    the error [bufio.ErrTooLong]: the buffer of the scanner grows up to
    [MaxScanTokenSize] bytes, and a run of that many bytes without a line
    feed fills it before a line is found. *)
Definition scanLines (body : gostring) : option (list gostring) :=
  let raw := Strings.Split body (ascii_of_nat 10) in
  if existsb (fun l => MaxScanTokenSize <=? Z.of_nat (length l)) raw then None
  else
    let lines := match last raw with
                 | Some [] => removelast raw
                 | _ => raw
                 end in
    Some (map dropCR lines).

Section Playlist.

Variable unicodeToLower : gostring -> gostring.

(** The package-level variable [fileTypes]. *)
Variable fileTypes : list gostring.

Definition isValidStrmType (url : gostring) : bool :=
  existsb (fun ext => Strings.HasSuffix (ToLower unicodeToLower url) (ToLower unicodeToLower ext))
          fileTypes.

(** The state of the loop of [processM3U]: the record that waits for its
    URL, the records read so far and the counter [rejectedFileExts] of
    [stats]. *)
Record Reader : Type := mkReader {
  currentStream : option Stream;
  readStreams : list Stream;
  rejectedFileExts : Z
}.

(** The body of the loop of [processM3U] on one line. *)
Definition readLine (r : Reader) (line : gostring) : Reader :=
  if Strings.HasPrefix line (str "#EXTINF:") then
    let tvgName := parseTvgName line in
    let groupTitle := parseGroupTitle line in
    mkReader (Some (mkStream [] tvgName groupTitle)) (readStreams r) (rejectedFileExts r)
  else
    match currentStream r with
    | Some current =>
        let current := mkStream line (TvgName current) (GroupTitle current) in
        if isValidStrmType (URL current)
        then mkReader None (readStreams r ++ [current]) (rejectedFileExts r)
        else mkReader None (readStreams r) (rejectedFileExts r + 1)
    | None => r
    end.

(** The loop of [processM3U] over the lines of the playlist. *)
Definition readLines (lines : list gostring) (rejected : Z) : Reader :=
  fold_left readLine lines (mkReader None [] rejected).

(** [processM3U] from the body of the response on (the download and the
    copy that is saved are not modelled): the records and the counter of
    rejected URLs, or [None] when the scanner reports an error, upon which
    [main] ends the process. *)
Definition processM3U (body : gostring) (rejected : Z) : option (list Stream * Z) :=
  match scanLines body with
  | Some lines =>
      let r := readLines lines rejected in
      Some (readStreams r, rejectedFileExts r)
  | None => None
  end.

End Playlist.

(** ** The configuration ([main]) *)

Definition filterEmptyStrings (slice : list gostring) : list gostring :=
  fold_left (fun result str => if negb (Strings.eqs str []) then result ++ [str] else result)
            slice [].

Definition hasCommonElement (slice1 slice2 : list gostring) : bool :=
  let set : gset gostring := fold_left (fun set val => {[ val ]} ∪ set) slice1 ∅ in
  existsb (fun val => bool_decide (val ∈ set)) slice2.

(** [removeDownloadedFiles]; [downloadDir] is the package-level variable.
    The errors are logged only. *)
Definition removeDownloadedFiles (downloadDir : gostring) (fs : OS.node) : OS.node :=
  match OS.ReadDir fs downloadDir with
  | None => fs
  | Some files =>
      fold_left (fun fs file =>
                   let filePath := Filepath.Join [downloadDir; file.1] in
                   if negb (OS.isDir file.2) then
                     match OS.Remove fs filePath with
                     | Some fs' => fs'
                     | None => fs
                     end
                   else fs)
                files fs
  end.

Module Main.

(** The values of the command-line flags. *)
Record Flags : Type := mkFlags {
  configFile : gostring;
  nameFlag : gostring;
  logLevelFlag : Z;
  tvShowsDirFlag : gostring;
  moviesDirFlag : gostring;
  jsonURLFlag : gostring;
  m3uURLFlag : gostring;
  logFileFlag : gostring;
  fileTypeFlag : gostring;
  workingDirFlag : gostring;
  logDirFlag : gostring;
  helpFlag : bool;
  retainDownloadFlag : Z;
  downloadDirFlag : gostring;
  limitDeleteFlag : Z;
  useGroupFlag : Z;
  defaultGroupFlag : gostring;
  excludeGroupFlag : gostring;
  includeGroupFlag : gostring;
  versionFlag : bool
}.

(** The default values that [main] declares for the flags. *)
Definition defaultFlags : Flags :=
  mkFlags [] [] (-1) [] [] [] [] []
    (str "avi,flv,m4v,mkv,mkv2,mkv5,mkvv,mp4,mp41,mp42,mp44,mpg,wmv")
    [] [] false 0 [] 25 0 (str "Dummy") [] [] false.

(** The type [Config] of the program. *)
Record Config : Type := mkConfig {
  Name : gostring;
  LogLevel : Z;
  TvShowsDir : gostring;
  MoviesDir : gostring;
  JsonURLs : list gostring;
  M3UURLs : list gostring;
  LogFile : gostring;
  FileType : gostring;
  WorkingDir : gostring;
  LogDir : gostring;
  RetainDownload : Z;
  DownloadDir : gostring;
  LimitDelete : Z;
  UseGroup : Z;
  DefaultGroup : gostring;
  ExcludeGroup : gostring;
  IncludeGroup : gostring
}.

(** [&Config{}], the configuration when no file is given. *)
Definition emptyConfig : Config :=
  mkConfig [] 0 [] [] [] [] [] [] [] [] 0 [] 0 0 [] [] [].

(** [strings.ContainsAny]. *)
Definition ContainsAny (s chars : gostring) : bool :=
  existsb (fun c => Strings.byteIn c chars) s.

(** The part of [main] that overrides the configuration with the flags
    that were given.  [None] is the return upon a log file name that holds a
    slash or a backslash. *)
Definition overrideConfig (flags : Flags) (config : Config) : option Config :=
  let pick (flag old : gostring) := if negb (Strings.eqs flag []) then flag else old in
  let add (flag : gostring) (old : list gostring) :=
    if negb (Strings.eqs flag []) then old ++ [flag] else old in
  let logFile := pick (logFileFlag flags) (LogFile config) in
  if negb (Strings.eqs (logFileFlag flags) []) && ContainsAny logFile (str "/\")
  then None
  else Some
    (mkConfig
       (pick (nameFlag flags) (Name config))
       (if negb (logLevelFlag flags =? -1) then logLevelFlag flags else LogLevel config)
       (pick (tvShowsDirFlag flags) (TvShowsDir config))
       (pick (moviesDirFlag flags) (MoviesDir config))
       (add (jsonURLFlag flags) (JsonURLs config))
       (add (m3uURLFlag flags) (M3UURLs config))
       logFile
       (pick (fileTypeFlag flags) (FileType config))
       (pick (workingDirFlag flags) (WorkingDir config))
       (pick (logDirFlag flags) (LogDir config))
       (if negb (retainDownloadFlag flags =? 0) then retainDownloadFlag flags
        else RetainDownload config)
       (pick (downloadDirFlag flags) (DownloadDir config))
       (if negb (limitDeleteFlag flags =? 25) then limitDeleteFlag flags else LimitDelete config)
       (if negb (useGroupFlag flags =? 0) then useGroupFlag flags else UseGroup config)
       (if negb (Strings.eqs (defaultGroupFlag flags) (str "Dummy"))
        then defaultGroupFlag flags else DefaultGroup config)
       (pick (excludeGroupFlag flags) (ExcludeGroup config))
       (pick (includeGroupFlag flags) (IncludeGroup config))).

End Main.

Section Globals.

Variable unicodeToLower : gostring -> gostring.

(** The list of groups of a setting, as [main] computes [excludeGroups] and
    [includeGroups]. *)
Definition groupsOf (setting : gostring) : list gostring :=
  filterEmptyStrings
    (Strings.Split (ToLower unicodeToLower (Strings.TrimSpace setting)) ","%char).

(** The package-level variables that [main] sets from the configuration
    and that the engine reads, with [config.LimitDelete]. *)
Definition globalsOf (config : Main.Config) : Config :=
  mkConfig (Main.TvShowsDir config) (Main.MoviesDir config) (Main.UseGroup config)
    (Main.DefaultGroup config) (groupsOf (Main.ExcludeGroup config))
    (groupsOf (Main.IncludeGroup config)) (Main.LimitDelete config).

(** The package-level variable [fileTypes]. *)
Definition fileTypesOf (config : Main.Config) : list gostring :=
  Strings.Split (Main.FileType config) ","%char.

End Globals.

(** * Properties *)

(** ** Strings *)
Module StringFacts.
Import Strings.

Lemma HasPrefix_true (s p : gostring) :
  HasPrefix s p = true <-> exists t, s = p ++ t.
Proof.
  revert s; induction p as [|a p IH]; intros s; simpl.
  - split; [intros _; exists s; reflexivity | reflexivity].
  - destruct s as [|c s]; simpl.
    + split; [discriminate | intros [t Ht]; discriminate].
    + rewrite andb_true_iff, Ascii.eqb_eq, IH. split.
      * intros [-> [t ->]]. eauto.
      * intros [t Ht]. injection Ht as -> ->. eauto.
Qed.

Lemma HasSuffix_true (s p : gostring) :
  HasSuffix s p = true <-> exists t, s = t ++ p.
Proof.
  unfold HasSuffix. rewrite HasPrefix_true. split.
  - intros [t Ht]. exists (rev t).
    rewrite <- (rev_involutive s), Ht, rev_app_distr, rev_involutive. reflexivity.
  - intros [t ->]. exists (rev t). apply rev_app_distr.
Qed.

(** Replacing a text whose first byte does not occur changes nothing. *)
Lemma replaceFrom_absent (o : ascii) (old new s : gostring) :
  Forall (fun c => c <> o) s -> replaceFrom (o :: old) new 0 s = s.
Proof.
  induction 1 as [|c s Hc _ IH]; [reflexivity|].
  cbn [replaceFrom HasPrefix].
  destruct (Ascii.eqb_spec c o) as [->|_]; [contradiction|].
  cbn. now rewrite IH.
Qed.

(** Replacing a single byte by a single byte is a map. *)
Lemma ReplaceAll_byte (o n : ascii) (s : gostring) :
  ReplaceAll s [o] [n] = map (fun c => if Ascii.eqb c o then n else c) s.
Proof.
  unfold ReplaceAll. induction s as [|c s IH]; [reflexivity|].
  cbn [replaceFrom HasPrefix map length Nat.sub].
  rewrite andb_true_r. destruct (Ascii.eqb c o); cbn; now rewrite IH.
Qed.

(** With a single-byte replacement text, what [ReplaceAll] returns holds
    only bytes of the input and that byte. *)
Lemma replaceFrom_Forall (P : ascii -> Prop) (old new : gostring) (k : nat) (s : gostring) :
  Forall P new -> Forall P s -> Forall P (replaceFrom old new k s).
Proof.
  intros Hn Hs. revert k. induction Hs as [|c s Hc Hs IH]; intros k; [constructor|].
  cbn [replaceFrom]. destruct k as [|k]; [|apply IH].
  destruct (HasPrefix (c :: s) old).
  - apply Forall_app; split; [assumption | apply IH].
  - constructor; [assumption | apply IH].
Qed.

Lemma TrimRight_prefix (s cutset : gostring) :
  exists t, s = TrimRight s cutset ++ t.
Proof.
  induction s as [|c s [t IH]]; [exists []; reflexivity|].
  cbn [TrimRight]. destruct (TrimRight s cutset) as [|r rs] eqn:E.
  - destruct (byteIn c cutset).
    + eexists; reflexivity.
    + exists t. now rewrite IH at 1.
  - exists t. rewrite IH at 1. reflexivity.
Qed.

(** What [TrimRight] returns does not end with a byte of the cutset. *)
Lemma TrimRight_last (s cutset : gostring) (c : ascii) :
  last (TrimRight s cutset) = Some c -> byteIn c cutset = false.
Proof.
  induction s as [|a s IH]; [discriminate|].
  cbn [TrimRight]. destruct (TrimRight s cutset) as [|r rs] eqn:E.
  - destruct (byteIn a cutset) eqn:Ha; [discriminate|].
    cbn. now intros [= <-].
  - intros H. apply IH. exact H.
Qed.

Lemma TrimRight_fix (s cutset : gostring) :
  (forall c, last s = Some c -> byteIn c cutset = false) -> TrimRight s cutset = s.
Proof.
  induction s as [|a s IH]; [reflexivity|]. intros H.
  cbn [TrimRight]. destruct s as [|b s].
  - cbn. now rewrite (H a eq_refl).
  - rewrite IH; [reflexivity|]. intros c Hc. apply H. exact Hc.
Qed.

Lemma spaceEncodings_nonempty (e : gostring) : In e spaceEncodings -> e <> [].
Proof.
  assert (H : Forall (fun e : gostring => e <> []) spaceEncodings)
    by (vm_compute; repeat constructor; discriminate).
  rewrite Forall_forall in H. intros He. apply H. now apply list_elem_of_In.
Qed.

Lemma dropSpacePrefix_Some (s s' : gostring) :
  dropSpacePrefix s = Some s' -> exists e, e <> [] /\ s = e ++ s'.
Proof.
  unfold dropSpacePrefix. destruct (find (HasPrefix s) spaceEncodings) as [e|] eqn:E; [|discriminate].
  intros [= <-]. apply find_some in E as [Hin He].
  apply HasPrefix_true in He as [t ->]. exists e. split.
  - now apply spaceEncodings_nonempty.
  - now rewrite drop_app_length.
Qed.

Lemma dropSpaceSuffix_Some (s s' : gostring) :
  dropSpaceSuffix s = Some s' -> exists e, e <> [] /\ s = s' ++ e.
Proof.
  unfold dropSpaceSuffix. destruct (find (HasSuffix s) spaceEncodings) as [e|] eqn:E; [|discriminate].
  intros [= <-]. apply find_some in E as [Hin He].
  apply HasSuffix_true in He as [t ->]. exists e. split.
  - now apply spaceEncodings_nonempty.
  - rewrite length_app, Nat.add_sub, take_app_length. reflexivity.
Qed.

Lemma dropSpacePrefix_None (s : gostring) :
  dropSpacePrefix s = None <-> forall e, In e spaceEncodings -> HasPrefix s e = false.
Proof.
  unfold dropSpacePrefix. destruct (find (HasPrefix s) spaceEncodings) as [e|] eqn:E.
  - split; [discriminate|]. intros H. apply find_some in E as [Hin He].
    rewrite (H e Hin) in He. discriminate.
  - split; [|reflexivity]. intros _ e He. exact (find_none _ _ E e He).
Qed.

Lemma dropSpaceSuffix_None (s : gostring) :
  dropSpaceSuffix s = None <-> forall e, In e spaceEncodings -> HasSuffix s e = false.
Proof.
  unfold dropSpaceSuffix. destruct (find (HasSuffix s) spaceEncodings) as [e|] eqn:E.
  - split; [discriminate|]. intros H. apply find_some in E as [Hin He].
    rewrite (H e Hin) in He. discriminate.
  - split; [|reflexivity]. intros _ e He. exact (find_none _ _ E e He).
Qed.

(** A prefix of a string that starts with no space starts with no space. *)
Lemma dropSpacePrefix_None_prefix (p t : gostring) :
  dropSpacePrefix (p ++ t) = None -> dropSpacePrefix p = None.
Proof.
  rewrite !dropSpacePrefix_None. intros H e He.
  specialize (H e He). destruct (HasPrefix p e) eqn:E; [|reflexivity].
  apply HasPrefix_true in E as [u ->].
  rewrite <- H. symmetry. apply HasPrefix_true. exists (u ++ t). now rewrite app_assoc.
Qed.

Lemma trimLeftSpace_suffix (n : nat) (s : gostring) :
  exists p, s = p ++ trimLeftSpace n s.
Proof.
  revert s; induction n as [|n IH]; intros s; [exists []; reflexivity|].
  cbn [trimLeftSpace]. destruct (dropSpacePrefix s) as [s'|] eqn:E; [|exists []; reflexivity].
  apply dropSpacePrefix_Some in E as (e & _ & ->).
  destruct (IH s') as [p Hp]. exists (e ++ p). rewrite <- app_assoc. now rewrite <- Hp.
Qed.

Lemma trimRightSpace_prefix (n : nat) (s : gostring) :
  exists t, s = trimRightSpace n s ++ t.
Proof.
  revert s; induction n as [|n IH]; intros s; [exists []; now rewrite app_nil_r|].
  cbn [trimRightSpace]. destruct (dropSpaceSuffix s) as [s'|] eqn:E; [|exists []; now rewrite app_nil_r].
  apply dropSpaceSuffix_Some in E as (e & _ & ->).
  destruct (IH s') as [t Ht]. exists (t ++ e). rewrite app_assoc. now rewrite <- Ht.
Qed.

Lemma trimLeftSpace_done (n : nat) (s : gostring) :
  (length s <= n)%nat -> dropSpacePrefix (trimLeftSpace n s) = None.
Proof.
  revert s; induction n as [|n IH]; intros s Hn.
  - destruct s; [|simpl in Hn; lia]. simpl. apply dropSpacePrefix_None.
    intros e He. destruct e; [|reflexivity]. now apply spaceEncodings_nonempty in He.
  - cbn [trimLeftSpace]. destruct (dropSpacePrefix s) as [s'|] eqn:E; [|exact E].
    apply IH. apply dropSpacePrefix_Some in E as (e & He & ->).
    rewrite length_app in Hn. destruct e; [contradiction|]. simpl in Hn. lia.
Qed.

Lemma trimRightSpace_done (n : nat) (s : gostring) :
  (length s <= n)%nat -> dropSpaceSuffix (trimRightSpace n s) = None.
Proof.
  revert s; induction n as [|n IH]; intros s Hn.
  - destruct s; [|simpl in Hn; lia]. simpl. apply dropSpaceSuffix_None.
    intros e He. destruct e; [|].
    + now apply spaceEncodings_nonempty in He.
    + destruct (HasSuffix [] (a :: e)) eqn:E; [|reflexivity].
      apply HasSuffix_true in E as [t Ht]. destruct t; discriminate.
  - cbn [trimRightSpace]. destruct (dropSpaceSuffix s) as [s'|] eqn:E; [|exact E].
    apply IH. apply dropSpaceSuffix_Some in E as (e & He & ->).
    rewrite length_app in Hn. destruct e; [contradiction|]. simpl in Hn. lia.
Qed.

Lemma trimLeftSpace_fix (n : nat) (s : gostring) :
  dropSpacePrefix s = None -> trimLeftSpace n s = s.
Proof. intros H. destruct n; [reflexivity|]. cbn. now rewrite H. Qed.

Lemma trimRightSpace_fix (n : nat) (s : gostring) :
  dropSpaceSuffix s = None -> trimRightSpace n s = s.
Proof. intros H. destruct n; [reflexivity|]. cbn. now rewrite H. Qed.

Lemma TrimSpace_fix (s : gostring) :
  dropSpacePrefix s = None -> dropSpaceSuffix s = None -> TrimSpace s = s.
Proof.
  intros H1 H2. unfold TrimSpace. rewrite (trimLeftSpace_fix _ _ H1).
  now apply trimRightSpace_fix.
Qed.

(** What [TrimSpace] returns neither starts nor ends with a space. *)
Lemma TrimSpace_no_prefix (s : gostring) : dropSpacePrefix (TrimSpace s) = None.
Proof.
  unfold TrimSpace. set (l := trimLeftSpace (length s) s).
  destruct (trimRightSpace_prefix (length l) l) as [t Ht].
  apply dropSpacePrefix_None_prefix with (t := t). rewrite <- Ht.
  apply trimLeftSpace_done. lia.
Qed.

Lemma TrimSpace_no_suffix (s : gostring) : dropSpaceSuffix (TrimSpace s) = None.
Proof. unfold TrimSpace. apply trimRightSpace_done. lia. Qed.

Lemma TrimSpace_idem (s : gostring) : TrimSpace (TrimSpace s) = TrimSpace s.
Proof. apply TrimSpace_fix; [apply TrimSpace_no_prefix | apply TrimSpace_no_suffix]. Qed.

Lemma TrimSpace_infix (s : gostring) : exists p t, s = p ++ TrimSpace s ++ t.
Proof.
  unfold TrimSpace. set (l := trimLeftSpace (length s) s).
  destruct (trimLeftSpace_suffix (length s) s) as [p Hp].
  destruct (trimRightSpace_prefix (length l) l) as [t Ht].
  exists p, t. fold l in Hp. now rewrite <- Ht.
Qed.

Lemma TrimSpace_Forall (P : ascii -> Prop) (s : gostring) :
  Forall P s -> Forall P (TrimSpace s).
Proof.
  intros H. destruct (TrimSpace_infix s) as (p & t & E). rewrite E in H.
  apply Forall_app in H as [_ H]. now apply Forall_app in H as [H _].
Qed.

Lemma TrimRight_Forall (P : ascii -> Prop) (s cutset : gostring) :
  Forall P s -> Forall P (TrimRight s cutset).
Proof.
  intros H. destruct (TrimRight_prefix s cutset) as [t E]. rewrite E in H.
  now apply Forall_app in H as [H _].
Qed.

End StringFacts.

(** ** The name sanitizer *)
Module SanitizerFacts.
Import Strings StringFacts.

Lemma normalizeName_no_dot (x : gostring) :
  Forall (fun c => c <> "."%char) (normalizeName x).
Proof.
  unfold normalizeName. apply TrimSpace_Forall.
  change (str ".") with ["."%char]. change (str " ") with [" "%char].
  rewrite ReplaceAll_byte. apply Forall_map, Forall_forall. intros c _. cbn.
  destruct (Ascii.eqb_spec c "."); [discriminate | assumption].
Qed.

Lemma ReplaceAll_no_dot (s old new : gostring) :
  Forall (fun c => c <> "."%char) s -> ReplaceAll s ("."%char :: old) new = s.
Proof. apply replaceFrom_absent. Qed.

(** [normalizeName] changes nothing in a string without a period that
    neither starts nor ends with a space. *)
Lemma normalizeName_fix (s : gostring) :
  Forall (fun c => c <> "."%char) s ->
  dropSpacePrefix s = None -> dropSpaceSuffix s = None ->
  normalizeName s = s.
Proof.
  intros Hdot Hp Hs. unfold normalizeName.
  change (str "...") with ("."%char :: str "..").
  change (str "..") with ("."%char :: str ".").
  change (str ".") with ("."%char :: []).
  do 3 rewrite (ReplaceAll_no_dot s) by assumption. now apply TrimSpace_fix.
Qed.

Lemma normalizeName_idempotent (x : gostring) :
  normalizeName (normalizeName x) = normalizeName x.
Proof.
  apply normalizeName_fix.
  - apply normalizeName_no_dot.
  - apply TrimSpace_no_prefix.
  - apply TrimSpace_no_suffix.
Qed.

Lemma replaceInvalid_valid (x : gostring) :
  Forall (fun c => byteIn c invalidChars = false) (replaceInvalid x).
Proof.
  apply Forall_map, Forall_forall. intros c _. cbn beta.
  destruct (byteIn c invalidChars) eqn:E; [reflexivity | exact E].
Qed.

Lemma replaceInvalid_fix (s : gostring) :
  Forall (fun c => byteIn c invalidChars = false) s -> replaceInvalid s = s.
Proof.
  induction 1 as [|c s Hc _ IH]; [reflexivity|].
  unfold replaceInvalid in *. cbn [map]. rewrite Hc. f_equal. exact IH.
Qed.

(** No encoding of a space holds a period or an underscore. *)
Lemma spaceEncodings_bytes (e : gostring) :
  In e spaceEncodings -> Forall (fun c => c <> "."%char /\ c <> "_"%char) e.
Proof.
  assert (H : forallb (forallb (fun c => negb (Ascii.eqb c ".") && negb (Ascii.eqb c "_")))
                spaceEncodings = true) by (vm_compute; reflexivity).
  rewrite forallb_forall in H. intros He. specialize (H e He).
  rewrite forallb_forall in H. apply Forall_forall. intros c Hc.
  apply list_elem_of_In in Hc. specialize (H c Hc).
  apply andb_true_iff in H as [H1 H2].
  split; intros ->; discriminate.
Qed.

(** Collapsing double periods does not change whether a string starts with
    a text that holds no period. *)
Lemma HasPrefix_collapse (s e : gostring) :
  Forall (fun c => c <> "."%char) e ->
  HasPrefix (ReplaceAll s (str "..") (str ".")) e = HasPrefix s e.
Proof.
  unfold ReplaceAll. revert e. induction s as [|c s IH]; intros e He; [reflexivity|].
  cbn [replaceFrom]. destruct (HasPrefix (c :: s) (str "..")) eqn:E.
  - destruct e as [|p e]; [reflexivity|].
    apply HasPrefix_true in E as [t Ht]. injection Ht as -> _.
    inversion_clear He as [|? ? Hp _].
    change (str ".") with ["."%char]. cbn [app HasPrefix].
    destruct (Ascii.eqb_spec "."%char p) as [<-|_]; [contradiction | reflexivity].
  - destruct e as [|p e]; [reflexivity|]. cbn [HasPrefix].
    inversion_clear He as [|? ? _ He']. now rewrite IH.
Qed.

Lemma HasPrefix_underscore (s e : gostring) :
  Forall (fun c => c <> "."%char /\ c <> "_"%char) e ->
  HasPrefix (map (fun c => if Ascii.eqb c "." then "_"%char else c) s) e = HasPrefix s e.
Proof.
  revert e. induction s as [|c s IH]; intros e He; [reflexivity|].
  destruct e as [|p e]; [reflexivity|]. cbn [map HasPrefix].
  inversion_clear He as [|? ? [Hp1 Hp2] He']. rewrite IH by assumption. f_equal.
  destruct (Ascii.eqb_spec c "."%char) as [->|_]; [|reflexivity].
  destruct (Ascii.eqb_spec "_"%char p) as [<-|_]; [contradiction|].
  destruct (Ascii.eqb_spec "."%char p) as [<-|_]; [contradiction | reflexivity].
Qed.

(** What [sanitizeFileName] returns holds plain bytes only and does not
    start with a space. *)
Lemma sanitizeFileName_plain (x : gostring) :
  Forall plainByte (sanitizeFileName x).
Proof.
  unfold sanitizeFileName. apply TrimRight_Forall.
  change (str ".") with ["."%char]. change (str "_") with ["_"%char].
  rewrite ReplaceAll_byte.
  assert (H : Forall (fun c => byteIn c invalidChars = false)
                (ReplaceAll (TrimRight (TrimSpace (replaceInvalid x)) (str "_.:"))
                   (str "..") ["."%char])).
  { apply replaceFrom_Forall; [repeat constructor|].
    apply TrimRight_Forall, TrimSpace_Forall, replaceInvalid_valid. }
  apply Forall_map. eapply Forall_impl; [exact H|]. intros c Hc. unfold plainByte. cbn.
  destruct (Ascii.eqb_spec c "."%char) as [->|Hne]; [split; [reflexivity | discriminate]|].
  split; assumption.
Qed.

Lemma sanitizeFileName_no_prefix (x : gostring) :
  dropSpacePrefix (sanitizeFileName x) = None.
Proof.
  unfold sanitizeFileName.
  set (s2 := TrimRight (TrimSpace (replaceInvalid x)) (str "_.:")).
  assert (H2 : dropSpacePrefix s2 = None).
  { destruct (TrimRight_prefix (TrimSpace (replaceInvalid x)) (str "_.:")) as [t Ht].
    apply dropSpacePrefix_None_prefix with (t := t). fold s2 in Ht. rewrite <- Ht.
    apply TrimSpace_no_prefix. }
  set (s4 := ReplaceAll (ReplaceAll s2 (str "..") (str ".")) (str ".") (str "_")).
  assert (H4 : dropSpacePrefix s4 = None).
  { apply dropSpacePrefix_None. intros e He. unfold s4.
    change (str ".") with ["."%char] at 2. change (str "_") with ["_"%char].
    rewrite ReplaceAll_byte, HasPrefix_underscore by now apply spaceEncodings_bytes.
    rewrite HasPrefix_collapse.
    - now apply dropSpacePrefix_None.
    - eapply Forall_impl; [now apply spaceEncodings_bytes | intros c [Hc _]; exact Hc]. }
  destruct (TrimRight_prefix s4 (str " ")) as [t Ht].
  apply dropSpacePrefix_None_prefix with (t := t). now rewrite <- Ht.
Qed.

(** A string that ends with the space byte ends with a space. *)
Lemma last_space (s : gostring) :
  dropSpaceSuffix s = None -> last s <> Some " "%char.
Proof.
  intros H Hl. apply last_Some in Hl as [r ->].
  rewrite dropSpaceSuffix_None in H.
  assert (Hin : In [" "%char] spaceEncodings) by (vm_compute; tauto).
  specialize (H _ Hin).
  assert (HasSuffix (r ++ [" "%char]) [" "%char] = true) by (apply HasSuffix_true; eauto).
  congruence.
Qed.

(** [sanitizeFileName] changes nothing in a string of plain bytes that
    neither starts nor ends with a space and does not end with an
    underscore. *)
Lemma sanitizeFileName_fix (s : gostring) :
  Forall plainByte s ->
  dropSpacePrefix s = None -> dropSpaceSuffix s = None ->
  last s <> Some "_"%char ->
  sanitizeFileName s = s.
Proof.
  intros Hplain Hp Hs Hu. unfold sanitizeFileName.
  assert (Hdot : Forall (fun c => c <> "."%char) s)
    by (eapply Forall_impl; [exact Hplain|]; intros c [_ Hc]; exact Hc).
  rewrite replaceInvalid_fix
    by (eapply Forall_impl; [exact Hplain|]; intros c [Hc _]; exact Hc).
  rewrite TrimSpace_fix by assumption.
  assert (Hlast : forall c, last s = Some c -> plainByte c).
  { intros c Hc. apply last_Some in Hc as [r ->].
    apply Forall_app in Hplain as [_ Hplain]. now inversion_clear Hplain. }
  rewrite (TrimRight_fix s (str "_.:")).
  2:{ intros c Hc. destruct (Hlast c Hc) as [Hv Hd]. cbn.
      destruct (Ascii.eqb_spec c "_"%char) as [->|_]; [contradiction|].
      destruct (Ascii.eqb_spec c "."%char) as [->|_]; [contradiction|].
      destruct (Ascii.eqb_spec c ":"%char) as [->|_]; [discriminate | reflexivity]. }
  change (str "..") with ("."%char :: str ".").
  change (str ".") with ("."%char :: []).
  do 2 rewrite (ReplaceAll_no_dot s) by assumption.
  apply TrimRight_fix. intros c Hc. cbn.
  destruct (Ascii.eqb_spec c " "%char) as [->|_]; [|reflexivity].
  now apply last_space in Hs.
Qed.

Lemma endsInUnderscoreOrSpace_false (s : gostring) :
  endsInUnderscoreOrSpace s = false ->
  dropSpaceSuffix s = None /\ last s <> Some "_"%char.
Proof.
  unfold endsInUnderscoreOrSpace. destruct (last s) as [c|] eqn:E.
  - intros H. apply orb_false_iff in H as [H1 H2]. split.
    + apply bool_decide_eq_false in H2. destruct (dropSpaceSuffix s); [|reflexivity].
      exfalso. apply H2. eauto.
    + intros [= ->]. discriminate.
  - intros _. apply last_None in E as ->. split; [|discriminate].
    apply dropSpaceSuffix_None. intros e He.
    destruct (HasSuffix [] e) eqn:E; [|reflexivity].
    apply HasSuffix_true in E as [t Ht]. apply spaceEncodings_nonempty in He.
    destruct t, e; try discriminate; contradiction.
Qed.

(** What [sanitizeFileName] returns never ends with a period, a colon or
    the space byte. *)
Lemma sanitizeFileName_last (x : gostring) (c : ascii) :
  last (sanitizeFileName x) = Some c ->
  c <> "."%char /\ c <> ":"%char /\ c <> " "%char.
Proof.
  intros Hl. pose proof (sanitizeFileName_plain x) as Hp.
  assert (Hc : plainByte c).
  { apply last_Some in Hl as [r Hr]. rewrite Hr in Hp.
    apply Forall_app in Hp as [_ Hp]. now inversion_clear Hp. }
  destruct Hc as [Hv Hd]. repeat split; [exact Hd | intros ->; discriminate Hv |].
  intros ->. unfold sanitizeFileName in Hl. apply TrimRight_last in Hl. discriminate Hl.
Qed.

End SanitizerFacts.




(** ** The regular expression *)
Module RegexpFacts.

Lemma matchEpisode_shape (s m : gostring) :
  matchEpisode s = Some m -> exists d r, m = "E"%char :: d :: r /\ isDigit d = true.
Proof.
  destruct s as [|e [|d s]]; try discriminate. cbn [matchEpisode].
  destruct (Ascii.eqb_spec e "E"%char) as [->|]; [|discriminate].
  destruct (isDigit d) eqn:Hd; [|discriminate].
  intros [= <-]. eauto.
Qed.

(** A match is [S], a digit, then a digit or [E], and at least one byte more. *)
Lemma matchHere_shape (s m : gostring) :
  matchHere s = Some m ->
  exists d c r, m = "S"%char :: d :: c :: r /\ r <> [] /\ isDigit d = true /\
                (isDigit c = true \/ c = "E"%char).
Proof.
  destruct s as [|c [|d1 s1]]; try discriminate. cbn [matchHere].
  destruct (Ascii.eqb_spec c "S"%char) as [->|]; [|discriminate].
  destruct (isDigit d1) eqn:Hd1; [|discriminate]. cbn [andb].
  destruct s1 as [|d2 s2].
  - destruct (matchEpisode []) eqn:E; discriminate.
  - destruct (isDigit d2) eqn:Hd2.
    + destruct (matchEpisode s2) as [m2|] eqn:E2.
      * intros [= <-]. apply matchEpisode_shape in E2 as (d & r & -> & _).
        exists d1, d2, ("E"%char :: d :: r). repeat split; auto; discriminate.
      * destruct (matchEpisode (d2 :: s2)) as [m1|] eqn:E1; [|discriminate].
        intros [= <-]. apply matchEpisode_shape in E1 as (d & r & -> & _).
        exists d1, "E"%char, (d :: r). repeat split; auto; discriminate.
    + destruct (matchEpisode (d2 :: s2)) as [m1|] eqn:E1; [|discriminate].
      intros [= <-]. apply matchEpisode_shape in E1 as (d & r & -> & _).
      exists d1, "E"%char, (d :: r). repeat split; auto; discriminate.
Qed.

Lemma FindString_matchHere (s : gostring) :
  MatchString s = true -> exists t, matchHere t = Some (FindString s).
Proof.
  induction s as [|c s IH]; cbn [MatchString FindString].
  - destruct (matchHere []) eqn:E; [eauto | discriminate].
  - destruct (matchHere (c :: s)) eqn:E; [eauto | exact IH].
Qed.

Lemma MatchString_false (s : gostring) : MatchString s = false -> FindString s = [].
Proof.
  induction s as [|c s IH]; cbn [MatchString FindString].
  - destruct (matchHere []); [discriminate | reflexivity].
  - destruct (matchHere (c :: s)); [discriminate | exact IH].
Qed.

(** The season of a record that matches: [S], a digit, then a second digit
    or, for a season of one digit, the [E] of the marker. *)
Lemma seasonOf_shape (name : gostring) :
  MatchString name = true ->
  exists d c, seasonOf (FindString name) = ["S"%char; d; c] /\ isDigit d = true /\
              (isDigit c = true \/ c = "E"%char).
Proof.
  intros H. apply FindString_matchHere in H as [t Ht].
  apply matchHere_shape in Ht as (d & c & r & -> & _ & Hd & Hc).
  exists d, c. auto.
Qed.

(** A match is not empty: [processTVShow]'s test [parts == ""] fails on a
    record that [processStreams] sends to it. *)
Lemma FindString_nonempty (name : gostring) :
  MatchString name = true -> FindString name <> [].
Proof.
  intros H. apply FindString_matchHere in H as [t Ht].
  apply matchHere_shape in Ht as (d & c & r & -> & _). discriminate.
Qed.

End RegexpFacts.

(** C7: the record named [Show.S1E02] is a television episode whose season
    is [S1E], and its directory is [tvshows/Show/S1E]. *)
Lemma season_of_single_digit_marker :
  MatchString (str "Show.S1E02") = true /\
  FindString (str "Show.S1E02") = str "S1E02" /\
  seasonOf (FindString (str "Show.S1E02")) = str "S1E" /\
  targetDir noUnicodeToLower
    (mkConfig (str "tvshows") (str "movies") 0 (str "Dummy") [] [] 25)
    (mkStream (str "http://x/a.mkv") (str "Show.S1E02") (str ""))
  = str "tvshows/Show/S1E".
Proof. vm_compute. repeat split. Qed.

(** C10: the display name [Why? !] is sanitized to [Why_], which ends with
    an underscore. *)
Lemma sanitized_name_ends_in_underscore :
  sanitizeFileName (normalizeName (str "Why? !")) = str "Why_" /\
  last (sanitizeFileName (normalizeName (str "Why? !"))) = Some "_"%char /\
  sanitizeFileName (str "a_ .") = str "a_".
Proof. vm_compute. repeat split. Qed.

(** ** The path builder *)

(** C5, as amended.  Two records that agree on kind, name, season and group
    label, under configurations that agree on the grouping flag and on the
    root of that kind, get the same directory; they get the same stream file
    when they are movies or when their sanitized display names agree. *)
Theorem same_class_same_directory
    (lower : gostring -> gostring) (cfg1 cfg2 : Config) (s1 s2 : Stream) :
  classify lower cfg1 s1 = classify lower cfg2 s2 ->
  (useGroup cfg1 =? 1) = (useGroup cfg2 =? 1) ->
  rootOf cfg1 (kind (classify lower cfg1 s1)) = rootOf cfg2 (kind (classify lower cfg2 s2)) ->
  targetDir lower cfg1 s1 = targetDir lower cfg2 s2 /\
  (kind (classify lower cfg1 s1) = Movie \/
   sanitizeFileName (normalizeName (TvgName s1)) = sanitizeFileName (normalizeName (TvgName s2)) ->
   targetFile lower cfg1 s1 = targetFile lower cfg2 s2).
Proof.
  unfold classify, targetFile, targetDir, strmFilePathOf, showDirOf, movieDirOf.
  destruct (MatchString (TvgName s1)), (MatchString (TvgName s2));
    cbn [kind rootOf]; intros Hc Hg Hr; try discriminate Hc.
  - injection Hc as Hn Hs Hl. rewrite Hg, Hn, Hs, Hl, Hr.
    split; [reflexivity|]. intros [H|H]; [discriminate | now rewrite H].
  - injection Hc as Hn Hl. rewrite Hg, Hn, Hl, Hr.
    split; [reflexivity|]. intros _. reflexivity.
Qed.

(** C5, witness: the same episode offered at two addresses. *)
Lemma same_class_same_directory_witness :
  let cfg := mkConfig (str "/media/tv") (str "/media/movies") 1 (str "Dummy") [] [] 25 in
  let s1 := mkStream (str "http://x/a.mkv") (str "Show.S01E01") (str "Kids") in
  let s2 := mkStream (str "http://y/a.mkv") (str "Show.S01E01") (str " kids ") in
  targetDir noUnicodeToLower cfg s1 = targetDir noUnicodeToLower cfg s2 /\
  targetFile noUnicodeToLower cfg s1 = targetFile noUnicodeToLower cfg s2.
Proof.
  intros cfg s1 s2.
  destruct (same_class_same_directory noUnicodeToLower cfg cfg s1 s2) as [Hd Hf];
    [vm_compute; reflexivity .. |].
  split; [exact Hd | apply Hf; right; vm_compute; reflexivity].
Defined.

(** C5, counterexample: two episodes of one season agree on kind, name,
    season and group label and have different stream files. *)
Lemma same_class_different_file :
  let cfg := mkConfig (str "tvshows") (str "movies") 0 (str "Dummy") [] [] 25 in
  let s1 := mkStream (str "http://x/a.mkv") (str "Show.S01E01") (str "") in
  let s2 := mkStream (str "http://x/b.mkv") (str "Show.S01E02") (str "") in
  classify noUnicodeToLower cfg s1 = classify noUnicodeToLower cfg s2 /\
  classify noUnicodeToLower cfg s1 = mkTarget TVEpisode (str "Show") (str "S01") (str "Dummy") /\
  targetFile noUnicodeToLower cfg s1 = str "tvshows/Show/S01/Show S01E01.strm" /\
  targetFile noUnicodeToLower cfg s2 = str "tvshows/Show/S01/Show S01E02.strm".
Proof. vm_compute. repeat split. Qed.

(** ** Runs on concrete trees *)

(** C1, as amended.  After one run on the scenario the episode is at
    [tvshows/Show/S01/Show S01E01.strm] and the movie at
    [movies/Old Movie/Old Movie.strm] (periods of a display name become
    spaces, which the sanitizer keeps), each holding its URL, and
    [movies/Stale_Movie] is gone: one stream file and one directory removed. *)
Theorem end_to_end_scenario
    (lower : gostring -> gostring) (fold : gostring -> gostring -> bool) :
  let st := run lower fold (scenarioConfig 25) scenarioCatalog scenarioTree in
  OS.Stat (fs st) (str "tvshows/Show/S01/Show S01E01.strm") = OS.Found (OS.File (str "http://x/a.mkv")) /\
  OS.Stat (fs st) (str "movies/Old Movie/Old Movie.strm") = OS.Found (OS.File (str "http://x/b.avi")) /\
  OS.Stat (fs st) (str "movies/Stale_Movie") = OS.ENOENT /\
  stats st = mkStats 2 2 1 1.
Proof.
  cbv zeta.
  assert (E : fs (run lower fold (scenarioConfig 25) scenarioCatalog scenarioTree)
              = OS.Dir [(str "movies", OS.Dir [(str "Old Movie",
                           OS.Dir [(str "Old Movie.strm", OS.File (str "http://x/b.avi"))])]);
                        (str "tvshows", OS.Dir [(str "Show", OS.Dir [(str "S01",
                           OS.Dir [(str "Show S01E01.strm", OS.File (str "http://x/a.mkv"))])])])])
    by (vm_compute; reflexivity).
  rewrite E. repeat split; vm_compute; reflexivity.
Qed.

(** C1, counterexample: after the run nothing exists at the paths with
    underscores. *)
Lemma end_to_end_no_underscore_paths :
  let st := run noUnicodeToLower noUnicodeEqualFold (scenarioConfig 25) scenarioCatalog scenarioTree in
  OS.Stat (fs st) (str "tvshows/Show/S01/Show_S01E01.strm") = OS.ENOENT /\
  OS.Stat (fs st) (str "movies/Old_Movie/Old_Movie.strm") = OS.ENOENT /\
  elements (keepFiles st)
  = [str "movies/Old Movie/Old Movie.strm"; str "tvshows/Show/S01/Show S01E01.strm"].
Proof. vm_compute. repeat split. Qed.

(** C3: with limit 1 and one stale stream file under each root, one run
    removes both. *)
Lemma limit_is_per_root :
  let st := run noUnicodeToLower noUnicodeEqualFold (scenarioConfig 1) scenarioCatalog twoRootsTree in
  removedStrmFiles (stats st) = 2 /\
  OS.Stat (fs st) (str "movies/Gone/Gone.strm") = OS.ENOENT /\
  OS.Stat (fs st) (str "tvshows/Over/S01/Over S01E01.strm") = OS.ENOENT.
Proof. vm_compute. repeat split. Qed.


(** ** The file system *)
Module OSFacts.
Import OS.

(** Induction on a tree: a directory inherits the property of its entries. *)
Lemma node_ind (P : node -> Prop) :
  (forall c, P (File c)) ->
  (forall es, Forall (fun e => P e.2) es -> P (Dir es)) ->
  forall n, P n.
Proof.
  intros Hf Hd. fix IH 1. intros [c|es]; [apply Hf|]. apply Hd.
  induction es as [|[k n] es IHes]; constructor; [apply IH | exact IHes].
Qed.

Lemma eqs_true (a b : gostring) : Strings.eqs a b = true <-> a = b.
Proof. unfold Strings.eqs. apply bool_decide_eq_true. Qed.

Lemma eqs_false (a b : gostring) : Strings.eqs a b = false <-> a <> b.
Proof. unfold Strings.eqs. apply bool_decide_eq_false. Qed.

Lemma eqs_refl (a : gostring) : Strings.eqs a a = true.
Proof. now apply eqs_true. Qed.

Lemma lookupEntry_In (e : gostring) (es : list (gostring * node)) (c : node) :
  lookupEntry e es = Some c -> In (e, c) es.
Proof.
  induction es as [|[k n] es IH]; [discriminate|]. cbn [lookupEntry].
  destruct (Strings.eqs k e) eqn:E.
  - apply eqs_true in E as ->. intros [= ->]. now left.
  - intros H. right. now apply IH.
Qed.

Lemma lookupEntry_putEntry_eq (e : gostring) (n : node) (es : list (gostring * node)) :
  lookupEntry e (putEntry e n es) = Some n.
Proof.
  induction es as [|[k m] es IH]; cbn [putEntry lookupEntry].
  - now rewrite eqs_refl.
  - destruct (Strings.eqs k e) eqn:E; cbn [lookupEntry].
    + now rewrite eqs_refl.
    + destruct (lessString e k); cbn [lookupEntry].
      * now rewrite eqs_refl.
      * now rewrite E.
Qed.

Lemma lookupEntry_putEntry_ne (e e' : gostring) (n : node) (es : list (gostring * node)) :
  e <> e' -> lookupEntry e' (putEntry e n es) = lookupEntry e' es.
Proof.
  intros Hne. induction es as [|[k m] es IH]; cbn [putEntry lookupEntry].
  - now rewrite (proj2 (eqs_false e e') Hne).
  - destruct (Strings.eqs k e) eqn:E; cbn [lookupEntry].
    + apply eqs_true in E as ->. now rewrite (proj2 (eqs_false e e') Hne).
    + destruct (lessString e k); cbn [lookupEntry].
      * now rewrite (proj2 (eqs_false e e') Hne).
      * now rewrite IH.
Qed.

(** After a node is put at a place that exists, it is found there. *)
Lemma lookup_replaceAt (n : node) (elems : list gostring) (d d' : node) :
  lookup n elems = Found d -> lookup (replaceAt n elems (Some d')) elems = Found d'.
Proof.
  revert n. induction elems as [|e elems IH]; intros n; [reflexivity|].
  cbn [lookup]. destruct n as [c|es]; [discriminate|].
  destruct (lookupEntry e es) as [c|] eqn:E; [|discriminate]. intros H.
  destruct elems as [|e' elems].
  - cbn [replaceAt lookup]. now rewrite lookupEntry_putEntry_eq.
  - cbn [replaceAt]. rewrite E. cbn [lookup]. rewrite lookupEntry_putEntry_eq.
    now apply IH.
Qed.

End OSFacts.

(** ** The pruning walk *)
Section WalkFacts.

Variable lower : gostring -> gostring.
Variable ciKeepFiles : gset gostring.
Variable rootDir : gostring.
Variable limit : Z.

Local Abbreviation prune := (pruneFiles lower ciKeepFiles limit).
Local Abbreviation walk := (walkDir lower ciKeepFiles rootDir limit).
Local Abbreviation stale' := (stale lower ciKeepFiles).
Local Abbreviation keptEntry' := (keptEntry lower ciKeepFiles).
Local Abbreviation allKept' := (allKept lower ciKeepFiles).
Local Abbreviation entryKept' := (entryKept lower ciKeepFiles).

Lemma walkDir_Dir (path : gostring) (files : list (gostring * OS.node)) (w : Walk) :
  walk path (OS.Dir files) w =
  let '(kept, w, skip) := prune path files w in
  if skip then (Some (OS.Dir (remaining files kept)), w)
  else if Nat.eqb (length (remaining files kept)) 0 && negb (Strings.eqs path rootDir)
  then (None, mkWalk (deletions w) (incRemovedEmptyDirs (wstats w)))
  else
    let '(entries, w) := walkEntries walk path files kept w in
    (Some (OS.Dir entries), w).
Proof. reflexivity. Qed.

(** The loop of the callback removes stale' stream files only. *)
Lemma pruneFiles_removes_stale (path : gostring) (files : list (gostring * OS.node)) (w : Walk) :
  Forall2 (fun f k => k = false -> stale' path f) files (prune path files w).1.1.
Proof.
  revert w. induction files as [|[name file] files IH]; intros w; [constructor|].
  cbn [pruneFiles]. destruct (limit <=? deletions w).
  - cbn [fst map]. constructor; [discriminate|].
    clear. induction files; constructor; [discriminate | assumption].
  - fold (isStrmFile name file). destruct (isStrmFile name file) eqn:Hs.
    + destruct (bool_decide (ToLower lower (Filepath.Join [path; name]) ∈ ciKeepFiles)) eqn:Hk;
        cbn [negb].
      * specialize (IH w). destruct (prune path files w) as [[kept w'] skip].
        constructor; [discriminate | exact IH].
      * specialize (IH (mkWalk (deletions w + 1) (incRemovedStrmFiles (wstats w)))).
        destruct (prune path files _) as [[kept w'] skip].
        constructor; [|exact IH]. intros _. split; [exact Hs|].
        now apply bool_decide_eq_false in Hk.
    + specialize (IH w). destruct (prune path files w) as [[kept w'] skip].
      constructor; [discriminate | exact IH].
Qed.

(** An entry that is not stale' is still there after the loop. *)
Lemma lookupEntry_remaining (path e : gostring) (c : OS.node)
    (files : list (gostring * OS.node)) (kept : list bool) :
  Forall2 (fun f k => k = false -> stale' path f) files kept ->
  OS.lookupEntry e files = Some c -> ~ stale' path (e, c) ->
  OS.lookupEntry e (remaining files kept) = Some c.
Proof.
  intros HF. induction HF as [|[k n] b files kept Hb _ IH]; [discriminate|].
  cbn [OS.lookupEntry]. destruct (Strings.eqs k e) eqn:E.
  - apply OSFacts.eqs_true in E as ->. intros [= ->] Hns.
    destruct b; [|now exfalso; apply Hns, Hb].
    cbn [remaining OS.lookupEntry]. now rewrite OSFacts.eqs_refl.
  - intros Hl Hns. destruct b; cbn [remaining OS.lookupEntry]; [rewrite E|]; now apply IH.
Qed.

(** An entry that is not stale', and that the walk does not remove, is there
    after the entries have been walked. *)
Lemma walkEntries_lookup (visit : gostring -> OS.node -> Walk -> option OS.node * Walk)
    (Q : OS.node -> Prop) (path e : gostring) (c : OS.node)
    (files : list (gostring * OS.node)) (kept : list bool) (w : Walk) :
  Forall2 (fun f k => k = false -> stale' path f) files kept ->
  OS.lookupEntry e files = Some c -> ~ stale' path (e, c) ->
  (forall w, exists c', (visit (Filepath.Join [path; e]) c w).1 = Some c' /\ Q c') ->
  exists c', OS.lookupEntry e (walkEntries visit path files kept w).1 = Some c' /\ Q c'.
Proof.
  intros HF Hl Hns Hw. revert w Hl.
  induction HF as [|[k n] b files kept Hb _ IH]; intros w; [discriminate|].
  cbn [OS.lookupEntry]. destruct (Strings.eqs k e) eqn:E.
  - apply OSFacts.eqs_true in E as ->. intros [= ->].
    destruct b; [|now exfalso; apply Hns, Hb].
    cbn [walkEntries]. destruct (Hw w) as (c' & Hc' & HQ).
    destruct (visit (Filepath.Join [path; e]) c w) as [r w1]. cbn [fst] in Hc'. subst r.
    destruct (walkEntries visit path files kept w1) as [rest w2].
    exists c'. cbn [fst OS.lookupEntry]. now rewrite OSFacts.eqs_refl.
  - intros Hl. destruct b; cbn [walkEntries].
    + destruct (visit (Filepath.Join [path; k]) n w) as [r w1].
      specialize (IH w1 Hl). destruct (walkEntries visit path files kept w1) as [rest w2].
      destruct r as [n'|]; cbn [fst OS.lookupEntry] in *; [rewrite E|]; exact IH.
    + now apply IH.
Qed.

(** The walk leaves in place every file whose path, lower-cased, is in the
    set, under the name and with the content it had. *)
Lemma walkDir_keeps (d : OS.node) :
  forall (path : gostring) (w : Walk) (names : list gostring) (content : gostring),
  names <> [] ->
  OS.lookup d names = OS.Found (OS.File content) ->
  ToLower lower (walkPath path names) ∈ ciKeepFiles ->
  exists d', (walk path d w).1 = Some d' /\ OS.lookup d' names = OS.Found (OS.File content).
Proof.
  induction d as [c|files IH] using OSFacts.node_ind; intros path w names content Hne Hl Hk.
  - destruct names; [contradiction | discriminate].
  - destruct names as [|e names]; [contradiction|]. clear Hne.
    cbn [OS.lookup] in Hl. destruct (OS.lookupEntry e files) as [c|] eqn:He; [|discriminate].
    assert (Hns : ~ stale' path (e, c)).
    { intros [Hs Hnk]. cbn [fst snd] in *. destruct names as [|e' names].
      - apply Hnk. exact Hk.
      - destruct c; [discriminate Hl | discriminate Hs]. }
    pose proof (pruneFiles_removes_stale path files w) as HF.
    rewrite walkDir_Dir. destruct (prune path files w) as [[kept w1] skip].
    cbn [fst] in HF. pose proof (lookupEntry_remaining _ _ _ _ _ HF He Hns) as Hrem.
    destruct skip.
    { eexists. split; [reflexivity|]. cbn [OS.lookup]. now rewrite Hrem. }
    destruct (remaining files kept) as [|f fs'] eqn:Er; [discriminate Hrem|].
    cbn [length Nat.eqb andb]. rewrite <- Er in *. clear Er f fs'.
    assert (Hw : forall w, exists c', (walk (Filepath.Join [path; e]) c w).1 = Some c' /\
                                      OS.lookup c' names = OS.Found (OS.File content)).
    { intros w'. destruct names as [|e' names].
      - cbn [OS.lookup] in Hl. injection Hl as ->. eexists. split; reflexivity.
      - rewrite Forall_forall in IH.
        apply (IH (e, c)); [now apply list_elem_of_In, OSFacts.lookupEntry_In | discriminate | exact Hl | exact Hk]. }
    destruct (walkEntries_lookup walk _ path e c files kept w1 HF He Hns Hw) as (c' & Hc' & Hl').
    destruct (walkEntries walk path files kept w1) as [entries w2].
    eexists. split; [reflexivity|]. cbn [OS.lookup]. cbn [fst] in Hc'. now rewrite Hc'.
Qed.

Lemma countsFiles_refl (w : Walk) : countsFiles w w.
Proof. unfold countsFiles. lia. Qed.

Lemma countsFiles_trans (w1 w2 w3 : Walk) :
  countsFiles w1 w2 -> countsFiles w2 w3 -> countsFiles w1 w3.
Proof. unfold countsFiles. lia. Qed.

Lemma pruneFiles_counts (path : gostring) (files : list (gostring * OS.node)) (w : Walk) :
  countsFiles w (prune path files w).1.2.
Proof.
  revert w. induction files as [|[name file] files IH]; intros w; [apply countsFiles_refl|].
  cbn [pruneFiles]. destruct (limit <=? deletions w); [apply countsFiles_refl|].
  destruct (negb (OS.isDir file) && Strings.eqs (Filepath.Ext name) (str ".strm")).
  - destruct (negb (bool_decide (ToLower lower (Filepath.Join [path; name]) ∈ ciKeepFiles))).
    + specialize (IH (mkWalk (deletions w + 1) (incRemovedStrmFiles (wstats w)))).
      destruct (prune path files _) as [[kept w'] skip]. cbn [fst snd] in *.
      eapply countsFiles_trans; [|exact IH]. unfold countsFiles. cbn. lia.
    + specialize (IH w). now destruct (prune path files w) as [[kept w'] skip].
  - specialize (IH w). now destruct (prune path files w) as [[kept w'] skip].
Qed.

Lemma walkEntries_counts (visit : gostring -> OS.node -> Walk -> option OS.node * Walk)
    (path : gostring) (files : list (gostring * OS.node)) :
  Forall (fun f => forall p w, countsFiles w (visit p f.2 w).2) files ->
  forall kept w, countsFiles w (walkEntries visit path files kept w).2.
Proof.
  induction 1 as [|[name d1] files Hd _ IH]; intros kept w.
  - destruct kept as [|[]]; apply countsFiles_refl.
  - destruct kept as [|[] kept]; cbn [walkEntries]; [apply countsFiles_refl| |apply IH].
    specialize (Hd (Filepath.Join [path; name]) w). cbn [snd] in Hd.
    destruct (visit (Filepath.Join [path; name]) d1 w) as [r w1].
    specialize (IH kept w1). destruct (walkEntries visit path files kept w1) as [rest w2].
    cbn [snd] in *. eapply countsFiles_trans; eassumption.
Qed.

(** Over a walk the local counter counts the stream files removed, and
    nothing else. *)
Lemma walkDir_counts (d : OS.node) (path : gostring) (w : Walk) :
  countsFiles w (walk path d w).2.
Proof.
  revert path w. induction d as [c|files IH] using OSFacts.node_ind; intros path w.
  - apply countsFiles_refl.
  - rewrite walkDir_Dir. pose proof (pruneFiles_counts path files w) as H1.
    destruct (prune path files w) as [[kept w1] skip]. cbn [fst snd] in H1.
    destruct skip; [exact H1|].
    destruct (Nat.eqb (length (remaining files kept)) 0 && negb (Strings.eqs path rootDir)).
    + cbn [snd]. eapply countsFiles_trans; [exact H1|]. unfold countsFiles. cbn. lia.
    + assert (H2 := walkEntries_counts walk path files).
      specialize (H2 ltac:(eapply Forall_impl; [exact IH|]; cbn beta; intros f Hf p w'; apply Hf) kept w1).
      destruct (walkEntries walk path files kept w1) as [entries w2]. cbn [snd] in *.
      eapply countsFiles_trans; eassumption.
Qed.

(** A walk whose counter starts at or under the limit ends at or under
    it: one call of [removeEmptyDirs] removes at most [limit] stream files. *)
Lemma pruneFiles_bound (path : gostring) (files : list (gostring * OS.node)) (w : Walk) :
  deletions w <= limit -> deletions (prune path files w).1.2 <= limit.
Proof.
  revert w. induction files as [|[name file] files IH]; intros w Hw; [exact Hw|].
  cbn [pruneFiles]. destruct (limit <=? deletions w) eqn:E; [exact Hw|].
  apply Z.leb_gt in E.
  destruct (negb (OS.isDir file) && Strings.eqs (Filepath.Ext name) (str ".strm")).
  - destruct (negb (bool_decide (ToLower lower (Filepath.Join [path; name]) ∈ ciKeepFiles))).
    + specialize (IH (mkWalk (deletions w + 1) (incRemovedStrmFiles (wstats w)))).
      destruct (prune path files _) as [[kept w'] skip]. apply IH. cbn. lia.
    + specialize (IH w Hw). now destruct (prune path files w) as [[kept w'] skip].
  - specialize (IH w Hw). now destruct (prune path files w) as [[kept w'] skip].
Qed.

Lemma walkEntries_bound (path : gostring) (files : list (gostring * OS.node)) :
  Forall (fun f => forall p w, deletions w <= limit -> deletions (walk p f.2 w).2 <= limit) files ->
  forall kept w, deletions w <= limit ->
                 deletions (walkEntries walk path files kept w).2 <= limit.
Proof.
  induction 1 as [|[name d1] files Hd _ IH]; intros kept w Hw.
  - now destruct kept as [|[]].
  - destruct kept as [|[] kept]; cbn [walkEntries]; [exact Hw| |now apply IH].
    specialize (Hd (Filepath.Join [path; name]) w Hw). cbn [snd] in Hd.
    destruct (walk (Filepath.Join [path; name]) d1 w) as [r w1].
    specialize (IH kept w1 Hd). now destruct (walkEntries walk path files kept w1) as [rest w2].
Qed.

Lemma walkDir_bound (d : OS.node) (path : gostring) (w : Walk) :
  deletions w <= limit -> deletions (walk path d w).2 <= limit.
Proof.
  revert path w. induction d as [c|files IH] using OSFacts.node_ind; intros path w Hw; [exact Hw|].
  rewrite walkDir_Dir. pose proof (pruneFiles_bound path files w Hw) as H1.
  destruct (prune path files w) as [[kept w1] skip]. cbn [fst snd] in H1.
  destruct skip; [exact H1|].
  destruct (Nat.eqb (length (remaining files kept)) 0 && negb (Strings.eqs path rootDir));
    [exact H1|].
  pose proof (walkEntries_bound path files IH kept w1 H1) as H2.
  now destruct (walkEntries walk path files kept w1) as [entries w2].
Qed.

(** *** Trees without stale' stream files *)

Lemma allKept_Dir (path : gostring) (es : list (gostring * OS.node)) :
  allKept' path (OS.Dir es) <-> Forall (entryKept' path) es.
Proof.
  cbn [allKept]. induction es as [|f es IH].
  - split; [constructor | trivial].
  - rewrite Forall_cons, <- IH. reflexivity.
Qed.

Lemma walkDir_isDir (path : gostring) (d d' : OS.node) (w : Walk) :
  (walk path d w).1 = Some d' -> OS.isDir d' = OS.isDir d.
Proof.
  destruct d as [c|files]; [now intros [= <-]|]. rewrite walkDir_Dir.
  destruct (prune path files w) as [[kept w1] skip]. destruct skip; [now intros [= <-]|].
  destruct (Nat.eqb _ 0 && negb _); [discriminate|].
  destruct (walkEntries walk path files kept w1). now intros [= <-].
Qed.

Lemma keptEntry_isDir (path name : gostring) (d d' : OS.node) :
  OS.isDir d' = OS.isDir d -> keptEntry' path (name, d) -> keptEntry' path (name, d').
Proof. unfold keptEntry, isStrmFile. cbn [fst snd]. now intros ->. Qed.

(** When the loop is left because of the limit, the counter has reached it. *)
Lemma pruneFiles_skip (path : gostring) (files : list (gostring * OS.node)) (w : Walk) :
  (prune path files w).2 = true -> limit <= deletions (prune path files w).1.2.
Proof.
  revert w. induction files as [|[name file] files IH]; intros w; [discriminate|].
  cbn [pruneFiles]. destruct (limit <=? deletions w) eqn:E; [intros _; cbn; lia|].
  destruct (negb (OS.isDir file) && Strings.eqs (Filepath.Ext name) (str ".strm")).
  - destruct (negb (bool_decide (ToLower lower (Filepath.Join [path; name]) ∈ ciKeepFiles))).
    + specialize (IH (mkWalk (deletions w + 1) (incRemovedStrmFiles (wstats w)))).
      now destruct (prune path files _) as [[kept w'] skip].
    + specialize (IH w). now destruct (prune path files w) as [[kept w'] skip].
  - specialize (IH w). now destruct (prune path files w) as [[kept w'] skip].
Qed.

(** When the loop runs to its end, the entries that are still there are
    not stale'. *)
Lemma pruneFiles_complete (path : gostring) (files : list (gostring * OS.node)) (w : Walk) :
  (prune path files w).2 = false ->
  Forall2 (fun f k => k = true -> keptEntry' path f) files (prune path files w).1.1.
Proof.
  revert w. induction files as [|[name file] files IH]; intros w; [constructor|].
  cbn [pruneFiles]. destruct (limit <=? deletions w); [discriminate|].
  fold (isStrmFile name file). destruct (isStrmFile name file) eqn:Hs.
  - destruct (bool_decide (ToLower lower (Filepath.Join [path; name]) ∈ ciKeepFiles)) eqn:Hk;
      cbn [negb].
    + specialize (IH w). destruct (prune path files w) as [[kept w'] skip].
      intros Hskip. constructor; [|now apply IH].
      intros _ _. now apply bool_decide_eq_true in Hk.
    + specialize (IH (mkWalk (deletions w + 1) (incRemovedStrmFiles (wstats w)))).
      destruct (prune path files _) as [[kept w'] skip].
      intros Hskip. constructor; [discriminate | now apply IH].
  - specialize (IH w). destruct (prune path files w) as [[kept w'] skip].
    intros Hskip. constructor; [|now apply IH].
    intros _. unfold keptEntry. cbn [fst snd]. rewrite Hs. discriminate.
Qed.

(** Where no entry is stale' the loop removes nothing. *)
Lemma pruneFiles_noop (path : gostring) (files : list (gostring * OS.node)) (w : Walk) :
  Forall (keptEntry' path) files ->
  (prune path files w).1 = (map (fun _ => true) files, w).
Proof.
  induction 1 as [|[name file] files Hf _ IH]; [reflexivity|].
  cbn [pruneFiles]. destruct (limit <=? deletions w); [reflexivity|].
  fold (isStrmFile name file). destruct (isStrmFile name file) eqn:Hs.
  - unfold keptEntry in Hf. cbn [fst snd] in Hf.
    rewrite (bool_decide_eq_true_2 _ (Hf Hs)). cbn [negb].
    destruct (prune path files w) as [[kept w'] skip]. cbn [fst] in *. now injection IH as -> ->.
  - destruct (prune path files w) as [[kept w'] skip]. cbn [fst] in *. now injection IH as -> ->.
Qed.

Lemma remaining_all (files : list (gostring * OS.node)) :
  remaining files (map (fun _ => true) files) = files.
Proof. induction files as [|f files IH]; [reflexivity|]. cbn. now rewrite IH. Qed.

Lemma remaining_Forall (P : gostring * OS.node -> Prop)
    (files : list (gostring * OS.node)) (kept : list bool) :
  Forall P files -> Forall P (remaining files kept).
Proof.
  intros H. revert kept. induction H as [|f files Hf _ IH]; intros kept.
  - destruct kept as [|[]]; constructor.
  - destruct kept as [|[] kept]; cbn [remaining]; [constructor| |apply IH].
    constructor; [exact Hf | apply IH].
Qed.

(** The entries that are there after the walk of a directory whose loop ran
    to its end, when the counter stayed under the limit. *)
Lemma walkEntries_complete (path : gostring) (files : list (gostring * OS.node)) :
  Forall (fun f => forall p w d', (walk p f.2 w).1 = Some d' ->
                                  deletions (walk p f.2 w).2 < limit -> allKept' p d') files ->
  forall kept w,
  Forall2 (fun f k => k = true -> keptEntry' path f) files kept ->
  deletions (walkEntries walk path files kept w).2 < limit ->
  Forall (entryKept' path) (walkEntries walk path files kept w).1.
Proof.
  induction 1 as [|[name d1] files Hd _ IH]; intros kept w HF.
  - destruct kept as [|[]]; constructor.
  - inversion HF as [|? b ? kept' Hb HF']; subst. destruct b; cbn [walkEntries]; [|now apply IH].
    specialize (Hd (Filepath.Join [path; name]) w). cbn [snd] in Hd.
    pose proof (walkDir_isDir (Filepath.Join [path; name]) d1) as Hdir.
    destruct (walk (Filepath.Join [path; name]) d1 w) as [r w1] eqn:E1.
    specialize (IH kept' w1 HF').
    pose proof (walkEntries_counts walk path files
                  ltac:(apply Forall_forall; intros f _ p w'; apply walkDir_counts) kept' w1) as Hc.
    destruct (walkEntries walk path files kept' w1) as [rest w2]. cbn [fst snd] in *.
    intros Hlt. destruct Hc as (_ & Hmono & _).
    destruct r as [d1'|]; [|now apply IH].
    constructor; [|now apply IH]. split.
    + apply keptEntry_isDir with (d := d1); [apply (Hdir d1' w); now rewrite E1 | now apply Hb].
    + cbn [fst snd]. apply Hd; [reflexivity | lia].
Qed.

(** A walk that ends with its counter under the limit leaves no stale' stream
    file in the tree it walked. *)
Lemma walkDir_complete (d : OS.node) :
  forall (path : gostring) (w : Walk) (d' : OS.node),
  (walk path d w).1 = Some d' -> deletions (walk path d w).2 < limit -> allKept' path d'.
Proof.
  induction d as [c|files IH] using OSFacts.node_ind; intros path w d'.
  - intros [= <-] _. exact I.
  - rewrite walkDir_Dir.
    pose proof (pruneFiles_skip path files w) as Hskip.
    pose proof (pruneFiles_complete path files w) as Hcomp.
    destruct (prune path files w) as [[kept w1] skip]. cbn [fst snd] in *.
    destruct skip; [intros _ Hlt; specialize (Hskip eq_refl); cbn [snd] in Hlt; lia|].
    destruct (Nat.eqb _ 0 && negb _); [discriminate|].
    pose proof (walkEntries_complete path files IH kept w1 (Hcomp eq_refl)) as HE.
    destruct (walkEntries walk path files kept w1) as [entries w2]. cbn [fst snd] in *.
    intros [= <-] Hlt. apply allKept_Dir. now apply HE.
Qed.

(** The walk removes entries only: what held of every stream file of the
    tree, for the paths of whatever walk, holds of those that are left. *)
Lemma walkEntries_monotone (path path' : gostring) (files : list (gostring * OS.node)) :
  Forall (fun f => forall p p' w d', (walk p f.2 w).1 = Some d' ->
                                     allKept' p' f.2 -> allKept' p' d') files ->
  forall kept w,
  Forall (entryKept' path') files ->
  Forall (entryKept' path') (walkEntries walk path files kept w).1.
Proof.
  induction 1 as [|[name d1] files Hd _ IH]; intros kept w HF.
  - destruct kept as [|[]]; constructor.
  - inversion_clear HF as [|? ? [Hk Ha] HF']. cbn [fst snd] in *.
    destruct kept as [|[] kept]; cbn [walkEntries]; [constructor| |now apply IH].
    specialize (Hd (Filepath.Join [path; name]) (Filepath.Join [path'; name]) w). cbn [snd] in Hd.
    pose proof (walkDir_isDir (Filepath.Join [path; name]) d1) as Hdir.
    destruct (walk (Filepath.Join [path; name]) d1 w) as [r w1] eqn:E1.
    specialize (IH kept w1 HF'). destruct (walkEntries walk path files kept w1) as [rest w2].
    cbn [fst] in *. destruct r as [d1'|]; [|exact IH].
    constructor; [|exact IH]. split.
    + apply keptEntry_isDir with (d := d1); [apply (Hdir d1' w); now rewrite E1 | exact Hk].
    + now apply Hd.
Qed.

Lemma walkDir_monotone (d : OS.node) :
  forall (path path' : gostring) (w : Walk) (d' : OS.node),
  (walk path d w).1 = Some d' -> allKept' path' d -> allKept' path' d'.
Proof.
  induction d as [c|files IH] using OSFacts.node_ind; intros path path' w d'.
  - now intros [= <-].
  - rewrite walkDir_Dir. destruct (prune path files w) as [[kept w1] skip].
    rewrite !allKept_Dir. destruct skip.
    + intros [= <-] H. apply allKept_Dir. now apply remaining_Forall.
    + destruct (Nat.eqb _ 0 && negb _); [discriminate|].
      pose proof (walkEntries_monotone path path' files IH kept w1) as HE.
      destruct (walkEntries walk path files kept w1) as [entries w2]. cbn [fst] in *.
      intros [= <-] H. apply allKept_Dir. now apply HE.
Qed.

(** On a tree without stale' stream files the walk removes no file. *)
Lemma walkEntries_noop (path : gostring) (files : list (gostring * OS.node)) :
  Forall (fun f => forall p w, allKept' p f.2 -> deletions (walk p f.2 w).2 = deletions w) files ->
  forall w,
  Forall (entryKept' path) files ->
  deletions (walkEntries walk path files (map (fun _ => true) files) w).2 = deletions w.
Proof.
  induction 1 as [|[name d1] files Hd _ IH]; intros w HF; [reflexivity|].
  inversion_clear HF as [|? ? [Hk Ha] HF']. cbn [fst snd map walkEntries] in *.
  specialize (Hd (Filepath.Join [path; name]) w Ha).
  destruct (walk (Filepath.Join [path; name]) d1 w) as [r w1].
  specialize (IH w1 HF').
  destruct (walkEntries walk path files (map (fun _ => true) files) w1) as [rest w2].
  cbn [snd] in *. lia.
Qed.

Lemma walkDir_noop (d : OS.node) :
  forall (path : gostring) (w : Walk),
  allKept' path d -> deletions (walk path d w).2 = deletions w.
Proof.
  induction d as [c|files IH] using OSFacts.node_ind; intros path w; [reflexivity|].
  rewrite allKept_Dir. intros HF. rewrite walkDir_Dir.
  assert (Hk : Forall (keptEntry' path) files)
    by (eapply Forall_impl; [exact HF|]; intros f [Hf _]; exact Hf).
  pose proof (pruneFiles_noop path files w Hk) as Hp.
  destruct (prune path files w) as [[kept w1] skip]. cbn [fst] in Hp. injection Hp as -> ->.
  destruct skip; [reflexivity|].
  destruct (Nat.eqb _ 0 && negb _); [reflexivity|].
  pose proof (walkEntries_noop path files IH w HF) as HE.
  now destruct (walkEntries walk path files (map (fun _ => true) files) w) as [entries w2].
Qed.

(** The root of a walk is never removed. *)
Lemma walkDir_root (d : OS.node) (w : Walk) : is_Some (walk rootDir d w).1.
Proof.
  destruct d as [c|files]; [cbn; eauto|]. rewrite walkDir_Dir.
  destruct (prune rootDir files w) as [[kept w1] skip]. destruct skip; [cbn; eauto|].
  rewrite OSFacts.eqs_refl, andb_false_r.
  destruct (walkEntries walk rootDir files kept w1). cbn. eauto.
Qed.

End WalkFacts.

(** C4.  A file that is in the tree of [rootDir] when [removeEmptyDirs]
    runs, and whose path as the walk computes it equals a key [k] of
    [keepFiles] once both are lower-cased, is still there afterwards, under
    the same name and with the same content. *)
Theorem kept_stream_file_survives
    (lower : gostring -> gostring) (rootDir : gostring) (limit : Z) (st : State)
    (d : OS.node) (names : list gostring) (content k : gostring) :
  OS.Stat (fs st) rootDir = OS.Found d ->
  names <> [] ->
  OS.lookup d names = OS.Found (OS.File content) ->
  k ∈ keepFiles st ->
  ToLower lower k = ToLower lower (walkPath rootDir names) ->
  exists d', OS.Stat (fs (removeEmptyDirs lower rootDir limit st)) rootDir = OS.Found d' /\
             OS.lookup d' names = OS.Found (OS.File content).
Proof.
  intros HS Hne Hl Hk Heq. unfold removeEmptyDirs. rewrite HS.
  set (K := set_map (ToLower lower) (keepFiles st) : gset gostring).
  assert (HK : ToLower lower (walkPath rootDir names) ∈ K).
  { rewrite <- Heq. apply elem_of_map. eauto. }
  destruct (walkDir_keeps lower K rootDir limit d rootDir
              (mkWalk 0 (stats st)) names content Hne Hl HK) as (d' & Hd' & Hl').
  destruct (walkDir lower K rootDir limit rootDir d (mkWalk 0 (stats st))) as [r w].
  cbn [fst] in Hd'. subst r. exists d'. split; [|exact Hl']. cbn [fs].
  unfold OS.Stat in *. destruct (Strings.eqs rootDir []); [discriminate|].
  now apply OSFacts.lookup_replaceAt with (d := d).
Qed.

(** C4, witness: the key [movies/Old Movie/Old Movie.strm] keeps the file
    that is on disk as [movies/old movie/OLD MOVIE.strm]. *)
Lemma kept_stream_file_survives_witness :
  let tree := OS.Dir [(str "movies",
                OS.Dir [(str "old movie", OS.Dir [(str "OLD MOVIE.strm", OS.File (str "http://x/b.avi"))])])] in
  let st := mkState tree {[ str "movies/Old Movie/Old Movie.strm" ]} (mkStats 0 0 0 0) in
  exists d', OS.Stat (fs (removeEmptyDirs noUnicodeToLower (str "movies") 25 st)) (str "movies")
             = OS.Found d' /\
             OS.lookup d' [str "old movie"; str "OLD MOVIE.strm"]
             = OS.Found (OS.File (str "http://x/b.avi")).
Proof.
  intros tree st.
  apply (kept_stream_file_survives noUnicodeToLower (str "movies") 25 st
           (OS.Dir [(str "old movie", OS.Dir [(str "OLD MOVIE.strm", OS.File (str "http://x/b.avi"))])])
           [str "old movie"; str "OLD MOVIE.strm"] (str "http://x/b.avi")
           (str "movies/Old Movie/Old Movie.strm")).
  - vm_compute. reflexivity.
  - discriminate.
  - vm_compute. reflexivity.
  - unfold st. cbn [keepFiles]. now apply elem_of_singleton_2.
  - vm_compute. reflexivity.
Defined.



(** ** Paths *)
Module FilepathFacts.
Import Filepath.

Lemma splitSlash_cons (s : gostring) : exists e rest, splitSlash s = e :: rest.
Proof.
  induction s as [|c s (e & rest & IH)]; cbn [splitSlash]; [eauto|].
  destruct (Ascii.eqb c "/"); [eauto|]. rewrite IH. eauto.
Qed.

Lemma splitSlash_app (a t : gostring) :
  splitSlash (a ++ "/"%char :: t) = splitSlash a ++ splitSlash t.
Proof.
  induction a as [|c a IH]; [reflexivity|].
  cbn [app splitSlash]. destruct (Ascii.eqb c "/"); [now rewrite IH|].
  rewrite IH. destruct (splitSlash_cons a) as (e & rest & ->). reflexivity.
Qed.

Lemma splitSlash_no_slash (s : gostring) :
  Forall (fun c => c <> "/"%char) s -> splitSlash s = [s].
Proof.
  induction 1 as [|c s Hc _ IH]; [reflexivity|]. cbn [splitSlash].
  destruct (Ascii.eqb_spec c "/"%char); [contradiction|]. now rewrite IH.
Qed.

Lemma splitSlash_elems (s : gostring) :
  Forall (Forall (fun c => c <> "/"%char)) (splitSlash s).
Proof.
  induction s as [|c s IH]; [repeat constructor|]. cbn [splitSlash].
  destruct (Ascii.eqb_spec c "/"%char) as [->|Hc]; [constructor; [constructor | exact IH]|].
  destruct (splitSlash s) as [|e rest]; [repeat constructor; assumption|].
  inversion_clear IH. constructor; [constructor|]; assumption.
Qed.

Lemma splitSlash_joinSlash (l : list gostring) :
  Forall (Forall (fun c => c <> "/"%char)) l -> l <> [] -> splitSlash (joinSlash l) = l.
Proof.
  induction 1 as [|e l He _ IH]; [contradiction|]. intros _.
  destruct l as [|e' l].
  - cbn [joinSlash]. now apply splitSlash_no_slash.
  - change (joinSlash (e :: e' :: l)) with (e ++ "/"%char :: joinSlash (e' :: l)).
    rewrite splitSlash_app, splitSlash_no_slash by assumption.
    rewrite IH by discriminate. reflexivity.
Qed.

Lemma cleanElems_app (rooted : bool) (l1 l2 out : list gostring) :
  cleanElems rooted (l1 ++ l2) out = cleanElems rooted l2 (cleanElems rooted l1 out).
Proof.
  revert out. induction l1 as [|e l1 IH]; intros out; [reflexivity|].
  cbn [app cleanElems].
  destruct (Strings.eqs e [] || Strings.eqs e (str ".")); [apply IH|].
  destruct (Strings.eqs e (str "..")); [|apply IH].
  destruct out as [|top out]; [destruct rooted; apply IH|].
  destruct (Strings.eqs top (str "..")); apply IH.
Qed.

Lemma cleanElems_plain (rooted : bool) (e : gostring) (rest out : list gostring) :
  plain e -> cleanElems rooted (e :: rest) out = cleanElems rooted rest (e :: out).
Proof.
  intros (H1 & H2 & H3 & _). cbn [cleanElems].
  rewrite (proj2 (OSFacts.eqs_false e []) H1), (proj2 (OSFacts.eqs_false e (str ".")) H2),
    (proj2 (OSFacts.eqs_false e (str "..")) H3). reflexivity.
Qed.

Lemma cleanElems_plain_list (rooted : bool) (l out : list gostring) :
  Forall plain l -> cleanElems rooted l out = rev l ++ out.
Proof.
  intros H. revert out. induction H as [|e l He _ IH]; intros out; [reflexivity|].
  rewrite cleanElems_plain by assumption. rewrite IH. cbn [rev]. now rewrite <- app_assoc.
Qed.

(** The output of the loop on a rooted path holds plain elements only. *)
Lemma cleanElems_rooted_plain (elems out : list gostring) :
  Forall (Forall (fun c => c <> "/"%char)) elems ->
  Forall plain out -> Forall plain (cleanElems true elems out).
Proof.
  intros H. revert out. induction H as [|e elems He _ IH]; intros out Hout; [exact Hout|].
  cbn [cleanElems].
  destruct (Strings.eqs e []) eqn:E1; [now apply IH|].
  destruct (Strings.eqs e (str ".")) eqn:E2; [now apply IH|]. cbn [orb].
  destruct (Strings.eqs e (str "..")) eqn:E3.
  - destruct out as [|top out]; [now apply IH|].
    inversion_clear Hout as [|? ? Htop Hout'].
    destruct (Strings.eqs top (str "..")) eqn:E4.
    + apply OSFacts.eqs_true in E4. destruct Htop as (_ & _ & Hn & _). contradiction.
    + now apply IH.
  - apply IH. constructor; [|exact Hout].
    apply OSFacts.eqs_false in E1, E2, E3. repeat split; assumption.
Qed.

Lemma resolve_plain (path : gostring) : Forall plain (OS.resolve path).
Proof.
  unfold OS.resolve. apply Forall_rev.
  apply cleanElems_rooted_plain; [apply splitSlash_elems | constructor].
Qed.

Lemma plain_no_slash (l : list gostring) :
  Forall plain l -> Forall (Forall (fun c => c <> "/"%char)) l.
Proof. intros H. eapply Forall_impl; [exact H|]. intros e He. apply He. Qed.

Lemma resolve_rootedPath (l : list gostring) :
  Forall plain l -> OS.resolve (rootedPath l) = l.
Proof.
  intros Hl. unfold OS.resolve, rootedPath.
  change ("/"%char :: joinSlash l) with ([] ++ "/"%char :: joinSlash l).
  rewrite splitSlash_app. cbn [splitSlash app cleanElems].
  rewrite OSFacts.eqs_refl. cbn [orb].
  destruct l as [|e l].
  - cbn [joinSlash splitSlash cleanElems]. now rewrite OSFacts.eqs_refl.
  - rewrite splitSlash_joinSlash; [|now apply plain_no_slash | discriminate].
    rewrite cleanElems_plain_list by assumption.
    now rewrite app_nil_r, rev_involutive.
Qed.

(** [filepath.Clean] of a rooted path is the canonical text of its
    elements. *)
Lemma Clean_rooted (path : gostring) :
  isRooted path = true -> Clean path = rootedPath (OS.resolve path).
Proof. intros H. unfold Clean. rewrite H. reflexivity. Qed.

Lemma isRooted_rootedPath (l : list gostring) : isRooted (rootedPath l) = true.
Proof. reflexivity. Qed.

Lemma isRooted_app (a b : gostring) : isRooted a = true -> isRooted (a ++ b) = true.
Proof. destruct a; [discriminate | intros H; exact H]. Qed.

(** The elements of [path/name]. *)
Lemma resolve_slash (path name : gostring) :
  OS.resolve (path ++ "/"%char :: name)
  = rev (cleanElems true (splitSlash name) (rev (OS.resolve path))).
Proof.
  unfold OS.resolve. now rewrite splitSlash_app, cleanElems_app, rev_involutive.
Qed.

Lemma resolve_slash_plain (path name : gostring) :
  plain name -> OS.resolve (path ++ "/"%char :: name) = OS.resolve path ++ [name].
Proof.
  intros Hn. rewrite resolve_slash.
  rewrite splitSlash_no_slash by apply Hn.
  rewrite cleanElems_plain by assumption. cbn [cleanElems rev].
  now rewrite rev_involutive.
Qed.

(** [filepath.Join] of a rooted path and a name. *)
Lemma Join_rooted (path name : gostring) :
  isRooted path = true ->
  Join [path; name] = rootedPath (OS.resolve (path ++ "/"%char :: name)).
Proof.
  intros H. cbn [Join]. destruct path as [|c path]; [discriminate|].
  rewrite (proj2 (OSFacts.eqs_false (c :: path) [])) by discriminate.
  cbn [joinSlash]. apply Clean_rooted. exact H.
Qed.

(** Two rooted paths with the same elements give the same path to each of
    their entries. *)
Lemma Join_same_elems (path1 path2 name : gostring) :
  isRooted path1 = true -> isRooted path2 = true ->
  OS.resolve path1 = OS.resolve path2 ->
  Join [path1; name] = Join [path2; name].
Proof.
  intros H1 H2 He. rewrite !Join_rooted by assumption.
  now rewrite !resolve_slash, He.
Qed.

Lemma Join_rooted_plain (path name : gostring) :
  isRooted path = true -> plain name ->
  Join [path; name] = rootedPath (OS.resolve path ++ [name]).
Proof. intros H Hn. rewrite Join_rooted by assumption. now rewrite resolve_slash_plain. Qed.

(** The path that the walk of a rooted [rootDir] computes for the node
    reached through plain names is the canonical text of its elements. *)
Lemma walkPath_rooted (rootDir : gostring) (names : list gostring) :
  isRooted rootDir = true -> Forall plain names -> names <> [] ->
  walkPath rootDir names = rootedPath (OS.resolve rootDir ++ names).
Proof.
  intros Hr Hn. revert rootDir Hr. induction Hn as [|e names He Hn IH]; intros rootDir Hr Hne;
    [contradiction|].
  cbn [walkPath fold_left]. destruct names as [|e' names].
  - cbn [fold_left]. now apply Join_rooted_plain.
  - fold (walkPath (Join [rootDir; e]) (e' :: names)).
    rewrite Join_rooted_plain by assumption.
    rewrite IH; [|reflexivity|discriminate].
    rewrite resolve_rootedPath.
    + now rewrite <- app_assoc.
    + apply Forall_app. split; [apply resolve_plain | now constructor].
Qed.

End FilepathFacts.

(** ** The materializer *)
Module MaterializerFacts.
Import Filepath FilepathFacts.

Lemma splitSlash_joinSlash_concat (l : list gostring) :
  l <> [] -> splitSlash (joinSlash l) = concat (map splitSlash l).
Proof.
  induction l as [|e l IH]; [contradiction|]. intros _. destruct l as [|e' l].
  - cbn. now rewrite app_nil_r.
  - change (joinSlash (e :: e' :: l)) with (e ++ "/"%char :: joinSlash (e' :: l)).
    rewrite splitSlash_app, IH by discriminate. reflexivity.
Qed.

Lemma isRooted_joinSlash (a : gostring) (l : list gostring) :
  a <> [] -> isRooted (joinSlash (a :: l)) = isRooted a.
Proof. intros Ha. destruct a; [contradiction|]. destruct l; reflexivity. Qed.

(** An empty element after the first one does not change what
    [filepath.Clean] makes of the joined elements. *)
Lemma Clean_joinSlash_skip (a : gostring) (l1 l2 : list gostring) :
  a <> [] ->
  Clean (joinSlash (a :: l1 ++ [] :: l2)) = Clean (joinSlash (a :: l1 ++ l2)).
Proof.
  intros Ha. unfold Clean. rewrite !isRooted_joinSlash by assumption.
  rewrite !splitSlash_joinSlash_concat by discriminate.
  cbn [map concat]. rewrite !map_app, !concat_app. cbn [map concat splitSlash].
  rewrite !cleanElems_app. cbn [app cleanElems]. rewrite OSFacts.eqs_refl. reflexivity.
Qed.

(** [filepath.Join] ignores empty elements. *)
Lemma Join_skip_empty (l1 l2 : list gostring) : Join (l1 ++ [] :: l2) = Join (l1 ++ l2).
Proof.
  induction l1 as [|e l1 IH]; cbn [app Join].
  - now rewrite OSFacts.eqs_refl.
  - destruct (Strings.eqs e []) eqn:E; [exact IH|].
    apply OSFacts.eqs_false in E. now apply Clean_joinSlash_skip.
Qed.

Lemma mkdirAll_empty (elems : list gostring) : is_Some (OS.mkdirAll (OS.Dir []) elems).
Proof.
  induction elems as [|e elems [c IH]]; cbn [OS.mkdirAll OS.lookupEntry]; [eauto|].
  rewrite IH. eauto.
Qed.

(** Where [os.Stat] finds nothing, [os.MkdirAll] succeeds. *)
Lemma mkdirAll_ENOENT (elems : list gostring) (n : OS.node) :
  OS.lookup n elems = OS.ENOENT -> is_Some (OS.mkdirAll n elems).
Proof.
  revert n. induction elems as [|e elems IH]; intros n; [discriminate|].
  destruct n as [c|es]; [discriminate|]. cbn [OS.lookup OS.mkdirAll].
  destruct (OS.lookupEntry e es) as [c|].
  - intros H. destruct (IH c H) as [c' ->]. eauto.
  - intros _. destruct (mkdirAll_empty elems) as [c' ->]. eauto.
Qed.

Lemma MkdirAll_ENOENT (tree : OS.node) (path : gostring) :
  path <> [] -> OS.Stat tree path = OS.ENOENT -> is_Some (OS.MkdirAll tree path).
Proof.
  intros Hp. unfold OS.Stat, OS.MkdirAll.
  rewrite (proj2 (OSFacts.eqs_false path []) Hp). apply mkdirAll_ENOENT.
Qed.

Lemma Clean_nonempty (path : gostring) : Clean path <> [].
Proof.
  unfold Clean. destruct (isRooted path); [discriminate|].
  destruct (Strings.eqs _ []) eqn:E; [discriminate|]. now apply OSFacts.eqs_false in E.
Qed.

Lemma Stat_empty (tree : OS.node) : OS.Stat tree [] = OS.ENOENT.
Proof. reflexivity. Qed.

Lemma MkdirAll_empty (tree : OS.node) : OS.MkdirAll tree [] = None.
Proof. reflexivity. Qed.

Lemma createOrUpdateStrmFile_keeps (filePath url : gostring) (st : State) :
  keepFiles (createOrUpdateStrmFile filePath url st) = keepFiles st /\
  stats (createOrUpdateStrmFile filePath url st) = stats st.
Proof. unfold createOrUpdateStrmFile. destruct (OS.Create _ _ _); split; reflexivity. Qed.

End MaterializerFacts.

Lemma Join_nonempty (l : list gostring) :
  Exists (fun e => e <> []) l -> Filepath.Join l <> [].
Proof.
  induction l as [|e l IH]; intros H; [inversion H|]. cbn [Filepath.Join].
  destruct (Strings.eqs e []) eqn:E.
  - apply OSFacts.eqs_true in E as ->. inversion_clear H; [contradiction | now apply IH].
  - apply MaterializerFacts.Clean_nonempty.
Qed.

(** What [processTVShow] and [processMovie] do once the directory [dir] of
    the record is known: the directory is made if [os.Stat] does not find
    it, the path of the stream file enters [keepFiles], the file is written
    and counted. *)
Lemma materialize_effect (dir : gostring) (stream : Stream) (st st' : State) :
  dir <> [] ->
  st' = match (if OS.IsNotExist (OS.Stat (fs st) dir) then
                 match OS.MkdirAll (fs st) dir with
                 | Some fs' => Some (mkState fs' (keepFiles st) (incCreatedDirs (stats st)))
                 | None => None
                 end
               else Some st) with
        | None => st
        | Some st1 =>
            let strmFilePath := strmFilePathOf dir stream in
            let st2 := mkState (fs st1) ({[ strmFilePath ]} ∪ keepFiles st1) (stats st1) in
            let st3 := createOrUpdateStrmFile strmFilePath (URL stream) st2 in
            mkState (fs st3) (keepFiles st3) (incKeptStrmFiles (stats st3))
        end ->
  keepFiles st' = {[ strmFilePathOf dir stream ]} ∪ keepFiles st /\
  keptStrmFiles (stats st') = keptStrmFiles (stats st) + 1 /\
  createdDirs (stats st')
  = createdDirs (stats st) + (if OS.IsNotExist (OS.Stat (fs st) dir) then 1 else 0) /\
  removedStrmFiles (stats st') = removedStrmFiles (stats st) /\
  removedEmptyDirs (stats st') = removedEmptyDirs (stats st).
Proof.
  intros Hd ->. destruct (OS.Stat (fs st) dir) as [n| |] eqn:ES; cbn [OS.IsNotExist].
  - cbv zeta. cbn [fs keepFiles stats].
    destruct (MaterializerFacts.createOrUpdateStrmFile_keeps (strmFilePathOf dir stream) (URL stream)
                (mkState (fs st) ({[strmFilePathOf dir stream]} ∪ keepFiles st) (stats st))) as [-> ->].
    cbn. repeat split; lia.
  - destruct (MaterializerFacts.MkdirAll_ENOENT (fs st) dir Hd ES) as [fs' ->].
    cbv zeta. cbn [fs keepFiles stats].
    destruct (MaterializerFacts.createOrUpdateStrmFile_keeps (strmFilePathOf dir stream) (URL stream)
                (mkState fs' ({[strmFilePathOf dir stream]} ∪ keepFiles st) (incCreatedDirs (stats st))))
      as [-> ->].
    cbn. repeat split; lia.
  - cbv zeta. cbn [fs keepFiles stats].
    destruct (MaterializerFacts.createOrUpdateStrmFile_keeps (strmFilePathOf dir stream) (URL stream)
                (mkState (fs st) ({[strmFilePathOf dir stream]} ∪ keepFiles st) (stats st))) as [-> ->].
    cbn. repeat split; lia.
Qed.




(** ** Trees without stale stream files, under the operations of a run *)
Section TreeFacts.

Variable lower : gostring -> gostring.
Variable ciKeepFiles : gset gostring.

Local Abbreviation kept := (allKept lower ciKeepFiles).
Local Abbreviation entryOK := (entryKept lower ciKeepFiles).

Lemma Forall_putEntry (P : gostring * OS.node -> Prop) (e : gostring) (n : OS.node)
    (es : list (gostring * OS.node)) :
  Forall P es -> P (e, n) -> Forall P (OS.putEntry e n es).
Proof.
  intros H Hn. induction H as [|[k m] es Hk H IH]; cbn [OS.putEntry]; [now constructor|].
  destruct (Strings.eqs k e); [now constructor|].
  destruct (OS.lessString e k); constructor; auto.
Qed.

Lemma entryOK_dir (path e : gostring) (n : OS.node) :
  OS.isDir n = true -> kept (Filepath.Join [path; e]) n -> entryOK path (e, n).
Proof.
  intros Hd Hk. split; [|exact Hk]. unfold keptEntry, isStrmFile. cbn [fst snd].
  rewrite Hd. discriminate.
Qed.

(** Rooted paths with the same elements walk a tree alike. *)
Lemma allKept_same_elems (path1 path2 : gostring) (d : OS.node) :
  Filepath.isRooted path1 = true -> Filepath.isRooted path2 = true ->
  OS.resolve path1 = OS.resolve path2 ->
  kept path1 d -> kept path2 d.
Proof.
  intros H1 H2 He. destruct d as [c|es]; [trivial|]. rewrite !allKept_Dir.
  intros H. eapply Forall_impl; [exact H|]. intros [name n].
  unfold entryKept, keptEntry. cbn [fst snd].
  now rewrite (FilepathFacts.Join_same_elems path1 path2 name H1 H2 He).
Qed.

Lemma allKept_entry (path e : gostring) (es : list (gostring * OS.node)) (c : OS.node) :
  kept path (OS.Dir es) -> OS.lookupEntry e es = Some c -> kept (Filepath.Join [path; e]) c.
Proof.
  intros Hk E. apply allKept_Dir in Hk. rewrite Forall_forall in Hk.
  now destruct (Hk (e, c)) as [_ Hc]; [apply list_elem_of_In, OSFacts.lookupEntry_In|].
Qed.

Lemma allKept_lookup (names : list gostring) :
  forall (path : gostring) (d d' : OS.node),
  kept path d -> OS.lookup d names = OS.Found d' -> kept (walkPath path names) d'.
Proof.
  induction names as [|e names IH]; intros path d d' Hk; [now intros [= <-]|].
  cbn [OS.lookup]. destruct d as [c|es]; [discriminate|].
  destruct (OS.lookupEntry e es) as [c|] eqn:E; [|discriminate]. intros Hl.
  exact (IH _ _ _ (allKept_entry _ _ _ _ Hk E) Hl).
Qed.

Lemma lookup_Dir_eq (e : gostring) (n : OS.node) (es : list (gostring * OS.node))
    (place : list gostring) :
  OS.lookup (OS.Dir (OS.putEntry e n es)) (e :: place) = OS.lookup n place.
Proof. cbn [OS.lookup]. now rewrite OSFacts.lookupEntry_putEntry_eq. Qed.

Lemma lookup_Dir_ne (e e' : gostring) (n : OS.node) (es : list (gostring * OS.node))
    (place : list gostring) :
  e <> e' ->
  OS.lookup (OS.Dir (OS.putEntry e n es)) (e' :: place) = OS.lookup (OS.Dir es) (e' :: place).
Proof. intros H. cbn [OS.lookup]. now rewrite OSFacts.lookupEntry_putEntry_ne. Qed.

(** *** [os.MkdirAll] *)

(** [os.MkdirAll] on a directory puts at the first element [e] what it makes
    of the entry that is there, or of an empty directory. *)
Lemma mkdirAll_inv (e : gostring) (elems : list gostring) (es : list (gostring * OS.node))
    (tree' : OS.node) :
  OS.mkdirAll (OS.Dir es) (e :: elems) = Some tree' ->
  exists c c', OS.mkdirAll c elems = Some c' /\ tree' = OS.Dir (OS.putEntry e c' es) /\
               (OS.lookupEntry e es = Some c \/ (OS.lookupEntry e es = None /\ c = OS.Dir [])).
Proof.
  cbn [OS.mkdirAll]. destruct (OS.lookupEntry e es) as [c|] eqn:E.
  - destruct (OS.mkdirAll c elems) as [c'|] eqn:Ec; [|discriminate]. intros [= <-]. eauto 6.
  - destruct (OS.mkdirAll (OS.Dir []) elems) as [c'|] eqn:Ec; [|discriminate].
    intros [= <-]. eauto 7.
Qed.

Lemma mkdirAll_isDir (elems : list gostring) (d d' : OS.node) :
  OS.mkdirAll d elems = Some d' -> OS.isDir d' = true.
Proof.
  destruct d as [c|es]; [now destruct elems|]. destruct elems as [|e elems].
  - now intros [= <-].
  - intros H. now apply mkdirAll_inv in H as (c & c' & _ & -> & _).
Qed.

Lemma mkdirAll_allKept (elems : list gostring) :
  forall (path : gostring) (d d' : OS.node),
  OS.mkdirAll d elems = Some d' -> kept path d -> kept path d'.
Proof.
  induction elems as [|e elems IH]; intros path d d'; (destruct d as [c|es]; [discriminate|]).
  - now intros [= <-].
  - intros H Hk. apply mkdirAll_inv in H as (c & c' & Hc & -> & Hfrom).
    apply allKept_Dir, Forall_putEntry; [now apply allKept_Dir|].
    apply entryOK_dir; [now apply mkdirAll_isDir in Hc|].
    apply (IH _ _ _ Hc). destruct Hfrom as [E|[_ ->]].
    + now apply allKept_entry with (es := es).
    + now apply allKept_Dir.
Qed.

(** What holds of the node at [place] before [os.MkdirAll] holds after. *)
Lemma mkdirAll_lookup (path : gostring) (place : list gostring) :
  forall (elems : list gostring) (tree tree' : OS.node),
  OS.mkdirAll tree elems = Some tree' ->
  (forall d, OS.lookup tree place = OS.Found d -> kept path d) ->
  forall d', OS.lookup tree' place = OS.Found d' -> kept path d'.
Proof.
  induction place as [|e' place IH]; intros elems tree tree' Hm H d'.
  - intros [= <-]. apply (mkdirAll_allKept _ _ _ _ Hm). now apply H.
  - destruct tree as [c|es]; [now destruct elems|]. destruct elems as [|e elems].
    + injection Hm as <-. apply H.
    + apply mkdirAll_inv in Hm as (c & c' & Hc & -> & Hfrom).
      destruct (decide (e = e')) as [<-|Hne].
      * rewrite lookup_Dir_eq. apply (IH _ _ _ Hc). intros d Hd.
        destruct Hfrom as [E|[_ ->]].
        -- apply H. cbn [OS.lookup]. now rewrite E.
        -- destruct place; [injection Hd as <-; now apply allKept_Dir | discriminate].
      * rewrite lookup_Dir_ne by assumption. apply H.
Qed.

(** *** [os.Create] *)

Lemma writeFile_inv (d d' : OS.node) (elems : list gostring) (content : gostring) :
  OS.writeFile d elems content = Some d' ->
  exists es e rest, d = OS.Dir es /\ elems = e :: rest /\
    ((rest = [] /\ d' = OS.Dir (OS.putEntry e (OS.File content) es)) \/
     (rest <> [] /\ exists c c', OS.lookupEntry e es = Some c /\
                                 OS.writeFile c rest content = Some c' /\
                                 d' = OS.Dir (OS.putEntry e c' es))).
Proof.
  destruct d as [c|es]; [destruct elems; discriminate|].
  destruct elems as [|e rest]; [discriminate|]. intros H. exists es, e, rest.
  split; [reflexivity|]. split; [reflexivity|]. destruct rest as [|e' rest].
  - left. split; [reflexivity|]. cbn [OS.writeFile] in H.
    destruct (OS.lookupEntry e es) as [[?|?]|]; now inversion H.
  - right. split; [discriminate|].
    change (match OS.lookupEntry e es with
            | Some c =>
                match OS.writeFile c (e' :: rest) content with
                | Some c' => Some (OS.Dir (OS.putEntry e c' es))
                | None => None
                end
            | None => None
            end = Some d') in H.
    destruct (OS.lookupEntry e es) as [c|]; [|discriminate H].
    destruct (OS.writeFile c (e' :: rest) content) as [c'|] eqn:Ec; [|discriminate H].
    injection H as <-. eauto.
Qed.

Lemma writeFile_isDir (d d' : OS.node) (elems : list gostring) (content : gostring) :
  OS.writeFile d elems content = Some d' -> OS.isDir d' = true.
Proof.
  intros H. apply writeFile_inv in H as (es & e & rest & _ & _ & [[_ ->]|(_ & c & c' & _ & _ & ->)]);
    reflexivity.
Qed.

Lemma writeFile_allKept (content : gostring) (elems : list gostring) :
  forall (path : gostring) (d d' : OS.node),
  OS.writeFile d elems content = Some d' -> kept path d ->
  ToLower lower (walkPath path elems) ∈ ciKeepFiles ->
  kept path d'.
Proof.
  induction elems as [|e elems IH]; intros path d d' H Hk HK;
    apply writeFile_inv in H as (es & e0 & rest & -> & Heq & Hcase); [discriminate|].
  injection Heq as <- <-. destruct Hcase as [[-> ->]|(Hne & c & c' & E & Hc & ->)].
  - apply allKept_Dir, Forall_putEntry; [now apply allKept_Dir|].
    split; [|exact I]. intros _. exact HK.
  - apply allKept_Dir, Forall_putEntry; [now apply allKept_Dir|].
    apply entryOK_dir; [now apply writeFile_isDir in Hc|].
    apply (IH _ _ _ Hc); [now apply allKept_entry with (es := es) | exact HK].
Qed.

(** What holds of the node at [place] before a file is written holds after,
    when the path of the file as the walk from [place] computes it is in the
    set. *)
Lemma writeFile_lookup (content path : gostring) (place : list gostring) :
  forall (elems : list gostring) (tree tree' : OS.node),
  OS.writeFile tree elems content = Some tree' ->
  (forall d, OS.lookup tree place = OS.Found d -> kept path d) ->
  (forall names, elems = place ++ names -> names <> [] ->
                 ToLower lower (walkPath path names) ∈ ciKeepFiles) ->
  forall d', OS.lookup tree' place = OS.Found d' -> kept path d'.
Proof.
  induction place as [|e' place IH]; intros elems tree tree' Hw H HK d'.
  - intros [= <-]. apply (writeFile_allKept _ _ _ _ _ Hw); [now apply H|].
    apply HK; [reflexivity|]. intros ->. now apply writeFile_inv in Hw as (? & ? & ? & _ & ? & _).
  - apply writeFile_inv in Hw as (es & e & rest & -> & -> & Hcase).
    destruct (decide (e = e')) as [<-|Hne].
    + destruct Hcase as [[-> ->]|(Hne & c & c' & E & Hc & ->)]; rewrite lookup_Dir_eq.
      * destruct place; [now intros [= <-] | discriminate].
      * apply (IH _ _ _ Hc).
        -- intros d Hd. apply H. cbn [OS.lookup]. now rewrite E.
        -- intros names -> Hn. now apply HK.
    + destruct Hcase as [[-> ->]|(_ & c & c' & E & Hc & ->)];
        rewrite lookup_Dir_ne by assumption; apply H.
Qed.

(** *** Putting back the tree of a root after its walk *)

Lemma replaceAt_cons (e : gostring) (rest : list gostring) (es : list (gostring * OS.node))
    (c n' : OS.node) :
  OS.lookupEntry e es = Some c ->
  OS.replaceAt (OS.Dir es) (e :: rest) (Some n')
  = OS.Dir (OS.putEntry e (OS.replaceAt c rest (Some n')) es).
Proof. intros E. destruct rest; cbn [OS.replaceAt]; [reflexivity | now rewrite E]. Qed.

Lemma replaceAt_isDir (place : list gostring) :
  forall (tree d1 d1' : OS.node),
  OS.lookup tree place = OS.Found d1 -> OS.isDir d1' = OS.isDir d1 ->
  OS.isDir (OS.replaceAt tree place (Some d1')) = OS.isDir tree.
Proof.
  destruct place as [|e place]; intros tree d1 d1'.
  - now intros [= <-].
  - cbn [OS.lookup]. destruct tree as [c|es]; [discriminate|].
    destruct (OS.lookupEntry e es) as [c|] eqn:E; [|discriminate]. intros _ _.
    now rewrite (replaceAt_cons _ _ _ _ _ E).
Qed.

Lemma replaceAt_allKept (d1 d1' : OS.node) (place : list gostring) :
  OS.isDir d1' = OS.isDir d1 -> (forall p, kept p d1 -> kept p d1') ->
  forall (tree : OS.node) (path : gostring),
  OS.lookup tree place = OS.Found d1 -> kept path tree ->
  kept path (OS.replaceAt tree place (Some d1')).
Proof.
  intros Hdir Hsub. induction place as [|e place IH]; intros tree path.
  - intros [= <-]. apply Hsub.
  - cbn [OS.lookup]. destruct tree as [c|es]; [discriminate|].
    destruct (OS.lookupEntry e es) as [c|] eqn:E; [|discriminate]. intros Hl Hk.
    rewrite (replaceAt_cons _ _ _ _ _ E).
    apply allKept_Dir, Forall_putEntry; [now apply allKept_Dir|].
    pose proof (allKept_entry _ _ _ _ Hk E) as Hc. split; [|now apply IH].
    apply keptEntry_isDir with (d := c); [now apply replaceAt_isDir with (d1 := d1)|].
    apply allKept_Dir in Hk. rewrite Forall_forall in Hk.
    now destruct (Hk (e, c)) as [Hke _]; [apply list_elem_of_In, OSFacts.lookupEntry_In|].
Qed.

(** What holds of the node at [place2] before the tree at [place1] is
    replaced by its walked form [d1'] holds after. *)
Lemma replaceAt_lookup (path : gostring) (d1 d1' : OS.node) (place2 : list gostring) :
  OS.isDir d1' = OS.isDir d1 -> (forall p, kept p d1 -> kept p d1') ->
  forall (place1 : list gostring) (tree : OS.node),
  OS.lookup tree place1 = OS.Found d1 ->
  (forall d, OS.lookup tree place2 = OS.Found d -> kept path d) ->
  (forall names d', place2 = place1 ++ names -> names <> [] ->
                    OS.lookup d1' names = OS.Found d' -> kept path d') ->
  forall d', OS.lookup (OS.replaceAt tree place1 (Some d1')) place2 = OS.Found d' -> kept path d'.
Proof.
  intros Hdir Hsub. induction place2 as [|e2 place2 IH]; intros place1 tree Hl1 H Hdeep d'.
  - intros [= <-]. apply (replaceAt_allKept d1 d1'); try assumption. now apply H.
  - destruct place1 as [|e1 place1].
    + injection Hl1 as ->. cbn [OS.replaceAt]. intros Hl.
      now apply (Hdeep (e2 :: place2) d').
    + cbn [OS.lookup] in Hl1. destruct tree as [c|es]; [discriminate|].
      destruct (OS.lookupEntry e1 es) as [c|] eqn:E; [|discriminate].
      rewrite (replaceAt_cons _ _ _ _ _ E). destruct (decide (e1 = e2)) as [<-|Hne].
      * rewrite lookup_Dir_eq. apply (IH place1 c Hl1).
        -- intros d Hd. apply H. cbn [OS.lookup]. now rewrite E.
        -- intros names d'' -> Hn. now apply Hdeep.
      * rewrite lookup_Dir_ne by assumption. apply H.
Qed.

End TreeFacts.

(** ** Two runs in succession *)
Section RunFacts.

Variable lower : gostring -> gostring.
Variable fold : gostring -> gostring -> bool.
Variable cfg : Config.

Local Abbreviation NoStale' := (NoStale lower).
Local Abbreviation accepted' := (accepted lower fold cfg).
Local Abbreviation wantedFrom' := (wantedFrom lower fold cfg).

Hypothesis tvRooted : Filepath.isRooted (tvShowsDir cfg) = true.
Hypothesis moviesRooted : Filepath.isRooted (moviesDir cfg) = true.

Lemma rooted_nonempty (path : gostring) : Filepath.isRooted path = true -> path <> [].
Proof. now destruct path. Qed.

Lemma Stat_rooted (tree : OS.node) (path : gostring) :
  Filepath.isRooted path = true -> OS.Stat tree path = OS.lookup tree (OS.resolve path).
Proof.
  intros H. unfold OS.Stat. now rewrite (proj2 (OSFacts.eqs_false path []) (rooted_nonempty _ H)).
Qed.

Lemma Join_list_rooted (a : gostring) (rest : list gostring) :
  Filepath.isRooted a = true -> Filepath.isRooted (Filepath.Join (a :: rest)) = true.
Proof.
  intros H. cbn [Filepath.Join].
  rewrite (proj2 (OSFacts.eqs_false a []) (rooted_nonempty _ H)).
  rewrite FilepathFacts.Clean_rooted; [reflexivity|].
  now rewrite MaterializerFacts.isRooted_joinSlash by now apply rooted_nonempty.
Qed.

(** A path joined to a rooted directory is the canonical text of its own
    elements. *)
Lemma Join_canonical (dir name : gostring) :
  Filepath.isRooted dir = true ->
  Filepath.Join [dir; name] = Filepath.rootedPath (OS.resolve (Filepath.Join [dir; name])).
Proof.
  intros H. rewrite FilepathFacts.Join_rooted by assumption.
  now rewrite FilepathFacts.resolve_rootedPath by apply FilepathFacts.resolve_plain.
Qed.

Lemma targetDir_rooted (stream : Stream) :
  Filepath.isRooted (targetDir lower cfg stream) = true.
Proof.
  unfold targetDir, showDirOf, movieDirOf.
  destruct (MatchString (TvgName stream)), (useGroup cfg =? 1); now apply Join_list_rooted.
Qed.

(** The walk of a rooted root reaches a kept stream file under the path
    that [keepFiles] holds. *)
Lemma walkPath_key (rootDir key : gostring) (names : list gostring) :
  Filepath.isRooted rootDir = true ->
  key = Filepath.rootedPath (OS.resolve key) ->
  OS.resolve key = OS.resolve rootDir ++ names -> names <> [] ->
  walkPath rootDir names = key.
Proof.
  intros Hr Hk He Hn. rewrite Hk, He. apply FilepathFacts.walkPath_rooted; try assumption.
  pose proof (FilepathFacts.resolve_plain key) as Hp. rewrite He in Hp.
  now apply Forall_app in Hp as [_ Hp].
Qed.

Lemma NoStale_MkdirAll (keys : gset gostring) (rootDir path : gostring) (tree tree' : OS.node) :
  OS.MkdirAll tree path = Some tree' -> NoStale' keys rootDir tree -> NoStale' keys rootDir tree'.
Proof.
  unfold OS.MkdirAll. destruct (Strings.eqs path []); [discriminate|].
  intros Hm H d'. now apply (mkdirAll_lookup lower _ rootDir _ _ _ _ Hm).
Qed.

Lemma NoStale_Create (keys : gset gostring) (rootDir path content : gostring)
    (tree tree' : OS.node) :
  Filepath.isRooted rootDir = true ->
  path = Filepath.rootedPath (OS.resolve path) -> path ∈ keys ->
  OS.Create tree path content = Some tree' ->
  NoStale' keys rootDir tree -> NoStale' keys rootDir tree'.
Proof.
  intros Hr Hp Hk. unfold OS.Create. destruct (Strings.eqs path []); [discriminate|].
  intros Hw H d'. apply (writeFile_lookup lower _ content rootDir _ _ _ _ Hw H).
  intros names He Hn. rewrite (walkPath_key rootDir path names) by assumption.
  apply elem_of_map. eauto.
Qed.

(** The effect of [processTVShow] and [processMovie] on the tree. *)
Lemma materialize_NoStale (keys : gset gostring) (rootDir dir : gostring)
    (stream : Stream) (st st' : State) :
  Filepath.isRooted rootDir = true -> Filepath.isRooted dir = true ->
  strmFilePathOf dir stream ∈ keys ->
  st' = match (if OS.IsNotExist (OS.Stat (fs st) dir) then
                 match OS.MkdirAll (fs st) dir with
                 | Some fs' => Some (mkState fs' (keepFiles st) (incCreatedDirs (stats st)))
                 | None => None
                 end
               else Some st) with
        | None => st
        | Some st1 =>
            let strmFilePath := strmFilePathOf dir stream in
            let st2 := mkState (fs st1) ({[ strmFilePath ]} ∪ keepFiles st1) (stats st1) in
            let st3 := createOrUpdateStrmFile strmFilePath (URL stream) st2 in
            mkState (fs st3) (keepFiles st3) (incKeptStrmFiles (stats st3))
        end ->
  NoStale' keys rootDir (fs st) -> NoStale' keys rootDir (fs st').
Proof.
  intros Hr Hd Hk -> H.
  assert (Hfile : forall tree, NoStale' keys rootDir tree ->
            forall ks s, NoStale' keys rootDir
              (fs (createOrUpdateStrmFile (strmFilePathOf dir stream) (URL stream)
                     (mkState tree ks s)))).
  { intros tree Ht ks s. unfold createOrUpdateStrmFile. cbn [fs].
    destruct (OS.Create tree _ _) as [tree'|] eqn:E; [|exact Ht]. cbn [fs].
    apply (NoStale_Create keys rootDir _ _ _ _ Hr (Join_canonical _ _ Hd) Hk E Ht). }
  destruct (OS.IsNotExist (OS.Stat (fs st) dir)).
  - destruct (OS.MkdirAll (fs st) dir) as [tree'|] eqn:E; [|exact H].
    cbv zeta. cbn [fs]. apply Hfile. now apply (NoStale_MkdirAll keys rootDir dir (fs st)).
  - cbv zeta. cbn [fs]. now apply Hfile.
Qed.

(** What one record does to the keys, to the counters of removals and to a
    tree without stale stream files. *)
Lemma processStream_spec (keys : gset gostring) (rootDir : gostring) (st : State)
    (stream : Stream) :
  let st' := processStream lower fold cfg st stream in
  keepFiles st' = (if accepted' stream
                   then {[ targetFile lower cfg stream ]} ∪ keepFiles st else keepFiles st) /\
  removedStrmFiles (stats st') = removedStrmFiles (stats st) /\
  (Filepath.isRooted rootDir = true ->
   (accepted' stream = true -> targetFile lower cfg stream ∈ keys) ->
   NoStale' keys rootDir (fs st) -> NoStale' keys rootDir (fs st')).
Proof.
  cbv zeta. unfold processStream, accepted. cbv zeta.
  destruct (contains lower fold (excludeGroups cfg) (groupTitleOf lower cfg stream));
    [cbn; auto|].
  destruct (negb (Nat.eqb (length (includeGroups cfg)) 0)
            && negb (contains lower fold (includeGroups cfg) (groupTitleOf lower cfg stream)));
    [cbn; auto|].
  cbn [negb andb]. pose proof (targetDir_rooted stream) as Hd.
  unfold targetFile, targetDir in *.
  destruct (MatchString (TvgName stream)) eqn:Hm.
  - pose proof (RegexpFacts.FindString_nonempty _ Hm) as Hne.
    set (dir := showDirOf cfg stream (groupTitleOf lower cfg stream) (FindString (TvgName stream))) in *.
    assert (E : processTVShow cfg stream (groupTitleOf lower cfg stream) st
                = match (if OS.IsNotExist (OS.Stat (fs st) dir) then
                           match OS.MkdirAll (fs st) dir with
                           | Some fs' => Some (mkState fs' (keepFiles st) (incCreatedDirs (stats st)))
                           | None => None
                           end
                         else Some st) with
                  | None => st
                  | Some st1 =>
                      let strmFilePath := strmFilePathOf dir stream in
                      let st2 := mkState (fs st1) ({[ strmFilePath ]} ∪ keepFiles st1) (stats st1) in
                      let st3 := createOrUpdateStrmFile strmFilePath (URL stream) st2 in
                      mkState (fs st3) (keepFiles st3) (incKeptStrmFiles (stats st3))
                  end).
    { unfold processTVShow. now rewrite (proj2 (OSFacts.eqs_false _ []) Hne). }
    destruct (materialize_effect dir stream st _ (rooted_nonempty _ Hd) E) as (H1 & _ & _ & H4 & _).
    split; [exact H1|]. split; [exact H4|]. intros Hr Hk.
    now apply (materialize_NoStale keys rootDir dir stream st _ Hr Hd (Hk eq_refl) E).
  - set (dir := movieDirOf cfg stream (groupTitleOf lower cfg stream)) in *.
    destruct (materialize_effect dir stream st (processMovie cfg stream (groupTitleOf lower cfg stream) st)
                (rooted_nonempty _ Hd) eq_refl) as (H1 & _ & _ & H4 & _).
    split; [exact H1|]. split; [exact H4|]. intros Hr Hk.
    now apply (materialize_NoStale keys rootDir dir stream st _ Hr Hd (Hk eq_refl) eq_refl).
Qed.

Lemma wantedFrom_mono (streams : list Stream) (keys : gset gostring) (key : gostring) :
  key ∈ keys -> key ∈ wantedFrom' keys streams.
Proof.
  revert keys. induction streams as [|s streams IH]; intros keys Hk; [exact Hk|].
  cbn [wantedFrom fold_left]. apply IH. destruct (accepted' s); [|exact Hk].
  apply elem_of_union. now right.
Qed.

Lemma wantedFrom_In (streams : list Stream) (keys : gset gostring) (stream : Stream) :
  In stream streams -> accepted' stream = true ->
  targetFile lower cfg stream ∈ wantedFrom' keys streams.
Proof.
  revert keys. induction streams as [|s streams IH]; intros keys; [contradiction|].
  intros [->|Hin] Ha; cbn [wantedFrom fold_left].
  - apply wantedFrom_mono. rewrite Ha. apply elem_of_union. left. now apply elem_of_singleton.
  - now apply IH.
Qed.

Lemma fold_processStream_spec (keys : gset gostring) (rootDir : gostring)
    (streams : list Stream) (st : State) :
  let st' := fold_left (processStream lower fold cfg) streams st in
  keepFiles st' = wantedFrom' (keepFiles st) streams /\
  removedStrmFiles (stats st') = removedStrmFiles (stats st) /\
  (Filepath.isRooted rootDir = true ->
   (forall s, In s streams -> accepted' s = true -> targetFile lower cfg s ∈ keys) ->
   NoStale' keys rootDir (fs st) -> NoStale' keys rootDir (fs st')).
Proof.
  cbv zeta. revert st. induction streams as [|s streams IH]; intros st; [cbn; auto|].
  cbn [fold_left wantedFrom].
  destruct (processStream_spec keys rootDir st s) as (H1 & H2 & H3).
  destruct (IH (processStream lower fold cfg st s)) as (I1 & I2 & I3).
  rewrite I1, I2, H1, H2. split; [reflexivity|]. split; [reflexivity|].
  intros Hr Hk Hn. apply I3; [assumption | intros s' Hs'; apply Hk; now right |].
  apply H3; [assumption | apply Hk; now left | assumption].
Qed.

Lemma mkdirRoot_spec (keys : gset gostring) (rootDir path : gostring) (st : State) :
  keepFiles (mkdirRoot path st) = keepFiles st /\
  stats (mkdirRoot path st) = stats st /\
  (NoStale' keys rootDir (fs st) -> NoStale' keys rootDir (fs (mkdirRoot path st))).
Proof.
  unfold mkdirRoot. destruct (OS.MkdirAll (fs st) path) as [tree'|] eqn:E; [|auto].
  cbn [keepFiles stats fs]. repeat split. now apply (NoStale_MkdirAll keys rootDir path (fs st)).
Qed.

(** [processStreams]: the keys it leaves depend on the catalog only, it
    removes nothing, and it leaves no stale stream file where there was
    none. *)
Lemma processStreams_spec (rootDir : gostring) (streams : list Stream) (st : State) :
  let st' := processStreams lower fold cfg streams st in
  keepFiles st' = wantedFrom' (keepFiles st) streams /\
  removedStrmFiles (stats st') = removedStrmFiles (stats st) /\
  (Filepath.isRooted rootDir = true ->
   NoStale' (wantedFrom' (keepFiles st) streams) rootDir (fs st) ->
   NoStale' (wantedFrom' (keepFiles st) streams) rootDir (fs st')).
Proof.
  cbv zeta. unfold processStreams. cbv zeta.
  set (keys := wantedFrom' (keepFiles st) streams).
  destruct (mkdirRoot_spec keys rootDir (tvShowsDir cfg) st) as (A1 & A2 & A3).
  destruct (mkdirRoot_spec keys rootDir (moviesDir cfg) (mkdirRoot (tvShowsDir cfg) st))
    as (B1 & B2 & B3).
  destruct (fold_processStream_spec keys rootDir streams
              (mkdirRoot (moviesDir cfg) (mkdirRoot (tvShowsDir cfg) st))) as (C1 & C2 & C3).
  rewrite C1, C2, B1, B2, A1, A2. split; [reflexivity|]. split; [reflexivity|].
  intros Hr Hn. apply C3; [assumption | | now apply B3, A3].
  intros s Hs Ha. unfold keys. now apply wantedFrom_In.
Qed.

End RunFacts.

Section PruneRun.

Variable lower : gostring -> gostring.

(** [removeEmptyDirs] on a rooted root: it keeps [keepFiles]; when it
    removes fewer stream files than the limit, it leaves none that is stale;
    where none is stale, it removes none; and it leaves the tree of another
    root without stale stream files if it found it so. *)
Lemma removeEmptyDirs_spec (rootDir : gostring) (limit : Z) (st : State) :
  Filepath.isRooted rootDir = true ->
  let st' := removeEmptyDirs lower rootDir limit st in
  keepFiles st' = keepFiles st /\
  removedStrmFiles (stats st) <= removedStrmFiles (stats st') /\
  (removedStrmFiles (stats st') - removedStrmFiles (stats st) < limit ->
   NoStale lower (keepFiles st) rootDir (fs st')) /\
  (NoStale lower (keepFiles st) rootDir (fs st) ->
   removedStrmFiles (stats st') = removedStrmFiles (stats st) /\
   NoStale lower (keepFiles st) rootDir (fs st')) /\
  (forall other, Filepath.isRooted other = true ->
   NoStale lower (keepFiles st) other (fs st) ->
   NoStale lower (keepFiles st) rootDir (fs st') ->
   NoStale lower (keepFiles st) other (fs st')).
Proof.
  intros Hr. cbv zeta. unfold removeEmptyDirs. rewrite Stat_rooted by assumption.
  set (K := set_map (ToLower lower) (keepFiles st) : gset gostring).
  destruct (OS.lookup (fs st) (OS.resolve rootDir)) as [d| |] eqn:E.
  2,3: (repeat split; [lia | | auto | auto]; intros _ d' Hd'; congruence).
  pose proof (walkDir_root lower K rootDir limit d (mkWalk 0 (stats st))) as [d' Hd'].
  pose proof (walkDir_counts lower K rootDir limit d rootDir (mkWalk 0 (stats st))) as Hc.
  pose proof (walkDir_complete lower K rootDir limit d rootDir (mkWalk 0 (stats st)) d') as Hcomp.
  pose proof (walkDir_noop lower K rootDir limit d rootDir (mkWalk 0 (stats st))) as Hnoop.
  pose proof (fun p => walkDir_monotone lower K rootDir limit d rootDir p
                        (mkWalk 0 (stats st)) d') as Hmono.
  pose proof (walkDir_isDir lower K rootDir limit rootDir d d' (mkWalk 0 (stats st))) as Hdir.
  destruct (walkDir lower K rootDir limit rootDir d (mkWalk 0 (stats st))) as [r w].
  cbn [fst snd] in *. subst r. cbn [fs keepFiles stats].
  destruct Hc as (Hc1 & Hc2 & _). cbn [deletions wstats] in Hc1, Hc2.
  pose proof (OSFacts.lookup_replaceAt (fs st) (OS.resolve rootDir) d d' E) as Hl.
  split; [reflexivity|]. split; [lia|]. split; [|split].
  - intros Hlt d'' Hd''. rewrite Hl in Hd''. injection Hd'' as <-.
    apply Hcomp; [reflexivity | lia].
  - intros Hn. specialize (Hn d E). split; [specialize (Hnoop Hn); cbn [deletions] in Hnoop; lia|].
    intros d'' Hd''. rewrite Hl in Hd''. injection Hd'' as <-.
    now apply (Hmono rootDir eq_refl).
  - intros other Ho Hn Hroot d''.
    apply (replaceAt_lookup lower K other d d' (OS.resolve other) (Hdir eq_refl)); try assumption.
    + intros p. now apply (Hmono p eq_refl).
    + intros names d2 He Hne Hd2. specialize (Hroot d' Hl).
      pose proof (allKept_lookup lower K names rootDir d' d2 Hroot Hd2) as Hk.
      assert (Hplain : Forall Filepath.plain names).
      { pose proof (FilepathFacts.resolve_plain other) as Hp. rewrite He in Hp.
        now apply Forall_app in Hp as [_ Hp]. }
      rewrite (FilepathFacts.walkPath_rooted rootDir names Hr Hplain Hne) in Hk.
      apply (allKept_same_elems lower K (Filepath.rootedPath (OS.resolve rootDir ++ names)));
        [reflexivity | assumption | | assumption].
      rewrite FilepathFacts.resolve_rootedPath; [now symmetry|].
      rewrite <- He. apply FilepathFacts.resolve_plain.
Qed.

(** One call of [removeEmptyDirs] removes at most [limit] stream files. *)
Lemma removeEmptyDirs_bound (rootDir : gostring) (limit : Z) (st : State) :
  0 <= limit ->
  removedStrmFiles (stats (removeEmptyDirs lower rootDir limit st))
  <= removedStrmFiles (stats st) + limit.
Proof.
  intros Hl. unfold removeEmptyDirs.
  destruct (OS.Stat (fs st) rootDir) as [d| |]; [|lia..].
  set (K := set_map (ToLower lower) (keepFiles st) : gset gostring).
  pose proof (walkDir_counts lower K rootDir limit d rootDir (mkWalk 0 (stats st))) as Hc.
  pose proof (walkDir_bound lower K rootDir limit d rootDir (mkWalk 0 (stats st)) Hl) as Hb.
  destruct (walkDir lower K rootDir limit rootDir d (mkWalk 0 (stats st))) as [r w].
  cbn [fst snd stats] in *. destruct Hc as (Hc & _). cbn [deletions wstats] in Hc. lia.
Qed.

End PruneRun.



(** ** The pruning walk: what it leaves alone *)

Section PruneFacts.

Variable lower : gostring -> gostring.

(** Once the counter has reached the limit, the walk of the root changes
    nothing. *)
Lemma walkDir_limit_reached (ciKeepFiles : gset gostring) (rootDir : gostring) (limit : Z)
    (d : OS.node) (w : Walk) :
  limit <= deletions w ->
  walkDir lower ciKeepFiles rootDir limit rootDir d w = (Some d, w).
Proof.
  intros Hl. destruct d as [c|files]; [reflexivity|]. rewrite walkDir_Dir.
  destruct files as [|[name file] files].
  - cbn [pruneFiles remaining length Nat.eqb andb]. rewrite OSFacts.eqs_refl. reflexivity.
  - cbn [pruneFiles]. rewrite (proj2 (Z.leb_le _ _) Hl).
    now rewrite (remaining_all ((name, file) :: files)).
Qed.

(** A file that the callback does not take for a stale stream file is left
    in place by the walk, under its name and with its content. *)
Lemma walkDir_keeps_file (ciKeepFiles : gset gostring) (rootDir : gostring) (limit : Z)
    (d : OS.node) :
  forall (path : gostring) (w : Walk) (init : list gostring) (name content : gostring),
  OS.lookup d (init ++ [name]) = OS.Found (OS.File content) ->
  (Strings.eqs (Filepath.Ext name) (str ".strm") = true ->
   ToLower lower (walkPath path (init ++ [name])) ∈ ciKeepFiles) ->
  exists d', (walkDir lower ciKeepFiles rootDir limit path d w).1 = Some d' /\
             OS.lookup d' (init ++ [name]) = OS.Found (OS.File content).
Proof.
  induction d as [c|files IH] using OSFacts.node_ind; intros path w init name content Hl Hk.
  - destruct init; discriminate.
  - assert (exists e names, init ++ [name] = e :: names /\
              (names = [] -> e = name /\ init = []) /\
              (names <> [] -> exists init', init = e :: init' /\ names = init' ++ [name]))
      as (e & names & Heq & Hlast & Hmore).
    { destruct init as [|e init'].
      - exists name, []. split; [reflexivity|]. split; [auto | congruence].
      - exists e, (init' ++ [name]). split; [reflexivity|]. split.
        + intros Hx. now destruct init'.
        + intros _. now exists init'. }
    rewrite Heq in Hl |- *. rewrite Heq in Hk.
    cbn [OS.lookup] in Hl. destruct (OS.lookupEntry e files) as [c|] eqn:He; [|discriminate].
    assert (Hns : ~ stale lower ciKeepFiles path (e, c)).
    { intros [Hs Hnk]. cbn [fst snd] in *. destruct names as [|e' names].
      - destruct (Hlast eq_refl) as [-> _]. apply Hnk, Hk.
        unfold isStrmFile in Hs. now apply andb_true_iff in Hs as [_ Hs].
      - destruct c; [discriminate Hl | discriminate Hs]. }
    pose proof (pruneFiles_removes_stale lower ciKeepFiles limit path files w) as HF.
    rewrite walkDir_Dir. destruct (pruneFiles lower ciKeepFiles limit path files w) as [[kept w1] skip].
    cbn [fst] in HF.
    pose proof (lookupEntry_remaining lower ciKeepFiles _ _ _ _ _ HF He Hns) as Hrem.
    destruct skip.
    { eexists. split; [reflexivity|]. cbn [OS.lookup]. now rewrite Hrem. }
    destruct (remaining files kept) as [|f fs'] eqn:Er; [discriminate Hrem|].
    cbn [length Nat.eqb andb]. rewrite <- Er in *. clear Er f fs'.
    assert (Hw : forall w, exists c',
               (walkDir lower ciKeepFiles rootDir limit (Filepath.Join [path; e]) c w).1 = Some c' /\
               OS.lookup c' names = OS.Found (OS.File content)).
    { intros w'. destruct names as [|e' names].
      - cbn [OS.lookup] in Hl. injection Hl as ->. eexists. split; reflexivity.
      - destruct Hmore as (init' & -> & Hn); [discriminate|]. rewrite Hn in *.
        rewrite Forall_forall in IH.
        apply (IH (e, c)); [now apply list_elem_of_In, OSFacts.lookupEntry_In | exact Hl | exact Hk]. }
    destruct (walkEntries_lookup lower ciKeepFiles
                (walkDir lower ciKeepFiles rootDir limit) _ path e c files kept w1 HF He Hns Hw)
      as (c' & Hc' & Hl').
    destruct (walkEntries (walkDir lower ciKeepFiles rootDir limit) path files kept w1)
      as [entries w2].
    eexists. split; [reflexivity|]. cbn [OS.lookup]. cbn [fst] in Hc'. now rewrite Hc'.
Qed.

(** A place that leaves the way to [place1] at some element is not touched
    when the node at [place1] is replaced. *)
Lemma lookup_replaceAt_apart (common : list gostring) :
  forall (tree : OS.node) (a b : gostring) (rest1 rest2 : list gostring) (new : OS.node),
  a <> b ->
  OS.lookup (OS.replaceAt tree (common ++ a :: rest1) (Some new)) (common ++ b :: rest2)
  = OS.lookup tree (common ++ b :: rest2).
Proof.
  induction common as [|e common IH]; intros tree a b rest1 rest2 new Hab.
  - cbn [app]. destruct tree as [c|es]; [now destruct rest1|].
    destruct rest1 as [|e1 rest1].
    + cbn [OS.replaceAt]. now apply lookup_Dir_ne.
    + cbn [OS.replaceAt]. destruct (OS.lookupEntry a es); [|reflexivity].
      now apply lookup_Dir_ne.
  - cbn [app]. destruct tree as [c|es].
    { now destruct (common ++ a :: rest1). }
    destruct (OS.lookupEntry e es) as [c|] eqn:He.
    + rewrite replaceAt_cons with (c := c) by assumption.
      rewrite lookup_Dir_eq. cbn [OS.lookup]. rewrite He. now apply IH.
    + assert (OS.replaceAt (OS.Dir es) (e :: common ++ a :: rest1) (Some new) = OS.Dir es) as ->;
        [|reflexivity].
      assert (exists x l, common ++ a :: rest1 = x :: l) as (x & l & ->)
        by (destruct common; cbn; eauto).
      cbn [OS.replaceAt]. now rewrite He.
Qed.

(** The removed-file and removed-directory counters are not touched by
    [processStreams]. *)
Lemma processStream_removed (fold : gostring -> gostring -> bool) (cfg : Config)
    (st : State) (stream : Stream) :
  removedStrmFiles (stats (processStream lower fold cfg st stream)) = removedStrmFiles (stats st) /\
  removedEmptyDirs (stats (processStream lower fold cfg st stream)) = removedEmptyDirs (stats st).
Proof.
  unfold processStream, processTVShow, processMovie, createOrUpdateStrmFile.
  repeat match goal with
         | |- context [if ?b then _ else _] => destruct b
         | |- context [OS.MkdirAll ?t ?p] => destruct (OS.MkdirAll t p)
         | |- context [OS.Create ?t ?p ?c] => destruct (OS.Create t p c)
         end; cbn; auto.
Qed.

Lemma processStreams_removed (fold : gostring -> gostring -> bool) (cfg : Config)
    (streams : list Stream) (st : State) :
  removedStrmFiles (stats (processStreams lower fold cfg streams st)) = removedStrmFiles (stats st) /\
  removedEmptyDirs (stats (processStreams lower fold cfg streams st)) = removedEmptyDirs (stats st).
Proof.
  unfold processStreams, mkdirRoot.
  set (st1 := match OS.MkdirAll (fs st) (tvShowsDir cfg) with
              | Some fs' => _ | None => st end).
  set (st2 := match OS.MkdirAll (fs st1) (moviesDir cfg) with
              | Some fs' => _ | None => st1 end).
  assert (H : removedStrmFiles (stats st2) = removedStrmFiles (stats st) /\
              removedEmptyDirs (stats st2) = removedEmptyDirs (stats st)).
  { subst st2 st1. destruct (OS.MkdirAll (fs st) (tvShowsDir cfg));
      cbn [fs]; destruct (OS.MkdirAll _ (moviesDir cfg)); cbn; auto. }
  clearbody st2. clear st1. revert st2 H.
  induction streams as [|s streams IH]; intros st2 H; [exact H|].
  cbn [fold_left]. apply IH. destruct (processStream_removed fold cfg st2 s). lia.
Qed.

(** With a limit that is not positive, a call of [removeEmptyDirs] changes
    no counter, and the root directory is the node it was. *)
Lemma removeEmptyDirs_idle (rootDir : gostring) (limit : Z) (st : State) :
  limit <= 0 ->
  stats (removeEmptyDirs lower rootDir limit st) = stats st /\
  keepFiles (removeEmptyDirs lower rootDir limit st) = keepFiles st /\
  OS.Stat (fs (removeEmptyDirs lower rootDir limit st)) rootDir = OS.Stat (fs st) rootDir.
Proof.
  intros Hl. unfold removeEmptyDirs.
  destruct (OS.Stat (fs st) rootDir) as [d| |] eqn:E; [|now rewrite E..].
  rewrite walkDir_limit_reached by (cbn; lia). cbn [fs stats keepFiles wstats].
  repeat split. unfold OS.Stat in *. destruct (Strings.eqs rootDir []); [discriminate|].
  now apply OSFacts.lookup_replaceAt with (d := d).
Qed.

End PruneFacts.

(** X1.  When the deletion limit is zero or negative, a call of
    [removeEmptyDirs] removes nothing at all, neither a stream file nor an
    empty directory: the counters, [keepFiles] and the tree of the root
    directory are what they were. *)
Theorem nonpositive_limit_removes_nothing
    (lower : gostring -> gostring) (rootDir : gostring) (limit : Z) (st : State) :
  limit <= 0 ->
  stats (removeEmptyDirs lower rootDir limit st) = stats st /\
  keepFiles (removeEmptyDirs lower rootDir limit st) = keepFiles st /\
  OS.Stat (fs (removeEmptyDirs lower rootDir limit st)) rootDir = OS.Stat (fs st) rootDir.
Proof. apply removeEmptyDirs_idle. Qed.

(** X1, witness: limit 0 on the tree of the scenario, whose stale file and
    its directory stay. *)
Lemma nonpositive_limit_removes_nothing_witness :
  let st := mkState scenarioTree ∅ (mkStats 0 0 0 0) in
  stats (removeEmptyDirs noUnicodeToLower (str "movies") 0 st) = stats st /\
  keepFiles (removeEmptyDirs noUnicodeToLower (str "movies") 0 st) = keepFiles st /\
  OS.Stat (fs (removeEmptyDirs noUnicodeToLower (str "movies") 0 st)) (str "movies")
  = OS.Stat (fs st) (str "movies").
Proof.
  intros st. apply (nonpositive_limit_removes_nothing noUnicodeToLower (str "movies") 0 st). lia.
Defined.

(** X2.  A whole run removes at most twice the deletion limit of stream
    files: each of the two calls of [removeEmptyDirs] counts from zero, and
    [processStreams] removes none. *)
Theorem run_removes_at_most_twice_the_limit
    (lower : gostring -> gostring) (fold : gostring -> gostring -> bool)
    (cfg : Config) (streams : list Stream) (fs0 : OS.node) :
  0 <= removedStrmFiles (stats (run lower fold cfg streams fs0))
  <= 2 * Z.max 0 (LimitDelete cfg).
Proof.
  unfold run. cbv zeta.
  destruct (processStreams_removed lower fold cfg streams (mkState fs0 ∅ (mkStats 0 0 0 0)))
    as [H0 _].
  set (st1 := processStreams lower fold cfg streams _) in *. cbn in H0.
  destruct (Z.le_gt_cases (LimitDelete cfg) 0) as [Hle|Hgt].
  - destruct (removeEmptyDirs_idle lower (tvShowsDir cfg) (LimitDelete cfg) st1 Hle) as (H1 & _).
    set (st2 := removeEmptyDirs lower (tvShowsDir cfg) (LimitDelete cfg) st1) in *.
    destruct (removeEmptyDirs_idle lower (moviesDir cfg) (LimitDelete cfg) st2 Hle) as (H2 & _).
    rewrite H2, H1, H0. lia.
  - assert (Hl : 0 <= LimitDelete cfg) by lia.
    pose proof (removeEmptyDirs_bound lower (tvShowsDir cfg) (LimitDelete cfg) st1 Hl) as H1.
    set (st2 := removeEmptyDirs lower (tvShowsDir cfg) (LimitDelete cfg) st1) in *.
    pose proof (removeEmptyDirs_bound lower (moviesDir cfg) (LimitDelete cfg) st2 Hl) as H2.
    assert (Hmono : forall root st, removedStrmFiles (stats st)
                      <= removedStrmFiles (stats (removeEmptyDirs lower root (LimitDelete cfg) st))).
    { intros root st. unfold removeEmptyDirs.
      destruct (OS.Stat (fs st) root) as [d| |]; [|lia..].
      pose proof (walkDir_counts lower (set_map (ToLower lower) (keepFiles st)) root
                    (LimitDelete cfg) d root (mkWalk 0 (stats st))) as (Hc & Hd & _).
      destruct (walkDir _ _ _ _ _ _ _) as [r w]. cbn in *. lia. }
    pose proof (Hmono (tvShowsDir cfg) st1). pose proof (Hmono (moviesDir cfg) st2).
    fold st2 in H. lia.
Qed.

(** X3.  The walk deletes stream files only: a regular file under the root
    whose name does not end in the extension [.strm] is still there after
    [removeEmptyDirs], under its name and with its content, whatever
    [keepFiles] and the limit are. *)
Theorem other_files_are_never_deleted
    (lower : gostring -> gostring) (rootDir : gostring) (limit : Z) (st : State)
    (d : OS.node) (init : list gostring) (name content : gostring) :
  OS.Stat (fs st) rootDir = OS.Found d ->
  OS.lookup d (init ++ [name]) = OS.Found (OS.File content) ->
  Strings.eqs (Filepath.Ext name) (str ".strm") = false ->
  exists d', OS.Stat (fs (removeEmptyDirs lower rootDir limit st)) rootDir = OS.Found d' /\
             OS.lookup d' (init ++ [name]) = OS.Found (OS.File content).
Proof.
  intros HS Hl Hext. unfold removeEmptyDirs. rewrite HS.
  set (K := set_map (ToLower lower) (keepFiles st) : gset gostring).
  destruct (walkDir_keeps_file lower K rootDir limit d rootDir (mkWalk 0 (stats st))
              init name content Hl) as (d' & Hd' & Hl'); [congruence|].
  destruct (walkDir lower K rootDir limit rootDir d (mkWalk 0 (stats st))) as [r w].
  cbn [fst] in Hd'. subst r. exists d'. split; [|exact Hl']. cbn [fs].
  unfold OS.Stat in *. destruct (Strings.eqs rootDir []); [discriminate|].
  now apply OSFacts.lookup_replaceAt with (d := d).
Qed.

(** X3, witness: a video file beside a stale stream file, with an empty
    [keepFiles]. *)
Lemma other_files_are_never_deleted_witness :
  let tree := OS.Dir [(str "movies",
                OS.Dir [(str "Gone", OS.Dir [(str "Gone.mkv", OS.File (str "video"));
                                             staleFile "Gone.strm"])])] in
  let st := mkState tree ∅ (mkStats 0 0 0 0) in
  exists d', OS.Stat (fs (removeEmptyDirs noUnicodeToLower (str "movies") 25 st)) (str "movies")
             = OS.Found d' /\
             OS.lookup d' ([str "Gone"] ++ [str "Gone.mkv"]) = OS.Found (OS.File (str "video")).
Proof.
  intros tree st.
  apply (other_files_are_never_deleted noUnicodeToLower (str "movies") 25 st
           (OS.Dir [(str "Gone", OS.Dir [(str "Gone.mkv", OS.File (str "video"));
                                         staleFile "Gone.strm"])])
           [str "Gone"] (str "Gone.mkv") (str "video")); vm_compute; reflexivity.
Defined.

(** X4.  The root directory itself is never removed, not even when the walk
    leaves it empty: what is at the root before [removeEmptyDirs] is there
    afterwards, a directory if it was one. *)
Theorem root_directory_is_never_removed
    (lower : gostring -> gostring) (rootDir : gostring) (limit : Z) (st : State) (d : OS.node) :
  OS.Stat (fs st) rootDir = OS.Found d ->
  exists d', OS.Stat (fs (removeEmptyDirs lower rootDir limit st)) rootDir = OS.Found d' /\
             OS.isDir d' = OS.isDir d.
Proof.
  intros HS. unfold removeEmptyDirs. rewrite HS.
  set (K := set_map (ToLower lower) (keepFiles st) : gset gostring).
  destruct (walkDir_root lower K rootDir limit d (mkWalk 0 (stats st))) as [d' Hd'].
  pose proof (walkDir_isDir lower K rootDir limit rootDir d d' (mkWalk 0 (stats st)) Hd') as Hdir.
  destruct (walkDir lower K rootDir limit rootDir d (mkWalk 0 (stats st))) as [r w].
  cbn [fst] in Hd'. subst r. exists d'. split; [|exact Hdir]. cbn [fs].
  unfold OS.Stat in *. destruct (Strings.eqs rootDir []); [discriminate|].
  now apply OSFacts.lookup_replaceAt with (d := d).
Qed.

(** X4, witness: the only content of [movies] is a stale stream file in a
    directory; both go, [movies] stays, empty. *)
Lemma root_directory_is_never_removed_witness :
  let st := mkState scenarioTree ∅ (mkStats 0 0 0 0) in
  exists d', OS.Stat (fs (removeEmptyDirs noUnicodeToLower (str "movies") 25 st)) (str "movies")
             = OS.Found d' /\
             OS.isDir d' = OS.isDir (OS.Dir [(str "Stale_Movie", OS.Dir [staleFile "Stale_Movie.strm"])]).
Proof.
  intros st.
  apply (root_directory_is_never_removed noUnicodeToLower (str "movies") 25 st
           (OS.Dir [(str "Stale_Movie", OS.Dir [staleFile "Stale_Movie.strm"])])).
  vm_compute. reflexivity.
Defined.



(** X6.  When a call of [removeEmptyDirs] has removed fewer stream files
    than the limit, the walk was complete: every stream file that is left
    under the root has its path, lower-cased, among the lower-cased keys of
    [keepFiles]. *)
Theorem below_the_limit_no_stale_file_is_left
    (lower : gostring -> gostring) (rootDir : gostring) (limit : Z) (st : State)
    (d' : OS.node) (init : list gostring) (name content : gostring) :
  removedStrmFiles (stats (removeEmptyDirs lower rootDir limit st))
  - removedStrmFiles (stats st) < limit ->
  OS.Stat (fs (removeEmptyDirs lower rootDir limit st)) rootDir = OS.Found d' ->
  OS.lookup d' (init ++ [name]) = OS.Found (OS.File content) ->
  Strings.eqs (Filepath.Ext name) (str ".strm") = true ->
  exists k, k ∈ keepFiles st /\
            ToLower lower k = ToLower lower (walkPath rootDir (init ++ [name])).
Proof.
  unfold removeEmptyDirs.
  set (K := set_map (ToLower lower) (keepFiles st) : gset gostring).
  destruct (OS.Stat (fs st) rootDir) as [d| |] eqn:HS.
  2,3: (intros _ HS'; rewrite HS in HS'; discriminate HS').
  pose proof (walkDir_root lower K rootDir limit d (mkWalk 0 (stats st))) as [d1 Hd1].
  pose proof (walkDir_counts lower K rootDir limit d rootDir (mkWalk 0 (stats st))) as (Hc & _).
  pose proof (walkDir_complete lower K rootDir limit d rootDir (mkWalk 0 (stats st)) d1 Hd1) as Hcomp.
  destruct (walkDir lower K rootDir limit rootDir d (mkWalk 0 (stats st))) as [r w].
  cbn [fst snd fs stats deletions wstats] in *. subst r.
  intros Hlt HS' Hl Hext.
  assert (d' = d1) as ->.
  { unfold OS.Stat in *. destruct (Strings.eqs rootDir []); [discriminate|].
    rewrite (OSFacts.lookup_replaceAt _ _ d d1 HS) in HS'. congruence. }
  assert (Hk : allKept lower K rootDir d1) by (apply Hcomp; lia).
  assert (exists es, OS.lookup d1 init = OS.Found (OS.Dir es) /\
                     OS.lookupEntry name es = Some (OS.File content)) as (es & Hinit & Hname).
  { clear -Hl. revert d1 Hl. induction init as [|e init IH]; intros d1 Hl.
    - cbn [app OS.lookup] in Hl. destruct d1 as [c|es]; [discriminate|].
      exists es. split; [reflexivity|].
      destruct (OS.lookupEntry name es) as [n|]; [|discriminate]. now injection Hl as ->.
    - cbn [app OS.lookup] in Hl |- *. destruct d1 as [c|es]; [discriminate|].
      destruct (OS.lookupEntry e es); [|discriminate]. now apply IH. }
  pose proof (allKept_lookup lower K init rootDir d1 _ Hk Hinit) as Hdir.
  apply allKept_Dir in Hdir. rewrite Forall_forall in Hdir.
  destruct (Hdir (name, OS.File content)) as [Hkept _].
  { now apply list_elem_of_In, OSFacts.lookupEntry_In. }
  assert (Hin : ToLower lower (walkPath rootDir (init ++ [name])) ∈ K).
  { unfold walkPath. rewrite fold_left_app. apply Hkept.
    unfold isStrmFile. cbn [fst snd OS.isDir negb andb]. exact Hext. }
  apply elem_of_map in Hin as (k & Hk1 & Hk2). exists k. now split.
Qed.

(** X6, witness: the scenario after [processStreams]; the walk of [movies]
    removes one file, below the limit of 25, and [Old Movie.strm] is left. *)
Lemma below_the_limit_no_stale_file_is_left_witness :
  let st := processStreams noUnicodeToLower noUnicodeEqualFold (scenarioConfig 25)
              scenarioCatalog (mkState scenarioTree ∅ (mkStats 0 0 0 0)) in
  exists k, k ∈ keepFiles st /\
            ToLower noUnicodeToLower k
            = ToLower noUnicodeToLower
                (walkPath (str "movies") ([str "Old Movie"] ++ [str "Old Movie.strm"])).
Proof.
  intros st.
  apply (below_the_limit_no_stale_file_is_left noUnicodeToLower (str "movies") 25 st
           (OS.Dir [(str "Old Movie", OS.Dir [(str "Old Movie.strm", OS.File (str "http://x/b.avi"))])])
           [str "Old Movie"] (str "Old Movie.strm") (str "http://x/b.avi"));
    vm_compute; reflexivity.
Defined.

(** ** The tree after [os.MkdirAll] and [os.Create] *)

Module TreeUpdates.
Import OS.

Lemma putEntry_idem (e : gostring) (n : node) (es : list (gostring * node)) :
  putEntry e n (putEntry e n es) = putEntry e n es.
Proof.
  induction es as [|[k m] es IH]; cbn [putEntry].
  - now rewrite OSFacts.eqs_refl.
  - destruct (Strings.eqs k e) eqn:E.
    + cbn [putEntry]. now rewrite OSFacts.eqs_refl.
    + destruct (lessString e k) eqn:L; cbn [putEntry].
      * now rewrite OSFacts.eqs_refl.
      * now rewrite E, L, IH.
Qed.

(** Looking up a place below another one. *)
Lemma lookup_app (d : list gostring) :
  forall (t : node) (q : list gostring),
  lookup t (d ++ q) = match lookup t d with
                      | Found n => lookup n q
                      | r => r
                      end.
Proof.
  induction d as [|e d IH]; intros t q; [reflexivity|]. cbn [app lookup].
  destruct t as [c|es]; [reflexivity|]. destruct (lookupEntry e es); [apply IH | reflexivity].
Qed.

(** After [MkdirAll] the path is a directory. *)
Lemma mkdirAll_found (elems : list gostring) :
  forall t t' : node, mkdirAll t elems = Some t' -> exists es, lookup t' elems = Found (Dir es).
Proof.
  induction elems as [|e elems IH]; intros t t' H; destruct t as [c|es]; try discriminate.
  - injection H as <-. now exists es.
  - apply mkdirAll_inv in H as (c & c' & Hc & -> & _). rewrite lookup_Dir_eq. now apply IH with c.
Qed.

(** A directory that [MkdirAll] had to create is empty. *)
Lemma mkdirAll_fresh (elems : list gostring) :
  forall t t' : node,
  lookup t elems = ENOENT -> mkdirAll t elems = Some t' -> lookup t' elems = Found (Dir []).
Proof.
  induction elems as [|e elems IH]; intros t t' Hl H; [discriminate|].
  destruct t as [c|es]; [discriminate|].
  apply mkdirAll_inv in H as (c & c' & Hc & -> & Hcase). rewrite lookup_Dir_eq.
  cbn [lookup] in Hl. destruct Hcase as [He|[He ->]]; rewrite He in Hl.
  - now apply IH with c.
  - destruct elems as [|e' elems]; [now injection Hc as <-|].
    now apply IH with (Dir []).
Qed.

(** [MkdirAll] leaves every regular file where it is. *)
Lemma mkdirAll_file (elems : list gostring) :
  forall (t t' : node) (q : list gostring) (c0 : gostring),
  mkdirAll t elems = Some t' -> lookup t q = Found (File c0) -> lookup t' q = Found (File c0).
Proof.
  induction elems as [|e elems IH]; intros t t' q c0 H Hl; destruct t as [c|es]; try discriminate.
  - now injection H as <-.
  - apply mkdirAll_inv in H as (c & c' & Hc & -> & Hcase).
    destruct q as [|e' q]; [discriminate|].
    destruct (decide (e = e')) as [<-|Hne]; [|now rewrite lookup_Dir_ne].
    rewrite lookup_Dir_eq. cbn [lookup] in Hl.
    destruct Hcase as [He|[He _]]; rewrite He in Hl; [|discriminate]. now apply IH with c.
Qed.

Lemma writeFile_cons (e e' : gostring) (l : list gostring) (es : list (gostring * node))
    (content : gostring) :
  writeFile (Dir es) (e :: e' :: l) content
  = match lookupEntry e es with
    | Some c => match writeFile c (e' :: l) content with
                | Some c' => Some (Dir (putEntry e c' es))
                | None => None
                end
    | None => None
    end.
Proof. reflexivity. Qed.

(** After [Create] the file holds the content written. *)
Lemma writeFile_found (content : gostring) (elems : list gostring) :
  forall t t' : node, writeFile t elems content = Some t' -> lookup t' elems = Found (File content).
Proof.
  induction elems as [|e elems IH]; intros t t' H;
    apply writeFile_inv in H as (es & e1 & rest & -> & [= <- <-] & Hcase).
  destruct Hcase as [[-> ->]|(Hne & c & c' & He & Hc & ->)]; rewrite lookup_Dir_eq;
    [reflexivity | now apply IH with c].
Qed.

(** Writing the same content a second time changes nothing. *)
Lemma writeFile_idem (content : gostring) (elems : list gostring) :
  forall t t' : node, writeFile t elems content = Some t' -> writeFile t' elems content = Some t'.
Proof.
  induction elems as [|e elems IH]; intros t t' H;
    apply writeFile_inv in H as (es & e1 & rest & -> & [= <- <-] & Hcase).
  destruct Hcase as [[-> ->]|(Hne & c & c' & He & Hc & ->)].
  - cbn [writeFile]. rewrite OSFacts.lookupEntry_putEntry_eq. now rewrite putEntry_idem.
  - destruct elems as [|e' elems]; [contradiction|].
    rewrite writeFile_cons, OSFacts.lookupEntry_putEntry_eq.
    rewrite (IH c c' Hc). now rewrite putEntry_idem.
Qed.

(** [Create] leaves every other regular file where it is. *)
Lemma writeFile_file (content : gostring) (elems : list gostring) :
  forall (t t' : node) (q : list gostring) (c0 : gostring),
  writeFile t elems content = Some t' -> lookup t q = Found (File c0) -> q <> elems ->
  lookup t' q = Found (File c0).
Proof.
  induction elems as [|e elems IH]; intros t t' q c0 H Hl Hq.
  { destruct t as [c|es]; discriminate H. }
  destruct t as [c|es]; [discriminate H|].
  destruct q as [|e' q]; [discriminate|].
  destruct (decide (e = e')) as [<-|Hne].
  - cbn [lookup] in Hl. destruct (lookupEntry e es) as [n|] eqn:He; [|discriminate].
    destruct elems as [|e2 elems].
    + cbn [writeFile] in H. rewrite He in H. destruct n as [c1|es1]; [|discriminate].
      destruct q; [congruence | discriminate].
    + rewrite writeFile_cons, He in H.
      destruct (writeFile n (e2 :: elems) content) as [n'|] eqn:Hn; [|discriminate].
      injection H as <-. rewrite lookup_Dir_eq. apply (IH n n' q c0 Hn Hl). congruence.
  - apply writeFile_inv in H as (es1 & e1 & rest & [= <-] & [= <- <-] & Hcase).
    destruct Hcase as [[_ ->]|(_ & c & c' & _ & _ & ->)]; now rewrite lookup_Dir_ne.
Qed.

(** After [Create] the directory of the file is a directory. *)
Lemma writeFile_parent (content : gostring) (name : gostring) (d : list gostring) :
  forall t t' : node,
  writeFile t (d ++ [name]) content = Some t' -> exists es, lookup t' d = Found (Dir es).
Proof.
  induction d as [|e d IH]; intros t t' H.
  - pose proof (writeFile_isDir _ _ _ _ H) as Hd. destruct t' as [c|es]; [discriminate|].
    now exists es.
  - apply writeFile_inv in H as (es & e1 & rest & -> & [= <- <-] & Hcase).
    destruct Hcase as [[Hnil _]|(_ & c & c' & _ & Hc & ->)]; [now destruct d|].
    rewrite lookup_Dir_eq. now apply IH with c.
Qed.

(** [Create] succeeds in a directory that holds no directory of that name. *)
Lemma writeFile_possible (content : gostring) (name : gostring) (d : list gostring) :
  forall (t : node) (es : list (gostring * node)),
  lookup t d = Found (Dir es) ->
  (forall es', lookupEntry name es <> Some (Dir es')) ->
  is_Some (writeFile t (d ++ [name]) content).
Proof.
  induction d as [|e d IH]; intros t es Hl Hn.
  - cbn [lookup] in Hl. injection Hl as ->. cbn [app writeFile].
    destruct (lookupEntry name es) as [[c|es']|] eqn:E; eauto. now destruct (Hn es').
  - cbn [lookup] in Hl. destruct t as [c|es0]; [discriminate|].
    destruct (lookupEntry e es0) as [ch|] eqn:He; [|discriminate].
    destruct (IH ch es Hl Hn) as [ch' Hch'].
    assert (exists x l, d ++ [name] = x :: l) as (x & l & Hx) by (destruct d; cbn; eauto).
    cbn [app]. rewrite Hx in *. rewrite writeFile_cons, He, Hch'. eauto.
Qed.

(** [Create] fails where the path is a directory. *)
Lemma writeFile_on_directory (content : gostring) (elems : list gostring) :
  forall (t : node) (es : list (gostring * node)),
  elems <> [] -> lookup t elems = Found (Dir es) -> writeFile t elems content = None.
Proof.
  induction elems as [|e elems IH]; intros t es Hne Hl; [contradiction|].
  destruct t as [c|es0]; [discriminate|]. cbn [lookup] in Hl.
  destruct (lookupEntry e es0) as [ch|] eqn:He; [|discriminate].
  destruct elems as [|e' elems].
  - cbn [lookup] in Hl. injection Hl as ->. cbn [writeFile]. now rewrite He.
  - rewrite writeFile_cons, He. now rewrite (IH ch es).
Qed.

End TreeUpdates.

(** ** Paths of stream files *)

Module PathFacts.
Import Filepath.

(** On a relative path the loop of [filepath.Clean] gives what it gives on
    the rooted one, with the [..] elements that lead out of the start kept
    at the bottom of its output. *)
Lemma cleanElems_relative (elems : list gostring) :
  forall (out : list gostring) (n : nat),
  Forall (fun e => e <> str "..") out ->
  exists m, cleanElems false elems (out ++ repeat (str "..") n)
            = cleanElems true elems out ++ repeat (str "..") m.
Proof.
  induction elems as [|e elems IH]; intros out n Hout; [now exists n|].
  cbn [cleanElems]. destruct (Strings.eqs e [] || Strings.eqs e (str ".")); [now apply IH|].
  destruct (Strings.eqs e (str "..")) eqn:E.
  - apply OSFacts.eqs_true in E as ->. destruct out as [|top out].
    + cbn [app]. destruct n as [|n]; cbn [repeat].
      * apply (IH [] 1%nat). constructor.
      * rewrite OSFacts.eqs_refl. apply (IH [] (S (S n))). constructor.
    + cbn [app]. inversion_clear Hout as [|? ? Htop Hrest].
      rewrite (proj2 (OSFacts.eqs_false top (str "..")) Htop). now apply IH.
  - apply (IH (e :: out) n). constructor; [now apply OSFacts.eqs_false|assumption].
Qed.

Lemma cleanElems_dotdots (m : nat) (rest : list gostring) :
  cleanElems true (repeat (str "..") m ++ rest) [] = cleanElems true rest [].
Proof. induction m as [|m IH]; [reflexivity|]. cbn [repeat app cleanElems]. exact IH. Qed.

Lemma joinSlash_nil (l : list gostring) :
  Forall (fun e => e <> []) l -> joinSlash l = [] -> l = [].
Proof.
  destruct l as [|e [|e' l]]; [reflexivity| |].
  - intros H. inversion_clear H. cbn. congruence.
  - intros H. inversion_clear H. cbn [joinSlash]. now destruct e.
Qed.

(** [filepath.Clean] does not change the place that a path denotes. *)
Lemma resolve_Clean (path : gostring) : OS.resolve (Clean path) = OS.resolve path.
Proof.
  destruct (isRooted path) eqn:Hr.
  - rewrite FilepathFacts.Clean_rooted by assumption.
    apply FilepathFacts.resolve_rootedPath, FilepathFacts.resolve_plain.
  - unfold Clean. rewrite Hr.
    destruct (cleanElems_relative (splitSlash path) [] 0 ltac:(constructor)) as [m Hm].
    cbn [app repeat] in Hm. rewrite Hm.
    pose proof (FilepathFacts.resolve_plain path) as Hp. unfold OS.resolve in Hp |- *.
    set (T := cleanElems true (splitSlash path) []) in *.
    rewrite rev_app_distr, rev_repeat.
    assert (Hne : Forall (fun e => e <> []) (repeat (str "..") m ++ rev T)).
    { apply Forall_app. split.
      - apply Forall_forall. intros x Hx. apply list_elem_of_In, repeat_spec in Hx as ->. discriminate.
      - eapply Forall_impl; [exact Hp|]. now intros e [He _]. }
    assert (Hns : Forall (Forall (fun c => c <> "/"%char)) (repeat (str "..") m ++ rev T)).
    { apply Forall_app. split.
      - apply Forall_forall. intros x Hx. apply list_elem_of_In, repeat_spec in Hx as ->.
        repeat constructor; discriminate.
      - now apply FilepathFacts.plain_no_slash. }
    destruct (Strings.eqs (joinSlash (repeat (str "..") m ++ rev T)) []) eqn:E.
    + apply OSFacts.eqs_true in E. apply joinSlash_nil in E; [|exact Hne].
      apply app_eq_nil in E as [_ E]. rewrite E. reflexivity.
    + assert (Hl : repeat (str "..") m ++ rev T <> []).
      { intros Hl. rewrite Hl in E. discriminate E. }
      rewrite FilepathFacts.splitSlash_joinSlash by assumption.
      rewrite cleanElems_dotdots.
      rewrite FilepathFacts.cleanElems_plain_list by exact Hp.
      now rewrite app_nil_r, rev_involutive.
Qed.

(** The name of a stream file is an element that [filepath.Clean] keeps. *)
Lemma strm_name_plain (x : gostring) : plain (sanitizeFileName x ++ str ".strm").
Proof.
  repeat split.
  - now destruct (sanitizeFileName x).
  - intros H. apply (f_equal (@length ascii)) in H. rewrite length_app in H. cbn in H. lia.
  - intros H. apply (f_equal (@length ascii)) in H. rewrite length_app in H. cbn in H. lia.
  - apply Forall_app. split; [|repeat constructor; discriminate].
    eapply Forall_impl; [apply SanitizerFacts.sanitizeFileName_plain|].
    intros c [Hc _] ->. discriminate Hc.
Qed.

(** The stream file of a record is the entry of that name in its directory. *)
Lemma resolve_strmFilePathOf (dir : gostring) (stream : Stream) :
  dir <> [] ->
  OS.resolve (strmFilePathOf dir stream)
  = OS.resolve dir ++ [sanitizeFileName (normalizeName (TvgName stream)) ++ str ".strm"].
Proof.
  intros Hd. unfold strmFilePathOf. cbn [Join].
  rewrite (proj2 (OSFacts.eqs_false dir []) Hd). rewrite resolve_Clean. cbn [joinSlash].
  apply FilepathFacts.resolve_slash_plain, strm_name_plain.
Qed.

Lemma strmFilePathOf_nonempty (dir : gostring) (stream : Stream) :
  strmFilePathOf dir stream <> [].
Proof.
  unfold strmFilePathOf. apply Join_nonempty. apply Exists_cons_tl, Exists_cons_hd.
  now destruct (sanitizeFileName _).
Qed.

End PathFacts.

(** ** Records: what [processStreams] does to the tree, the keys and the counters *)

Section RecordFacts.

Variable lower : gostring -> gostring.
Variable fold : gostring -> gostring -> bool.
Variable cfg : Config.

(** What [processTVShow] and [processMovie] do once the directory [dir] of
    the record is known. *)
Local Abbreviation materialized dir stream st :=
  (match (if OS.IsNotExist (OS.Stat (fs st) dir) then
            match OS.MkdirAll (fs st) dir with
            | Some fs' => Some (mkState fs' (keepFiles st) (incCreatedDirs (stats st)))
            | None => None
            end
          else Some st) with
   | None => st
   | Some st1 =>
       let strmFilePath := strmFilePathOf dir stream in
       let st2 := mkState (fs st1) ({[ strmFilePath ]} ∪ keepFiles st1) (stats st1) in
       let st3 := createOrUpdateStrmFile strmFilePath (URL stream) st2 in
       mkState (fs st3) (keepFiles st3) (incKeptStrmFiles (stats st3))
   end).

Lemma processStream_rejected (st : State) (stream : Stream) :
  accepted lower fold cfg stream = false -> processStream lower fold cfg st stream = st.
Proof.
  unfold accepted, processStream. cbv zeta.
  destruct (contains lower fold (excludeGroups cfg) (groupTitleOf lower cfg stream)); [reflexivity|].
  destruct (negb (Nat.eqb (length (includeGroups cfg)) 0)
            && negb (contains lower fold (includeGroups cfg) (groupTitleOf lower cfg stream)));
    [reflexivity | discriminate].
Qed.

Lemma processStream_accepted (st : State) (stream : Stream) :
  accepted lower fold cfg stream = true ->
  processStream lower fold cfg st stream = materialized (targetDir lower cfg stream) stream st.
Proof.
  unfold accepted, processStream, targetDir. cbv zeta.
  destruct (contains lower fold (excludeGroups cfg) (groupTitleOf lower cfg stream)); [discriminate|].
  destruct (negb (Nat.eqb (length (includeGroups cfg)) 0)
            && negb (contains lower fold (includeGroups cfg) (groupTitleOf lower cfg stream)));
    [discriminate|]. intros _.
  destruct (MatchString (TvgName stream)) eqn:Hm; [|reflexivity].
  unfold processTVShow.
  now rewrite (proj2 (OSFacts.eqs_false _ []) (RegexpFacts.FindString_nonempty _ Hm)).
Qed.

Lemma targetDir_nonempty (stream : Stream) :
  tvShowsDir cfg <> [] -> moviesDir cfg <> [] -> targetDir lower cfg stream <> [].
Proof.
  intros Htv Hmov. unfold targetDir, showDirOf, movieDirOf.
  destruct (MatchString (TvgName stream)); destruct (useGroup cfg =? 1);
    apply Join_nonempty; now apply Exists_cons_hd.
Qed.

(** The tree after a record has been materialized in [dir]. *)
Lemma materialized_fs (dir : gostring) (stream : Stream) (st : State) :
  fs (materialized dir stream st)
  = match (if OS.IsNotExist (OS.Stat (fs st) dir) then OS.MkdirAll (fs st) dir
           else Some (fs st)) with
    | None => fs st
    | Some fs1 =>
        match OS.Create fs1 (strmFilePathOf dir stream) (URL stream) with
        | Some fs2 => fs2
        | None => fs1
        end
    end.
Proof.
  unfold createOrUpdateStrmFile.
  destruct (OS.IsNotExist (OS.Stat (fs st) dir)).
  - destruct (OS.MkdirAll (fs st) dir) as [fs1|]; [|reflexivity]. cbn [fs].
    now destruct (OS.Create fs1 _ _).
  - cbn [fs]. now destruct (OS.Create (fs st) _ _).
Qed.

(** What one record does to the keys and the counters. *)
Lemma processStream_counts (st : State) (stream : Stream) :
  tvShowsDir cfg <> [] -> moviesDir cfg <> [] ->
  let st' := processStream lower fold cfg st stream in
  let n := if accepted lower fold cfg stream then 1 else 0 in
  keepFiles st' = (if accepted lower fold cfg stream
                   then {[ targetFile lower cfg stream ]} ∪ keepFiles st else keepFiles st) /\
  keptStrmFiles (stats st') = keptStrmFiles (stats st) + n /\
  createdDirs (stats st) <= createdDirs (stats st') <= createdDirs (stats st) + n.
Proof.
  intros Htv Hmov. cbv zeta. destruct (accepted lower fold cfg stream) eqn:Ha.
  - rewrite processStream_accepted by assumption.
    destruct (materialize_effect (targetDir lower cfg stream) stream st _
                (targetDir_nonempty stream Htv Hmov) eq_refl) as (H1 & H2 & H3 & _).
    split; [exact H1|]. split; [exact H2|]. rewrite H3.
    destruct (OS.IsNotExist _); lia.
  - rewrite processStream_rejected by assumption. repeat split; lia.
Qed.

Lemma mkdirRoot_keeps (path : gostring) (st : State) :
  keepFiles (mkdirRoot path st) = keepFiles st /\ stats (mkdirRoot path st) = stats st.
Proof. unfold mkdirRoot. now destruct (OS.MkdirAll (fs st) path). Qed.

(** The catalog: the keys and the counters after the loop of [processStreams]. *)
Lemma fold_processStream_counts (streams : list Stream) :
  tvShowsDir cfg <> [] -> moviesDir cfg <> [] ->
  forall st : State,
  let st' := fold_left (processStream lower fold cfg) streams st in
  let n := Z.of_nat (length (List.filter (accepted lower fold cfg) streams)) in
  (forall key, key ∈ keepFiles st' <->
               key ∈ keepFiles st \/
               exists s, In s streams /\ accepted lower fold cfg s = true /\
                         key = targetFile lower cfg s) /\
  keptStrmFiles (stats st') = keptStrmFiles (stats st) + n /\
  createdDirs (stats st) <= createdDirs (stats st') <= createdDirs (stats st) + n.
Proof.
  intros Htv Hmov. induction streams as [|s streams IH]; intros st; cbv zeta.
  - cbn. split; [|lia]. intros key. split; [auto|]. intros [H|(s & [] & _)]. exact H.
  - cbn [fold_left List.filter].
    destruct (IH (processStream lower fold cfg st s)) as (K & N & C). cbv zeta in K, N, C.
    destruct (processStream_counts st s Htv Hmov) as (K1 & N1 & C1). cbv zeta in K1, N1, C1.
    split; [|destruct (accepted lower fold cfg s); cbn [length] in *; lia].
    intros key. rewrite K, K1. split.
    + intros [H|(s' & Hin & Ha & ->)].
      * destruct (accepted lower fold cfg s) eqn:Ha; [|now left].
        apply elem_of_union in H as [H|H]; [|now left].
        apply elem_of_singleton in H as ->. right. exists s. repeat split; [now left | exact Ha].
      * right. exists s'. repeat split; [now right | exact Ha].
    + intros [H|(s' & [<-|Hin] & Ha & ->)].
      * left. destruct (accepted lower fold cfg s); [|exact H]. apply elem_of_union. now right.
      * left. rewrite Ha. apply elem_of_union. left. now apply elem_of_singleton.
      * right. exists s'. now repeat split.
Qed.

End RecordFacts.

(** X7.  With non-empty root directories, [keepFiles] holds after
    [processStreams] what it held before and the stream-file path of every
    record of the catalog whose group passes the exclude and include lists,
    and nothing else. *)
Theorem keep_set_holds_the_accepted_records
    (lower : gostring -> gostring) (fold : gostring -> gostring -> bool)
    (cfg : Config) (streams : list Stream) (st : State) (key : gostring) :
  tvShowsDir cfg <> [] -> moviesDir cfg <> [] ->
  key ∈ keepFiles (processStreams lower fold cfg streams st) <->
  key ∈ keepFiles st \/
  exists s, In s streams /\ accepted lower fold cfg s = true /\ key = targetFile lower cfg s.
Proof.
  intros Htv Hmov. unfold processStreams. cbv zeta.
  destruct (fold_processStream_counts lower fold cfg streams Htv Hmov
              (mkdirRoot (moviesDir cfg) (mkdirRoot (tvShowsDir cfg) st))) as (K & _).
  rewrite K. destruct (mkdirRoot_keeps (moviesDir cfg) (mkdirRoot (tvShowsDir cfg) st)) as [-> _].
  now destruct (mkdirRoot_keeps (tvShowsDir cfg) st) as [-> _].
Qed.

(** X7, witness: the catalog of the scenario and the key of its movie. *)
Lemma keep_set_holds_the_accepted_records_witness :
  let st := mkState scenarioTree ∅ (mkStats 0 0 0 0) in
  str "movies/Old Movie/Old Movie.strm"
    ∈ keepFiles (processStreams noUnicodeToLower noUnicodeEqualFold (scenarioConfig 25)
                   scenarioCatalog st) <->
  str "movies/Old Movie/Old Movie.strm" ∈ keepFiles st \/
  exists s, In s scenarioCatalog /\
            accepted noUnicodeToLower noUnicodeEqualFold (scenarioConfig 25) s = true /\
            str "movies/Old Movie/Old Movie.strm"
            = targetFile noUnicodeToLower (scenarioConfig 25) s.
Proof.
  intros st.
  apply (keep_set_holds_the_accepted_records noUnicodeToLower noUnicodeEqualFold
           (scenarioConfig 25) scenarioCatalog st (str "movies/Old Movie/Old Movie.strm"));
    discriminate.
Defined.

(** X8.  The counter of kept stream files counts records, not files: it
    grows by one for every record of the catalog whose group passes the
    lists, whether or not its file could be written and whether or not
    another record has the same path.  The counter of created directories
    grows by at most one for each such record. *)
Theorem kept_counter_counts_accepted_records
    (lower : gostring -> gostring) (fold : gostring -> gostring -> bool)
    (cfg : Config) (streams : list Stream) (st : State) :
  tvShowsDir cfg <> [] -> moviesDir cfg <> [] ->
  let st' := processStreams lower fold cfg streams st in
  let n := Z.of_nat (length (List.filter (accepted lower fold cfg) streams)) in
  keptStrmFiles (stats st') = keptStrmFiles (stats st) + n /\
  createdDirs (stats st) <= createdDirs (stats st') <= createdDirs (stats st) + n.
Proof.
  intros Htv Hmov. unfold processStreams. cbv zeta.
  destruct (fold_processStream_counts lower fold cfg streams Htv Hmov
              (mkdirRoot (moviesDir cfg) (mkdirRoot (tvShowsDir cfg) st))) as (_ & N & C).
  cbv zeta in N, C.
  destruct (mkdirRoot_keeps (moviesDir cfg) (mkdirRoot (tvShowsDir cfg) st)) as [_ E2].
  destruct (mkdirRoot_keeps (tvShowsDir cfg) st) as [_ E1].
  rewrite E2, E1 in N, C. now split.
Qed.

(** X8, witness: the same movie listed twice is one file and one key, and
    two on the counter. *)
Lemma kept_counter_counts_accepted_records_witness :
  let movie := mkStream (str "http://x/b.avi") (str "Old.Movie") (str "") in
  let st' := processStreams noUnicodeToLower noUnicodeEqualFold (scenarioConfig 25)
               [movie; movie] (mkState (OS.Dir []) ∅ (mkStats 0 0 0 0)) in
  keptStrmFiles (stats st') = 0 + 2 /\ 0 <= createdDirs (stats st') <= 0 + 2.
Proof.
  intros movie st'.
  apply (kept_counter_counts_accepted_records noUnicodeToLower noUnicodeEqualFold
           (scenarioConfig 25) [movie; movie] (mkState (OS.Dir []) ∅ (mkStats 0 0 0 0)));
    discriminate.
Defined.

Section RecordTree.

Variable lower : gostring -> gostring.
Variable fold : gostring -> gostring -> bool.
Variable cfg : Config.

Lemma writeFile_ENOTDIR (content : gostring) (elems : list gostring) :
  forall t : OS.node, OS.lookup t elems = OS.ENOTDIR -> OS.writeFile t elems content = None.
Proof.
  induction elems as [|e elems IH]; intros t Hl; [discriminate|].
  destruct t as [c|es]; [now destruct elems|]. cbn [OS.lookup] in Hl.
  destruct (OS.lookupEntry e es) as [ch|] eqn:He; [|discriminate].
  destruct elems as [|e' elems]; [discriminate|].
  rewrite TreeUpdates.writeFile_cons, He. now rewrite (IH ch).
Qed.

(** [Stat] of a path that is not empty. *)
Lemma Stat_lookup (t : OS.node) (path : gostring) :
  path <> [] -> OS.Stat t path = OS.lookup t (OS.resolve path).
Proof. intros H. unfold OS.Stat. now rewrite (proj2 (OSFacts.eqs_false path []) H). Qed.

Lemma MkdirAll_mkdirAll (t : OS.node) (path : gostring) :
  path <> [] -> OS.MkdirAll t path = OS.mkdirAll t (OS.resolve path).
Proof. intros H. unfold OS.MkdirAll. now rewrite (proj2 (OSFacts.eqs_false path []) H). Qed.

Lemma Create_writeFile (t : OS.node) (path content : gostring) :
  path <> [] -> OS.Create t path content = OS.writeFile t (OS.resolve path) content.
Proof. intros H. unfold OS.Create. now rewrite (proj2 (OSFacts.eqs_false path []) H). Qed.

(** The tree after an accepted record, by what was at the place of its
    directory [rd] and of its file [rd ++ [name]]. *)
Lemma materialized_tree (dir : gostring) (stream : Stream) (t : OS.node) :
  dir <> [] ->
  let rd := OS.resolve dir in
  let name := sanitizeFileName (normalizeName (TvgName stream)) ++ str ".strm" in
  let t' := match (if OS.IsNotExist (OS.Stat t dir) then OS.MkdirAll t dir else Some t) with
            | None => t
            | Some fs1 =>
                match OS.Create fs1 (strmFilePathOf dir stream) (URL stream) with
                | Some fs2 => fs2
                | None => fs1
                end
            end in
  match OS.lookup t (rd ++ [name]) with
  | OS.ENOENT | OS.Found (OS.File _) =>
      OS.lookup t' (rd ++ [name]) = OS.Found (OS.File (URL stream)) /\
      OS.writeFile t' (rd ++ [name]) (URL stream) = Some t' /\
      exists es, OS.lookup t' rd = OS.Found (OS.Dir es)
  | _ => t' = t /\ OS.lookup t rd <> OS.ENOENT /\ OS.writeFile t (rd ++ [name]) (URL stream) = None
  end.
Proof.
  intros Hd. cbv zeta.
  set (rd := OS.resolve dir).
  set (name := sanitizeFileName (normalizeName (TvgName stream)) ++ str ".strm").
  rewrite (Stat_lookup t dir Hd), (MkdirAll_mkdirAll t dir Hd).
  assert (HC : forall t1, OS.Create t1 (strmFilePathOf dir stream) (URL stream)
                          = OS.writeFile t1 (rd ++ [name]) (URL stream)).
  { intros t1. rewrite Create_writeFile by apply PathFacts.strmFilePathOf_nonempty.
    now rewrite PathFacts.resolve_strmFilePathOf. }
  fold rd. rewrite (TreeUpdates.lookup_app rd t [name]).
  destruct (OS.lookup t rd) as [n| |] eqn:Hrd; cbn [OS.IsNotExist].
  - rewrite HC. destruct n as [c|es]; cbn [OS.lookup].
    + assert (Hw : OS.writeFile t (rd ++ [name]) (URL stream) = None).
      { apply writeFile_ENOTDIR. rewrite TreeUpdates.lookup_app, Hrd. reflexivity. }
      rewrite Hw. split; [reflexivity|]. split; [discriminate | reflexivity].
    + destruct (OS.lookupEntry name es) as [[c|es']|] eqn:He.
      * destruct (TreeUpdates.writeFile_possible (URL stream) name rd t es Hrd) as [t2 Ht2];
          [intros es'; rewrite He; discriminate|].
        rewrite Ht2. split; [now apply TreeUpdates.writeFile_found with t|].
        split; [now apply TreeUpdates.writeFile_idem with t|].
        now apply TreeUpdates.writeFile_parent with (URL stream) name t.
      * assert (Hw : OS.writeFile t (rd ++ [name]) (URL stream) = None).
        { apply TreeUpdates.writeFile_on_directory with es'; [now destruct rd|].
          rewrite TreeUpdates.lookup_app, Hrd. cbn [OS.lookup]. now rewrite He. }
        rewrite Hw. split; [reflexivity|]. split; [discriminate | reflexivity].
      * destruct (TreeUpdates.writeFile_possible (URL stream) name rd t es Hrd) as [t2 Ht2];
          [intros es'; rewrite He; discriminate|].
        rewrite Ht2. split; [now apply TreeUpdates.writeFile_found with t|].
        split; [now apply TreeUpdates.writeFile_idem with t|].
        now apply TreeUpdates.writeFile_parent with (URL stream) name t.
  - destruct (MaterializerFacts.mkdirAll_ENOENT rd t Hrd) as [t1 Ht1]. rewrite Ht1, HC.
    pose proof (TreeUpdates.mkdirAll_fresh rd t t1 Hrd Ht1) as Hfresh.
    destruct (TreeUpdates.writeFile_possible (URL stream) name rd t1 [] Hfresh) as [t2 Ht2];
      [discriminate|].
    rewrite Ht2. split; [now apply TreeUpdates.writeFile_found with t1|].
    split; [now apply TreeUpdates.writeFile_idem with t1|].
    now apply TreeUpdates.writeFile_parent with (URL stream) name t1.
  - rewrite HC.
    assert (Hw : OS.writeFile t (rd ++ [name]) (URL stream) = None).
    { apply writeFile_ENOTDIR. now rewrite TreeUpdates.lookup_app, Hrd. }
    rewrite Hw. split; [reflexivity|]. split; [discriminate | reflexivity].
Qed.

(** The place of the stream file of a record. *)
Lemma Stat_targetFile (t : OS.node) (stream : Stream) :
  tvShowsDir cfg <> [] -> moviesDir cfg <> [] ->
  OS.Stat t (targetFile lower cfg stream)
  = OS.lookup t (OS.resolve (targetDir lower cfg stream)
                 ++ [sanitizeFileName (normalizeName (TvgName stream)) ++ str ".strm"]).
Proof.
  intros Htv Hmov. unfold targetFile.
  rewrite Stat_lookup by apply PathFacts.strmFilePathOf_nonempty.
  now rewrite PathFacts.resolve_strmFilePathOf by now apply targetDir_nonempty.
Qed.

(** Processing a record a second time changes neither the tree nor the keys. *)
Lemma processStream_twice (st : State) (stream : Stream) :
  tvShowsDir cfg <> [] -> moviesDir cfg <> [] ->
  let st1 := processStream lower fold cfg st stream in
  let st2 := processStream lower fold cfg st1 stream in
  fs st2 = fs st1 /\ keepFiles st2 = keepFiles st1.
Proof.
  intros Htv Hmov. cbv zeta.
  destruct (accepted lower fold cfg stream) eqn:Ha;
    [|now rewrite !processStream_rejected by assumption].
  split.
  - pose proof (targetDir_nonempty lower cfg stream Htv Hmov) as Hd.
    set (st1 := processStream lower fold cfg st stream).
    rewrite (processStream_accepted lower fold cfg st1 stream Ha), materialized_fs.
    pose proof (materialized_tree (targetDir lower cfg stream) stream (fs st) Hd) as H1.
    cbv zeta in H1.
    rewrite <- (materialized_fs (targetDir lower cfg stream) stream st) in H1.
    rewrite <- (processStream_accepted lower fold cfg st stream Ha) in H1. fold st1 in H1.
    set (rd := OS.resolve (targetDir lower cfg stream)) in *.
    set (name := sanitizeFileName (normalizeName (TvgName stream)) ++ str ".strm") in *.
    assert (HC : forall t1, OS.Create t1 (strmFilePathOf (targetDir lower cfg stream) stream) (URL stream)
                            = OS.writeFile t1 (rd ++ [name]) (URL stream)).
    { intros t1. rewrite Create_writeFile by apply PathFacts.strmFilePathOf_nonempty.
      now rewrite PathFacts.resolve_strmFilePathOf. }
    rewrite (Stat_lookup _ _ Hd). fold rd.
    assert (Hok : forall es, OS.lookup (fs st1) rd = OS.Found (OS.Dir es) ->
                    OS.writeFile (fs st1) (rd ++ [name]) (URL stream) = Some (fs st1) ->
                    match (if OS.IsNotExist (OS.lookup (fs st1) rd)
                           then OS.MkdirAll (fs st1) (targetDir lower cfg stream)
                           else Some (fs st1)) with
                    | None => fs st1
                    | Some fs1 =>
                        match OS.Create fs1 (strmFilePathOf (targetDir lower cfg stream) stream)
                                (URL stream) with
                        | Some fs2 => fs2
                        | None => fs1
                        end
                    end = fs st1).
    { intros es Hes Hw. rewrite Hes. cbn [OS.IsNotExist]. now rewrite HC, Hw. }
    assert (Hfail : OS.lookup (fs st1) rd <> OS.ENOENT ->
                    OS.writeFile (fs st1) (rd ++ [name]) (URL stream) = None ->
                    match (if OS.IsNotExist (OS.lookup (fs st1) rd)
                           then OS.MkdirAll (fs st1) (targetDir lower cfg stream)
                           else Some (fs st1)) with
                    | None => fs st1
                    | Some fs1 =>
                        match OS.Create fs1 (strmFilePathOf (targetDir lower cfg stream) stream)
                                (URL stream) with
                        | Some fs2 => fs2
                        | None => fs1
                        end
                    end = fs st1).
    { intros Hne Hw. destruct (OS.lookup (fs st1) rd); [| contradiction |];
        cbn [OS.IsNotExist]; now rewrite HC, Hw. }
    destruct (OS.lookup (fs st) (rd ++ [name])) as [[c|es]| |].
    + destruct H1 as (_ & Hw & es & Hes). now apply Hok with es.
    + destruct H1 as (E & Hne & Hw). rewrite <- E in Hne, Hw. now apply Hfail.
    + destruct H1 as (_ & Hw & es & Hes). now apply Hok with es.
    + destruct H1 as (E & Hne & Hw). rewrite <- E in Hne, Hw. now apply Hfail.
  - destruct (processStream_counts lower fold cfg (processStream lower fold cfg st stream)
                stream Htv Hmov) as (K2 & _).
    destruct (processStream_counts lower fold cfg st stream Htv Hmov) as (K1 & _).
    cbv zeta in K1, K2. rewrite K2, K1, Ha. rewrite (assoc_L (∪)). now rewrite union_idemp_L.
Qed.

(** [processStreams] leaves every regular file in place whose place is not
    the one of the stream file of an accepted record. *)
Lemma processStream_other_file (st : State) (stream : Stream)
    (place : list gostring) (c : gostring) :
  OS.lookup (fs st) place = OS.Found (OS.File c) ->
  (accepted lower fold cfg stream = true -> OS.resolve (targetFile lower cfg stream) <> place) ->
  OS.lookup (fs (processStream lower fold cfg st stream)) place = OS.Found (OS.File c).
Proof.
  intros Hl Hne. destruct (accepted lower fold cfg stream) eqn:Ha;
    [|now rewrite processStream_rejected]. specialize (Hne eq_refl).
  rewrite processStream_accepted, materialized_fs by exact Ha.
  fold (targetFile lower cfg stream).
  assert (H1 : forall t1, OS.lookup t1 place = OS.Found (OS.File c) ->
                 OS.lookup (match OS.Create t1 (targetFile lower cfg stream) (URL stream) with
                            | Some fs2 => fs2
                            | None => t1
                            end) place = OS.Found (OS.File c)).
  { intros t1 Ht1. unfold OS.Create.
    destruct (Strings.eqs (targetFile lower cfg stream) []); [exact Ht1|].
    destruct (OS.writeFile t1 _ _) as [t2|] eqn:E; [|exact Ht1].
    apply (TreeUpdates.writeFile_file _ _ _ _ _ _ E Ht1). congruence. }
  destruct (OS.IsNotExist _); [|now apply H1].
  unfold OS.MkdirAll. destruct (Strings.eqs (targetDir lower cfg stream) []); [exact Hl|].
  destruct (OS.mkdirAll (fs st) _) as [t1|] eqn:E; [|exact Hl].
  apply H1. now apply (TreeUpdates.mkdirAll_file _ _ _ _ _ E).
Qed.

Lemma mkdirRoot_other_file (path : gostring) (st : State) (place : list gostring) (c : gostring) :
  OS.lookup (fs st) place = OS.Found (OS.File c) ->
  OS.lookup (fs (mkdirRoot path st)) place = OS.Found (OS.File c).
Proof.
  intros Hl. unfold mkdirRoot, OS.MkdirAll. destruct (Strings.eqs path []); [exact Hl|].
  destruct (OS.mkdirAll (fs st) _) as [t1|] eqn:E; [|exact Hl].
  now apply (TreeUpdates.mkdirAll_file _ _ _ _ _ E).
Qed.

End RecordTree.



(** X10.  A record that cannot be written is still counted and kept: when
    the place of its stream file holds a directory, or lies below a regular
    file, the error of [os.Create] is logged only; the tree is left as it
    is, the path is added to [keepFiles] all the same and the counter of
    kept stream files grows by one. *)
Theorem unwritable_record_is_still_counted
    (lower : gostring -> gostring) (fold : gostring -> gostring -> bool)
    (cfg : Config) (st : State) (stream : Stream) :
  tvShowsDir cfg <> [] -> moviesDir cfg <> [] ->
  accepted lower fold cfg stream = true ->
  (OS.Stat (fs st) (targetFile lower cfg stream) = OS.ENOTDIR \/
   exists es, OS.Stat (fs st) (targetFile lower cfg stream) = OS.Found (OS.Dir es)) ->
  let st' := processStream lower fold cfg st stream in
  fs st' = fs st /\
  targetFile lower cfg stream ∈ keepFiles st' /\
  keptStrmFiles (stats st') = keptStrmFiles (stats st) + 1.
Proof.
  intros Htv Hmov Ha Hbusy. cbv zeta.
  destruct (processStream_counts lower fold cfg st stream Htv Hmov) as (K & N & _).
  cbv zeta in K, N. rewrite Ha in K, N. split; [|split; [|exact N]].
  - rewrite !(Stat_targetFile lower cfg _ stream Htv Hmov) in *.
    rewrite processStream_accepted, materialized_fs by exact Ha.
    pose proof (materialized_tree (targetDir lower cfg stream) stream (fs st)
                  (targetDir_nonempty lower cfg stream Htv Hmov)) as H. cbv zeta in H.
    destruct Hbusy as [E|[es E]]; rewrite E in H; apply H.
  - rewrite K. apply elem_of_union. left. now apply elem_of_singleton.
Qed.

(** X10, witness: a directory stands where the stream file of the movie
    should be. *)
Lemma unwritable_record_is_still_counted_witness :
  let movie := mkStream (str "http://x/b.avi") (str "Old.Movie") (str "") in
  let tree := OS.Dir [(str "movies",
                OS.Dir [(str "Old Movie", OS.Dir [(str "Old Movie.strm", OS.Dir [])])])] in
  let st := mkState tree ∅ (mkStats 0 0 0 0) in
  let st' := processStream noUnicodeToLower noUnicodeEqualFold (scenarioConfig 25) st movie in
  fs st' = fs st /\
  targetFile noUnicodeToLower (scenarioConfig 25) movie ∈ keepFiles st' /\
  keptStrmFiles (stats st') = keptStrmFiles (stats st) + 1.
Proof.
  intros movie tree st.
  apply (unwritable_record_is_still_counted noUnicodeToLower noUnicodeEqualFold
           (scenarioConfig 25) st movie); [discriminate | discriminate | vm_compute; reflexivity |].
  right. exists []. vm_compute. reflexivity.
Defined.

(** X11.  Processing one record twice in a row is the same as processing it
    once, as far as the tree and [keepFiles] go: the second pass finds the
    directory, rewrites the same content and adds the same key. *)
Theorem record_processing_is_idempotent
    (lower : gostring -> gostring) (fold : gostring -> gostring -> bool)
    (cfg : Config) (st : State) (stream : Stream) :
  tvShowsDir cfg <> [] -> moviesDir cfg <> [] ->
  let st1 := processStream lower fold cfg st stream in
  let st2 := processStream lower fold cfg st1 stream in
  fs st2 = fs st1 /\ keepFiles st2 = keepFiles st1.
Proof. apply processStream_twice. Qed.

(** X11, witness: the episode of the scenario. *)
Lemma record_processing_is_idempotent_witness :
  let episode := mkStream (str "http://x/a.mkv") (str "Show.S01E01") (str "") in
  let st := mkState scenarioTree ∅ (mkStats 0 0 0 0) in
  let st1 := processStream noUnicodeToLower noUnicodeEqualFold (scenarioConfig 25) st episode in
  let st2 := processStream noUnicodeToLower noUnicodeEqualFold (scenarioConfig 25) st1 episode in
  fs st2 = fs st1 /\ keepFiles st2 = keepFiles st1.
Proof.
  intros episode st.
  apply (record_processing_is_idempotent noUnicodeToLower noUnicodeEqualFold (scenarioConfig 25)
           st episode); discriminate.
Defined.

(** X12.  [processStreams] writes stream files of accepted records and
    nothing else: a regular file at a place that is not the place of the
    stream file of any accepted record of the catalog is there afterwards
    with the content it had. *)
Theorem catalog_leaves_other_files_alone
    (lower : gostring -> gostring) (fold : gostring -> gostring -> bool)
    (cfg : Config) (streams : list Stream) (st : State)
    (place : list gostring) (c : gostring) :
  OS.lookup (fs st) place = OS.Found (OS.File c) ->
  (forall s, In s streams -> accepted lower fold cfg s = true ->
             OS.resolve (targetFile lower cfg s) <> place) ->
  OS.lookup (fs (processStreams lower fold cfg streams st)) place = OS.Found (OS.File c).
Proof.
  intros Hl Hne. unfold processStreams. cbv zeta.
  assert (H0 : OS.lookup (fs (mkdirRoot (moviesDir cfg) (mkdirRoot (tvShowsDir cfg) st))) place
               = OS.Found (OS.File c)) by now do 2 apply mkdirRoot_other_file.
  revert H0. generalize (mkdirRoot (moviesDir cfg) (mkdirRoot (tvShowsDir cfg) st)).
  clear Hl. induction streams as [|s streams IH]; intros st0 H0; [exact H0|].
  cbn [fold_left]. apply IH.
  - intros s' Hin. apply Hne. now right.
  - apply processStream_other_file; [exact H0|]. apply Hne. now left.
Qed.

(** X12, witness: the stale stream file of the scenario is not touched by
    [processStreams]. *)
Lemma catalog_leaves_other_files_alone_witness :
  let st := mkState scenarioTree ∅ (mkStats 0 0 0 0) in
  OS.lookup (fs (processStreams noUnicodeToLower noUnicodeEqualFold (scenarioConfig 25)
                   scenarioCatalog st))
    [str "movies"; str "Stale_Movie"; str "Stale_Movie.strm"]
  = OS.Found (OS.File (str "http://x/old.mkv")).
Proof.
  intros st.
  apply (catalog_leaves_other_files_alone noUnicodeToLower noUnicodeEqualFold (scenarioConfig 25)
           scenarioCatalog st [str "movies"; str "Stale_Movie"; str "Stale_Movie.strm"]
           (str "http://x/old.mkv")).
  - vm_compute. reflexivity.
  - intros s [<-|[<-|[]]] _; vm_compute; discriminate.
Defined.

(** ** Where the directory of a record lies *)

Module TargetFacts.
Import Filepath.

(** An element that [filepath.Join] drops or keeps as it is. *)
Local Abbreviation segment := (fun e : gostring => e = [] \/ plain e).
Local Abbreviation present := (fun e : gostring => negb (Strings.eqs e [])).

Lemma concat_splitSlash (segs : list gostring) :
  Forall segment segs -> concat (map splitSlash segs) = segs.
Proof.
  induction 1 as [|e segs He _ IH]; [reflexivity|]. cbn [map concat]. rewrite IH.
  destruct He as [->|(_ & _ & _ & He)]; [reflexivity|].
  now rewrite FilepathFacts.splitSlash_no_slash.
Qed.

Lemma cleanElems_segments (segs : list gostring) :
  Forall segment segs ->
  forall out, cleanElems true segs out = rev (List.filter present segs) ++ out.
Proof.
  induction 1 as [|e segs He _ IH]; intros out; [reflexivity|].
  destruct He as [->|He].
  - cbn [cleanElems List.filter]. rewrite OSFacts.eqs_refl. cbn [orb negb]. apply IH.
  - rewrite FilepathFacts.cleanElems_plain by assumption. rewrite IH. cbn [List.filter].
    destruct He as (He & _). rewrite (proj2 (OSFacts.eqs_false e []) He). cbn [negb rev].
    now rewrite <- app_assoc.
Qed.

(** The place of a path joined from a root and elements that are plain or
    empty: the empty ones are dropped. *)
Lemma resolve_Join_segments (root : gostring) (segs : list gostring) :
  root <> [] -> Forall segment segs ->
  OS.resolve (Join (root :: segs)) = OS.resolve root ++ List.filter present segs.
Proof.
  intros Hr Hs. cbn [Join]. rewrite (proj2 (OSFacts.eqs_false root []) Hr).
  rewrite PathFacts.resolve_Clean. unfold OS.resolve.
  rewrite MaterializerFacts.splitSlash_joinSlash_concat by discriminate.
  cbn [map concat]. rewrite concat_splitSlash by assumption.
  rewrite FilepathFacts.cleanElems_app, cleanElems_segments by assumption.
  now rewrite rev_app_distr, rev_involutive.
Qed.

(** The same with [..] as the first element after the root: the last
    element of the root is dropped. *)
Lemma resolve_Join_dotdot (root : gostring) (segs : list gostring) :
  root <> [] -> Forall segment segs ->
  OS.resolve (Join (root :: str ".." :: segs))
  = removelast (OS.resolve root) ++ List.filter present segs.
Proof.
  intros Hr Hs. cbn [Join]. rewrite (proj2 (OSFacts.eqs_false root []) Hr).
  rewrite PathFacts.resolve_Clean.
  pose proof (FilepathFacts.resolve_plain root) as Hp. unfold OS.resolve in *.
  rewrite MaterializerFacts.splitSlash_joinSlash_concat by discriminate.
  change (concat (map splitSlash (root :: str ".." :: segs)))
    with (splitSlash root ++ [str ".."] ++ concat (map splitSlash segs)).
  rewrite concat_splitSlash by assumption.
  rewrite !FilepathFacts.cleanElems_app.
  set (T := cleanElems true (splitSlash root) []) in *.
  assert (HT : cleanElems true [str ".."] T = tl T).
  { destruct T as [|top T']; [reflexivity|]. cbn [cleanElems orb tl].
    apply Forall_app in Hp as [_ Hp]. inversion_clear Hp as [|? ? (_ & _ & Htop & _) _].
    change (Strings.eqs (str "..") []) with false.
    change (Strings.eqs (str "..") (str ".")) with false. cbn [orb].
    rewrite OSFacts.eqs_refl. now rewrite (proj2 (OSFacts.eqs_false top (str "..")) Htop). }
  rewrite HT, cleanElems_segments by assumption.
  rewrite rev_app_distr, rev_involutive. f_equal.
  clear. destruct T as [|top T']; [reflexivity|]. cbn [tl rev].
  now rewrite removelast_last.
Qed.

(** A sanitized name is empty or plain. *)
Lemma sanitized_segment (x : gostring) : segment (sanitizeFileName x).
Proof.
  pose proof (SanitizerFacts.sanitizeFileName_plain x) as Hp.
  destruct (sanitizeFileName x) as [|c s] eqn:E; [now left|]. right. rewrite <- E in *.
  assert (Hdot : Forall (fun c => c <> "."%char) (sanitizeFileName x))
    by (eapply Forall_impl; [exact Hp|]; now intros ? [_ ?]).
  repeat split.
  - rewrite E. discriminate.
  - intros H. rewrite H in Hdot. now inversion_clear Hdot.
  - intros H. rewrite H in Hdot. now inversion_clear Hdot.
  - eapply Forall_impl; [exact Hp|]. intros ? [Hc _] ->. discriminate Hc.
Qed.

(** The season of a record that matches is plain. *)
Lemma season_segment (name : gostring) :
  MatchString name = true -> plain (seasonOf (FindString name)).
Proof.
  intros H. destruct (RegexpFacts.seasonOf_shape name H) as (d & c & -> & Hd & Hc).
  repeat split; try discriminate.
  repeat constructor; try discriminate.
  - intros ->. discriminate Hd.
  - intros ->. destruct Hc as [Hc|Hc]; discriminate Hc.
Qed.

(** The elements of the directory of a record after its root and group. *)
Lemma targetDir_Join (lower : gostring -> gostring) (cfg : Config) (stream : Stream) :
  let t := classify lower cfg stream in
  targetDir lower cfg stream
  = Join (rootOf cfg (kind t)
          :: (if useGroup cfg =? 1 then [groupLabel t] else [])
          ++ (match kind t with
              | TVEpisode => [canonicalName t; season t]
              | Movie => [canonicalName t]
              end)).
Proof.
  cbv zeta. unfold targetDir, classify, showDirOf, movieDirOf.
  destruct (MatchString (TvgName stream)); cbn [kind rootOf groupLabel canonicalName season];
    now destruct (useGroup cfg =? 1).
Qed.

Lemma name_segments (lower : gostring -> gostring) (cfg : Config) (stream : Stream) :
  let t := classify lower cfg stream in
  Forall segment (match kind t with
                  | TVEpisode => [canonicalName t; season t]
                  | Movie => [canonicalName t]
                  end).
Proof.
  cbv zeta. unfold classify. destruct (MatchString (TvgName stream)) eqn:Hm;
    cbn [kind canonicalName season].
  - constructor; [apply sanitized_segment|].
    constructor; [right; now apply season_segment | constructor].
  - constructor; [apply sanitized_segment | constructor].
Qed.

Lemma rootOf_nonempty (cfg : Config) (k : Kind) :
  tvShowsDir cfg <> [] -> moviesDir cfg <> [] -> rootOf cfg k <> [].
Proof. now destruct k. Qed.

End TargetFacts.

(** X13.  Whatever the input, the name that [sanitizeFileName] returns holds
    no byte of its character class and no period: in particular no slash
    and no backslash, so that a display name cannot add a path element. *)
Theorem sanitized_name_has_no_reserved_byte (name : gostring) :
  Forall (fun c => Strings.byteIn c (invalidChars ++ str ".") = false) (sanitizeFileName name).
Proof.
  eapply Forall_impl; [apply SanitizerFacts.sanitizeFileName_plain|].
  intros c [Hc Hdot]. unfold Strings.byteIn in *. rewrite existsb_app, Hc. cbn.
  destruct (Ascii.eqb_spec c "."%char); [contradiction | reflexivity].
Qed.

(** X14.  The stream file of a record is an entry of the directory of the
    record: whatever the display name, [filepath.Join] adds exactly one
    element to the place of the directory, the sanitized name with the
    extension [.strm]. *)
Theorem stream_file_is_an_entry_of_its_directory (dir : gostring) (stream : Stream) :
  dir <> [] ->
  OS.resolve (strmFilePathOf dir stream)
  = OS.resolve dir ++ [sanitizeFileName (normalizeName (TvgName stream)) ++ str ".strm"].
Proof. apply PathFacts.resolve_strmFilePathOf. Qed.

(** X14, witness: a display name made of path elements. *)
Lemma stream_file_is_an_entry_of_its_directory_witness :
  let stream := mkStream (str "http://x/b.avi") (str "../../etc/passwd") (str "") in
  OS.resolve (strmFilePathOf (str "movies/x") stream)
  = OS.resolve (str "movies/x")
    ++ [sanitizeFileName (normalizeName (TvgName stream)) ++ str ".strm"].
Proof.
  intros stream. apply (stream_file_is_an_entry_of_its_directory (str "movies/x") stream).
  discriminate.
Defined.

(** X15.  Without grouping, or with a group label that is empty or a plain
    path element, the directory of a record lies under the root directory
    of its kind: its place is the place of the root followed by the group
    label, the show or movie name and the season, those that are not
    empty. *)
Theorem target_directory_lies_under_the_root
    (lower : gostring -> gostring) (cfg : Config) (stream : Stream) :
  tvShowsDir cfg <> [] -> moviesDir cfg <> [] ->
  ((useGroup cfg =? 1) = false \/
   groupLabel (classify lower cfg stream) = [] \/
   Filepath.plain (groupLabel (classify lower cfg stream))) ->
  OS.resolve (targetDir lower cfg stream)
  = OS.resolve (rootOf cfg (kind (classify lower cfg stream)))
    ++ List.filter (fun e => negb (Strings.eqs e []))
         ((if useGroup cfg =? 1 then [groupLabel (classify lower cfg stream)] else [])
          ++ [canonicalName (classify lower cfg stream); season (classify lower cfg stream)]).
Proof.
  intros Htv Hmov Hg. pose proof (TargetFacts.targetDir_Join lower cfg stream) as E.
  pose proof (TargetFacts.name_segments lower cfg stream) as Hn. cbv zeta in E, Hn.
  rewrite E. rewrite TargetFacts.resolve_Join_segments.
  - f_equal. rewrite !List.filter_app. f_equal.
    unfold classify. destruct (MatchString (TvgName stream)); cbn [kind canonicalName season];
      [reflexivity|].
    cbn [List.filter]. rewrite OSFacts.eqs_refl. cbn [negb].
    now destruct (negb _).
  - now apply TargetFacts.rootOf_nonempty.
  - apply Forall_app. split; [|exact Hn].
    destruct (useGroup cfg =? 1); [|constructor].
    destruct Hg as [Hg|Hg]; [discriminate|]. constructor; [exact Hg | constructor].
Qed.

(** X15, witness: the episode of the scenario, without grouping. *)
Lemma target_directory_lies_under_the_root_witness :
  let episode := mkStream (str "http://x/a.mkv") (str "Show.S01E01") (str "") in
  OS.resolve (targetDir noUnicodeToLower (scenarioConfig 25) episode)
  = OS.resolve (str "tvshows") ++ [str "Show"; str "S01"].
Proof.
  intros episode.
  apply (target_directory_lies_under_the_root noUnicodeToLower (scenarioConfig 25) episode);
    [discriminate | discriminate | now left].
Defined.

(** X16.  The group label is not sanitized.  With grouping on, a record
    whose group label is [..] gets its directory beside the root directory
    of its kind, not under it: the last element of the place of the root is
    replaced by the name and the season. *)
Theorem dotdot_group_label_leaves_the_root
    (lower : gostring -> gostring) (cfg : Config) (stream : Stream) :
  tvShowsDir cfg <> [] -> moviesDir cfg <> [] ->
  (useGroup cfg =? 1) = true ->
  groupLabel (classify lower cfg stream) = str ".." ->
  OS.resolve (targetDir lower cfg stream)
  = removelast (OS.resolve (rootOf cfg (kind (classify lower cfg stream))))
    ++ List.filter (fun e => negb (Strings.eqs e []))
         [canonicalName (classify lower cfg stream); season (classify lower cfg stream)].
Proof.
  intros Htv Hmov Hg Hdd. pose proof (TargetFacts.targetDir_Join lower cfg stream) as E.
  pose proof (TargetFacts.name_segments lower cfg stream) as Hn. cbv zeta in E, Hn.
  rewrite E, Hg, Hdd. cbn [app].
  rewrite TargetFacts.resolve_Join_dotdot;
    [|now apply TargetFacts.rootOf_nonempty | exact Hn].
  f_equal. unfold classify.
  destruct (MatchString (TvgName stream)); cbn [kind canonicalName season]; [reflexivity|].
  cbn [List.filter]. rewrite OSFacts.eqs_refl. cbn [negb]. now destruct (negb _).
Qed.

(** X16, witness: with the roots [/media/tv] and [/media/movies], the movie
    [Old.Movie] of the group [..] is placed in [/media/Old Movie]. *)
Lemma dotdot_group_label_leaves_the_root_witness :
  let cfg := mkConfig (str "/media/tv") (str "/media/movies") 1 (str "Dummy") [] [] 25 in
  let movie := mkStream (str "http://x/b.avi") (str "Old.Movie") (str "..") in
  OS.resolve (targetDir noUnicodeToLower cfg movie) = [str "media"] ++ [str "Old Movie"].
Proof.
  intros cfg movie.
  apply (dotdot_group_label_leaves_the_root noUnicodeToLower cfg movie);
    [discriminate | discriminate | reflexivity | reflexivity].
Defined.

(** ** The episode marker *)

Module MarkerFacts.

(** The text [m] is of the form [S\d{1,2}E\d{1,3}]. *)
Local Abbreviation marker m :=
  (exists ds es,
     m = "S"%char :: ds ++ "E"%char :: es /\
     (1 <= length ds <= 2)%nat /\ (1 <= length es <= 3)%nat /\
     forallb isDigit ds = true /\ forallb isDigit es = true).

Lemma moreDigits_shape (s : gostring) :
  exists rest, s = moreDigits s ++ rest /\ (length (moreDigits s) <= 2)%nat /\
               forallb isDigit (moreDigits s) = true.
Proof.
  destruct s as [|d s]; [exists []; cbn; repeat split; lia|]. cbn [moreDigits].
  destruct (isDigit d) eqn:Hd; [|exists (d :: s); cbn; repeat split; lia].
  destruct s as [|d' s]; [exists []; cbn; rewrite Hd; repeat split; lia|].
  destruct (isDigit d') eqn:Hd'.
  - exists s. cbn. rewrite Hd, Hd'. repeat split; lia.
  - exists (d' :: s). cbn. rewrite Hd. repeat split; lia.
Qed.

Lemma matchEpisode_full (s m : gostring) :
  matchEpisode s = Some m ->
  exists es rest, m = "E"%char :: es /\ s = m ++ rest /\
                  (1 <= length es <= 3)%nat /\ forallb isDigit es = true.
Proof.
  destruct s as [|e [|d s]]; try discriminate. cbn [matchEpisode].
  destruct (Ascii.eqb_spec e "E"%char) as [->|]; [|discriminate].
  destruct (isDigit d) eqn:Hd; [|discriminate]. intros [= <-].
  destruct (moreDigits_shape s) as (rest & Hs & Hlen & Hdig).
  exists (d :: moreDigits s), rest. repeat split.
  - cbn [app]. now rewrite <- Hs.
  - cbn [length]. lia.
  - cbn [length]. lia.
  - cbn [forallb]. now rewrite Hd.
Qed.

Lemma matchHere_full (s m : gostring) :
  matchHere s = Some m -> marker m /\ exists rest, s = m ++ rest.
Proof.
  destruct s as [|c [|d1 s1]]; try discriminate. cbn [matchHere].
  destruct (Ascii.eqb_spec c "S"%char) as [->|]; [|discriminate].
  destruct (isDigit d1) eqn:Hd1; [|discriminate]. cbn [andb].
  assert (Hone : forall m1, matchEpisode s1 = Some m1 ->
            marker ("S"%char :: d1 :: m1) /\ exists rest, "S"%char :: d1 :: s1 = ("S"%char :: d1 :: m1) ++ rest).
  { intros m1 E. apply matchEpisode_full in E as (es & rest & -> & Hs & Hlen & Hdig).
    split; [|exists rest; cbn [app] in Hs |- *; now rewrite <- Hs].
    exists [d1], es. cbn [app length forallb]. rewrite Hd1. repeat split; auto; lia. }
  destruct s1 as [|d2 s2].
  - destruct (matchEpisode []) eqn:E; [|discriminate]. intros [= <-]. now apply Hone.
  - destruct (isDigit d2) eqn:Hd2.
    + destruct (matchEpisode s2) as [m2|] eqn:E2.
      * intros [= <-]. apply matchEpisode_full in E2 as (es & rest & -> & Hs & Hlen & Hdig).
        split; [|exists rest; cbn [app] in Hs |- *; now rewrite <- Hs].
        exists [d1; d2], es. cbn [app length forallb]. rewrite Hd1, Hd2. repeat split; auto; lia.
      * destruct (matchEpisode (d2 :: s2)) as [m1|] eqn:E1; [|discriminate].
        intros [= <-]. now apply Hone.
    + destruct (matchEpisode (d2 :: s2)) as [m1|] eqn:E1; [|discriminate].
      intros [= <-]. now apply Hone.
Qed.

Lemma matchEpisode_total (es rest : gostring) :
  (1 <= length es)%nat -> forallb isDigit es = true ->
  is_Some (matchEpisode ("E"%char :: es ++ rest)).
Proof.
  destruct es as [|e es]; [cbn; lia|]. intros _ H. cbn [forallb] in H.
  apply andb_true_iff in H as [He _]. cbn [app matchEpisode]. rewrite He. cbn. eauto.
Qed.

(** Where a marker stands, the expression matches. *)
Lemma matchHere_total (m rest : gostring) : marker m -> is_Some (matchHere (m ++ rest)).
Proof.
  intros (ds & es & -> & [Hd1 Hd2] & [He1 _] & Hds & Hes).
  pose proof (matchEpisode_total es rest He1 Hes) as [m1 Hm1].
  destruct ds as [|d1 [|d2 [|d3 ds]]]; cbn [length] in *; try lia.
  - cbn [forallb] in Hds. apply andb_true_iff in Hds as [H1 _].
    cbn [app matchHere]. rewrite H1. cbn [Ascii.eqb Bool.eqb andb].
    change (isDigit "E"%char) with false. cbn iota. rewrite Hm1. eauto.
  - cbn [forallb] in Hds. apply andb_true_iff in Hds as [H1 Hds].
    apply andb_true_iff in Hds as [H2 _].
    cbn [app matchHere]. rewrite H1, H2. cbn [Ascii.eqb Bool.eqb andb].
    rewrite Hm1. eauto.
Qed.

Lemma HasPrefix_app (m rest : gostring) : Strings.HasPrefix (m ++ rest) m = true.
Proof.
  induction m as [|c m IH]; [reflexivity|]. cbn [app Strings.HasPrefix].
  now rewrite Ascii.eqb_refl, IH.
Qed.

(** The leftmost match: the name is the text before it, the marker and the
    text after it; the text before it holds no match and is what
    [strings.SplitN] returns first. *)
Lemma FindString_split (name : gostring) :
  MatchString name = true ->
  exists pre post,
    name = pre ++ FindString name ++ post /\ marker (FindString name) /\
    MatchString pre = false /\ beforeFirst name (FindString name) = pre.
Proof.
  induction name as [|c s IH]; cbn [MatchString FindString].
  - cbn. discriminate.
  - destruct (matchHere (c :: s)) as [m|] eqn:E.
    + intros _. apply matchHere_full in E as [Hm [rest Hr]].
      exists [], rest. repeat split; [exact Hr | exact Hm|].
      rewrite Hr. destruct (m ++ rest) eqn:Em; [reflexivity|].
      cbn [beforeFirst]. rewrite <- Em. now rewrite HasPrefix_app.
    + intros H. destruct (IH H) as (pre & post & Hs & Hm & Hpre & Hb).
      exists (c :: pre), post. repeat split.
      * cbn [app]. now rewrite <- Hs.
      * exact Hm.
      * cbn [MatchString]. destruct (matchHere (c :: pre)) as [m'|] eqn:E'; [|exact Hpre].
        apply matchHere_full in E' as [Hm' [rest' Hr']].
        destruct (matchHere_total m' (rest' ++ FindString s ++ post) Hm') as [x Hx].
        rewrite app_assoc, <- Hr' in Hx. cbn [app] in Hx. rewrite <- Hs in Hx. congruence.
      * cbn [beforeFirst]. destruct (Strings.HasPrefix (c :: s) (FindString s)) eqn:Hp.
        -- apply StringFacts.HasPrefix_true in Hp as [rest' Hr'].
           destruct (matchHere_total (FindString s) rest' Hm) as [x Hx].
           rewrite <- Hr' in Hx. congruence.
        -- now rewrite Hb.
Qed.

End MarkerFacts.

(** X17.  In the display name of a record that [processStreams] takes for a
    television episode, the leftmost marker [S], one or two digits, [E], one
    to three digits, splits the name: the name is the text that
    [strings.SplitN] returns first, the marker and the rest, and the text
    before the marker holds no marker.  The marker is never empty, so that
    the test [parts == ""] of [processTVShow] never succeeds on a record that
    [processStreams] passes to it. *)
Theorem episode_marker_splits_the_name (name : gostring) :
  MatchString name = true ->
  exists ds es post,
    FindString name = "S"%char :: ds ++ "E"%char :: es /\
    name = beforeFirst name (FindString name) ++ FindString name ++ post /\
    MatchString (beforeFirst name (FindString name)) = false /\
    (1 <= length ds <= 2)%nat /\ (1 <= length es <= 3)%nat /\
    forallb isDigit ds = true /\ forallb isDigit es = true.
Proof.
  intros H. destruct (MarkerFacts.FindString_split name H)
    as (pre & post & Hs & (ds & es & Hm & Hd & He & Hds & Hes) & Hpre & Hb).
  exists ds, es, post. rewrite Hb. now repeat split.
Qed.

(** X17, witness: a name that holds two markers. *)
Lemma episode_marker_splits_the_name_witness :
  exists ds es post,
    FindString (str "Show.S1E02.S03E04") = "S"%char :: ds ++ "E"%char :: es /\
    str "Show.S1E02.S03E04"
    = beforeFirst (str "Show.S1E02.S03E04") (FindString (str "Show.S1E02.S03E04"))
      ++ FindString (str "Show.S1E02.S03E04") ++ post /\
    MatchString (beforeFirst (str "Show.S1E02.S03E04") (FindString (str "Show.S1E02.S03E04")))
    = false /\
    (1 <= length ds <= 2)%nat /\ (1 <= length es <= 3)%nat /\
    forallb isDigit ds = true /\ forallb isDigit es = true.
Proof. apply (episode_marker_splits_the_name (str "Show.S1E02.S03E04")). reflexivity. Defined.

(** ** The lists of groups *)

Module GroupFacts.

Lemma filterEmptyStrings_filter (slice : list gostring) :
  filterEmptyStrings slice = List.filter (fun s => negb (Strings.eqs s [])) slice.
Proof.
  unfold filterEmptyStrings.
  assert (H : forall acc, fold_left (fun result str =>
                if negb (Strings.eqs str []) then result ++ [str] else result) slice acc
              = acc ++ List.filter (fun s => negb (Strings.eqs s [])) slice).
  { induction slice as [|s slice IH]; intros acc; cbn [fold_left List.filter].
    - now rewrite app_nil_r.
    - rewrite IH. destruct (negb (Strings.eqs s [])); [|reflexivity].
      now rewrite <- app_assoc. }
  apply (H []).
Qed.

Lemma Split_no_sep (s : gostring) (sep : ascii) :
  Forall (fun e => Strings.byteIn sep e = false) (Strings.Split s sep).
Proof.
  induction s as [|c s IH]; cbn [Strings.Split]; [repeat constructor|].
  destruct (Ascii.eqb c sep) eqn:E; [now constructor|].
  destruct (Strings.Split s sep) as [|e rest]; [repeat constructor|].
  - cbn. rewrite Ascii.eqb_sym. now rewrite E.
  - inversion_clear IH as [|? ? He Hrest]. constructor; [|exact Hrest].
    unfold Strings.byteIn in *. cbn [existsb]. rewrite Ascii.eqb_sym, E. exact He.
Qed.

Lemma set_of_slice (slice : list gostring) (x : gostring) :
  forall set : gset gostring,
  x ∈ fold_left (fun set val => {[ val ]} ∪ set) slice set <-> x ∈ set \/ In x slice.
Proof.
  induction slice as [|v slice IH]; intros set; cbn [fold_left In]; [tauto|].
  rewrite IH, elem_of_union, elem_of_singleton. intuition congruence.
Qed.

Lemma isASCII_Forall (s : gostring) :
  isASCII s = true <-> Forall (fun c => (N_of_ascii c <? 128)%N = true) s.
Proof. unfold isASCII. rewrite forallb_forall, Forall_forall. split; intros H x Hx; apply H; now apply list_elem_of_In. Qed.

Lemma lowerByte_ascii (c : ascii) :
  (N_of_ascii c <? 128)%N = true -> (N_of_ascii (lowerByte c) <? 128)%N = true.
Proof.
  intros H. unfold lowerByte.
  destruct ((65 <=? N_of_ascii c) && (N_of_ascii c <=? 90))%N eqn:E; [|exact H].
  apply andb_true_iff in E as [E1 E2]. apply N.leb_le in E1, E2.
  rewrite N_ascii_embedding by lia. apply N.ltb_lt. lia.
Qed.

Lemma lowerByte_idem (c : ascii) : lowerByte (lowerByte c) = lowerByte c.
Proof.
  unfold lowerByte. cbv zeta.
  destruct ((65 <=? N_of_ascii c) && (N_of_ascii c <=? 90))%N eqn:E; [|now rewrite E].
  apply andb_true_iff in E as [E1 E2]. apply N.leb_le in E1, E2.
  rewrite N_ascii_embedding by lia.
  assert ((65 <=? N_of_ascii c + 32) && (N_of_ascii c + 32 <=? 90) = false)%N as ->; [|reflexivity].
  apply andb_false_iff. right. apply N.leb_gt. lia.
Qed.

Lemma isASCII_lower (s : gostring) : isASCII s = true -> isASCII (map lowerByte s) = true.
Proof.
  rewrite !isASCII_Forall. intros H. apply Forall_map.
  eapply Forall_impl; [exact H|]. apply lowerByte_ascii.
Qed.

Lemma isASCII_TrimSpace (s : gostring) : isASCII s = true -> isASCII (Strings.TrimSpace s) = true.
Proof. rewrite !isASCII_Forall. apply StringFacts.TrimSpace_Forall. Qed.

(** On ASCII strings [strings.EqualFold] and [strings.ToLower] are the
    byte-wise ones. *)
Lemma contains_ascii (lower : gostring -> gostring) (fold : gostring -> gostring -> bool)
    (slice : list gostring) (item : gostring) :
  isASCII item = true -> forallb isASCII slice = true ->
  contains lower fold slice item
  = existsb (fun s => Strings.eqs (map lowerByte (Strings.TrimSpace s))
                        (map lowerByte (Strings.TrimSpace item))) slice.
Proof.
  intros Hi Hs. unfold contains. cbv zeta.
  unfold ToLower at 1. rewrite (isASCII_TrimSpace item Hi).
  induction slice as [|s slice IH]; [reflexivity|]. cbn [forallb] in Hs.
  apply andb_true_iff in Hs as [Hs1 Hs2]. cbn [existsb]. rewrite (IH Hs2). f_equal.
  unfold EqualFold. rewrite (isASCII_TrimSpace s Hs1).
  rewrite (isASCII_lower _ (isASCII_TrimSpace item Hi)). cbn [andb].
  rewrite map_map. f_equal. apply map_ext. intros c. apply lowerByte_idem.
Qed.

Lemma groupsOf_blank (lower : gostring -> gostring) (setting : gostring) :
  Strings.TrimSpace setting = [] -> groupsOf lower setting = [].
Proof. unfold groupsOf. now intros ->. Qed.

End GroupFacts.

(** X18.  [hasCommonElement] says whether a string is in both lists; [main]
    compares the elements of the exclude list and of the include list as
    they are, byte for byte. *)
Theorem common_element_is_found (slice1 slice2 : list gostring) :
  hasCommonElement slice1 slice2 = true <-> exists x, In x slice1 /\ In x slice2.
Proof.
  unfold hasCommonElement. cbv zeta. rewrite existsb_exists. split.
  - intros (x & H2 & H1). apply bool_decide_eq_true in H1.
    apply GroupFacts.set_of_slice in H1 as [H1|H1]; [now apply elem_of_empty in H1|]. eauto.
  - intros (x & H1 & H2). exists x. split; [exact H2|]. apply bool_decide_eq_true.
    apply GroupFacts.set_of_slice. now right.
Qed.

(** X18, witness: [news] is in both lists. *)
Lemma common_element_is_found_witness :
  hasCommonElement [str "news"; str "kids"] [str "sports"; str "news"] = true.
Proof.
  apply (proj2 (common_element_is_found [str "news"; str "kids"] [str "sports"; str "news"])).
  exists (str "news"). split; [now left | right; now left].
Defined.

(** X19.  The list of groups that [main] makes of a setting holds no empty
    string and no string with a comma; a setting that is empty or white
    space gives the empty list, not the list of one empty string that
    [strings.Split] returns. *)
Theorem group_list_of_a_setting (lower : gostring -> gostring) (setting : gostring) :
  Forall (fun g => negb (Strings.eqs g []) && negb (Strings.byteIn ","%char g) = true)
         (groupsOf lower setting) /\
  (Strings.TrimSpace setting = [] -> groupsOf lower setting = []).
Proof.
  unfold groupsOf. rewrite GroupFacts.filterEmptyStrings_filter. split.
  - apply Forall_forall. intros g Hg. apply list_elem_of_In, List.filter_In in Hg as [Hin Hne].
    rewrite Hne. cbn [andb].
    pose proof (GroupFacts.Split_no_sep (ToLower lower (Strings.TrimSpace setting)) ","%char) as H.
    rewrite Forall_forall in H. rewrite (H g); [reflexivity|]. now apply list_elem_of_In.
  - intros H. rewrite <- GroupFacts.filterEmptyStrings_filter.
    now apply (GroupFacts.groupsOf_blank lower).
Qed.

(** X19, witness: a setting of white space only. *)
Lemma group_list_of_a_setting_witness :
  groupsOf noUnicodeToLower (str "  ") = [].
Proof.
  apply (proj2 (group_list_of_a_setting noUnicodeToLower (str "  "))). reflexivity.
Defined.

(** X20.  With exclude and include settings that are empty or white space,
    the engine accepts every record, whatever its group. *)
Theorem blank_group_settings_accept_every_record
    (lower : gostring -> gostring) (fold : gostring -> gostring -> bool)
    (config : Main.Config) (stream : Stream) :
  Strings.TrimSpace (Main.ExcludeGroup config) = [] ->
  Strings.TrimSpace (Main.IncludeGroup config) = [] ->
  accepted lower fold (globalsOf lower config) stream = true.
Proof.
  intros He Hi. unfold accepted, globalsOf. cbn [excludeGroups includeGroups].
  now rewrite (GroupFacts.groupsOf_blank lower _ He), (GroupFacts.groupsOf_blank lower _ Hi).
Qed.

(** X20, witness: the configuration without a file. *)
Lemma blank_group_settings_accept_every_record_witness :
  accepted noUnicodeToLower noUnicodeEqualFold (globalsOf noUnicodeToLower Main.emptyConfig)
    (mkStream (str "http://x/b.avi") (str "Old.Movie") (str "News")) = true.
Proof.
  apply (blank_group_settings_accept_every_record noUnicodeToLower noUnicodeEqualFold
           Main.emptyConfig (mkStream (str "http://x/b.avi") (str "Old.Movie") (str "News")));
    reflexivity.
Defined.

(** X21.  On ASCII strings [contains] is membership up to the case of the
    letters and up to white space around the strings: it holds exactly when
    some element of the list, trimmed and lower-cased byte by byte, equals
    the item, trimmed and lower-cased. *)
Theorem contains_ignores_case_and_spaces
    (lower : gostring -> gostring) (fold : gostring -> gostring -> bool)
    (slice : list gostring) (item : gostring) :
  isASCII item = true -> forallb isASCII slice = true ->
  contains lower fold slice item = true <->
  exists s, In s slice /\
            map lowerByte (Strings.TrimSpace s) = map lowerByte (Strings.TrimSpace item).
Proof.
  intros Hi Hs. rewrite (GroupFacts.contains_ascii lower fold slice item Hi Hs).
  rewrite existsb_exists. split; intros (s & Hin & H); exists s; (split; [exact Hin|]);
    now apply OSFacts.eqs_true.
Qed.

(** X21, witness: the group [ News ] and the list [sports, NEWS]. *)
Lemma contains_ignores_case_and_spaces_witness :
  contains noUnicodeToLower noUnicodeEqualFold [str "sports"; str "NEWS"] (str " News ") = true <->
  exists s, In s [str "sports"; str "NEWS"] /\
            map lowerByte (Strings.TrimSpace s) = map lowerByte (Strings.TrimSpace (str " News ")).
Proof.
  apply (contains_ignores_case_and_spaces noUnicodeToLower noUnicodeEqualFold
           [str "sports"; str "NEWS"] (str " News ")); reflexivity.
Defined.

(** ** The playlist reader *)

Module PlaylistFacts.

Lemma untilQuote_Some (s g : gostring) :
  untilQuote s = Some g ->
  Strings.byteIn doubleQuote g = false /\ exists rest, s = g ++ doubleQuote :: rest.
Proof.
  revert g. induction s as [|c s IH]; intros g; [discriminate|]. cbn [untilQuote].
  destruct (Ascii.eqb_spec c doubleQuote) as [->|Hc].
  - intros [= <-]. split; [reflexivity|]. now exists s.
  - destruct (untilQuote s) as [g'|]; [|discriminate]. intros [= <-].
    destruct (IH g' eq_refl) as [Hg (rest & ->)]. split; [|now exists rest].
    unfold Strings.byteIn in *. cbn [existsb]. rewrite Hg, orb_false_r.
    apply Ascii.eqb_neq. congruence.
Qed.

Lemma untilQuote_app (g rest : gostring) :
  Strings.byteIn doubleQuote g = false -> untilQuote (g ++ doubleQuote :: rest) = Some g.
Proof.
  induction g as [|c g IH]; intros H; cbn [app untilQuote].
  - now rewrite Ascii.eqb_refl.
  - unfold Strings.byteIn in H. cbn [existsb] in H. apply orb_false_iff in H as [Hc Hg].
    rewrite Ascii.eqb_sym, Hc. now rewrite (IH Hg).
Qed.

Lemma untilQuote_None (s : gostring) :
  Strings.byteIn doubleQuote s = false -> untilQuote s = None.
Proof.
  induction s as [|c s IH]; intros H; [reflexivity|]. cbn [untilQuote].
  unfold Strings.byteIn in H. cbn [existsb] in H. apply orb_false_iff in H as [Hc Hs].
  rewrite Ascii.eqb_sym, Hc. now rewrite (IH Hs).
Qed.

(** What is read never holds a double quote. *)
Lemma FindStringSubmatch_no_quote (key line g : gostring) :
  FindStringSubmatch key line = Some g -> Strings.byteIn doubleQuote g = false.
Proof.
  induction line as [|c line IH]; cbn [FindStringSubmatch].
  - destruct (Strings.HasPrefix [] key); [|discriminate].
    destruct (untilQuote (drop (length key) [])) eqn:E; [|discriminate].
    intros [= <-]. now apply untilQuote_Some in E.
  - destruct (if Strings.HasPrefix (c :: line) key
              then untilQuote (drop (length key) (c :: line)) else None) as [g'|] eqn:E;
      [|exact IH].
    intros [= <-]. destruct (Strings.HasPrefix (c :: line) key); [|discriminate].
    now apply untilQuote_Some in E.
Qed.

(** Where the key does not stand, nothing is read. *)
Lemma FindStringSubmatch_absent (key line : gostring) :
  Strings.Contains line key = false -> FindStringSubmatch key line = None.
Proof.
  induction line as [|c line IH]; cbn [Strings.Contains FindStringSubmatch]; intros H;
    apply orb_false_iff in H as [H1 H2]; rewrite H1; [reflexivity | now apply IH].
Qed.

(** The key does not overlap with itself: its first byte does not occur in
    it a second time. *)
Local Abbreviation borderless key :=
  (match key with
   | c :: key' => Strings.byteIn c key' = false
   | [] => False
   end).

Lemma HasPrefix_short (u key rest : gostring) :
  borderless key -> u <> [] -> (length u < length key)%nat ->
  Strings.HasPrefix (u ++ key ++ rest) key = false.
Proof.
  destruct key as [|k key]; [contradiction|]. intros Hb Hu Hlen.
  destruct (Strings.HasPrefix (u ++ (k :: key) ++ rest) (k :: key)) eqn:E; [|reflexivity].
  apply StringFacts.HasPrefix_true in E as [r Hr].
  apply (f_equal (fun l => nth_error l (length u))) in Hr.
  rewrite nth_error_app2 in Hr by lia. rewrite Nat.sub_diag in Hr. cbn [app nth_error] in Hr.
  destruct u as [|c u]; [contradiction|]. cbn [length] in *.
  cbn [nth_error app] in Hr. rewrite nth_error_app1 in Hr by lia.
  symmetry in Hr. apply nth_error_In in Hr.
  unfold Strings.byteIn in Hb. apply not_true_iff_false in Hb. exfalso. apply Hb.
  apply existsb_exists. exists k. split; [exact Hr | apply Ascii.eqb_refl].
Qed.

Lemma HasPrefix_long (u key rest : gostring) :
  (length key <= length u)%nat ->
  Strings.HasPrefix (u ++ rest) key = Strings.HasPrefix u key.
Proof.
  revert u. induction key as [|k key IH]; intros u Hlen; [now destruct u|].
  destruct u as [|c u]; [cbn in Hlen; lia|]. cbn [app Strings.HasPrefix].
  rewrite IH; [reflexivity|]. cbn in Hlen. lia.
Qed.

(** The value that follows the first occurrence of the key is read back. *)
Lemma FindStringSubmatch_value (key pre value post : gostring) :
  borderless key ->
  Strings.Contains pre key = false ->
  Strings.byteIn doubleQuote value = false ->
  FindStringSubmatch key (pre ++ key ++ value ++ doubleQuote :: post) = Some value.
Proof.
  intros Hb Hpre Hv. induction pre as [|c pre IH].
  - cbn [app]. assert (Hm : (if Strings.HasPrefix (key ++ value ++ doubleQuote :: post) key
                             then untilQuote (drop (length key) (key ++ value ++ doubleQuote :: post))
                             else None) = Some value).
    { rewrite MarkerFacts.HasPrefix_app, drop_app_length. now apply untilQuote_app. }
    destruct key as [|k key]; [contradiction|]. cbn [app] in *.
    cbn [FindStringSubmatch]. now rewrite Hm.
  - cbn [Strings.Contains] in Hpre. apply orb_false_iff in Hpre as [H1 H2].
    assert (Hno : Strings.HasPrefix ((c :: pre) ++ key ++ value ++ doubleQuote :: post) key = false).
    { destruct (Nat.lt_ge_cases (length (c :: pre)) (length key)) as [Hlt|Hge].
      - apply HasPrefix_short; [exact Hb | discriminate | exact Hlt].
      - now rewrite HasPrefix_long. }
    cbn [app] in Hno |- *. cbn [FindStringSubmatch]. rewrite Hno. now apply IH.
Qed.

Lemma tvgKey_borderless : borderless (str "tvg-name=" ++ [doubleQuote]).
Proof. reflexivity. Qed.

Lemma groupKey_borderless : borderless (str "group-title=" ++ [doubleQuote]).
Proof. reflexivity. Qed.

End PlaylistFacts.

(** X22.  The attributes of a playlist line are read back: when
    [tvg-name=] with its opening double quote does not occur in the text
    before it and the value holds no double quote, [parseTvgName] returns
    the value up to the closing double quote, whatever follows; the same
    holds of [parseGroupTitle] and [group-title=]. *)
Theorem attribute_value_is_read_back (pre value post : gostring) :
  Strings.byteIn doubleQuote value = false ->
  (Strings.Contains pre (str "tvg-name=" ++ [doubleQuote]) = false ->
   parseTvgName (pre ++ (str "tvg-name=" ++ [doubleQuote]) ++ value ++ doubleQuote :: post)
   = value) /\
  (Strings.Contains pre (str "group-title=" ++ [doubleQuote]) = false ->
   parseGroupTitle (pre ++ (str "group-title=" ++ [doubleQuote]) ++ value ++ doubleQuote :: post)
   = value).
Proof.
  intros Hv. split; intros Hpre.
  - unfold parseTvgName.
    now rewrite (PlaylistFacts.FindStringSubmatch_value (str "tvg-name=" ++ [doubleQuote])
                   pre value post PlaylistFacts.tvgKey_borderless Hpre Hv).
  - unfold parseGroupTitle.
    now rewrite (PlaylistFacts.FindStringSubmatch_value (str "group-title=" ++ [doubleQuote])
                   pre value post PlaylistFacts.groupKey_borderless Hpre Hv).
Qed.

(** X22, witness: a line with an attribute before the name and the group
    after it. *)
Lemma attribute_value_is_read_back_witness :
  parseTvgName (str "#EXTINF:-1 tvg-id=x " ++ (str "tvg-name=" ++ [doubleQuote])
                ++ str "Show S01E01" ++ doubleQuote :: str " group-title=g,Show S01E01")
  = str "Show S01E01".
Proof.
  apply (proj1 (attribute_value_is_read_back (str "#EXTINF:-1 tvg-id=x ") (str "Show S01E01")
                  (str " group-title=g,Show S01E01") eq_refl)).
  reflexivity.
Defined.

(** X23.  A line without the attribute gives the empty name and the empty
    group, not an error: the record is read with an empty display name. *)
Theorem missing_attribute_reads_as_empty (line : gostring) :
  (Strings.Contains line (str "tvg-name=" ++ [doubleQuote]) = false -> parseTvgName line = []) /\
  (Strings.Contains line (str "group-title=" ++ [doubleQuote]) = false ->
   parseGroupTitle line = []).
Proof.
  split; intros H; unfold parseTvgName, parseGroupTitle;
    now rewrite PlaylistFacts.FindStringSubmatch_absent.
Qed.

(** X23, witness: a line that holds a title only. *)
Lemma missing_attribute_reads_as_empty_witness :
  parseTvgName (str "#EXTINF:-1,Some Title") = [] /\
  parseGroupTitle (str "#EXTINF:-1,Some Title") = [].
Proof.
  split.
  - apply (proj1 (missing_attribute_reads_as_empty (str "#EXTINF:-1,Some Title"))). reflexivity.
  - apply (proj2 (missing_attribute_reads_as_empty (str "#EXTINF:-1,Some Title"))). reflexivity.
Defined.

Section ReaderFacts.

Variable lower : gostring -> gostring.
Variable fileTypes : list gostring.

Local Abbreviation isEXTINF := (fun l : gostring => Strings.HasPrefix l (str "#EXTINF:")).
Local Abbreviation lineFeed := (ascii_of_nat 10).
Local Abbreviation valid := (fun s : Stream => isValidStrmType lower fileTypes (URL s)).

Lemma byteIn_removelast (c : ascii) (l : gostring) :
  Strings.byteIn c l = false -> Strings.byteIn c (removelast l) = false.
Proof.
  unfold Strings.byteIn. induction l as [|x l IH]; [reflexivity|]. cbn [existsb].
  intros H. apply orb_false_iff in H as [Hx Hl]. destruct l as [|y l]; [reflexivity|].
  cbn [removelast existsb]. rewrite Hx. cbn [orb]. now apply IH.
Qed.

Lemma Forall_removelast (A : Type) (P : A -> Prop) (l : list A) :
  Forall P l -> Forall P (removelast l).
Proof.
  induction 1 as [|x l Hx Hl IH]; [constructor|]. destruct l as [|y l]; [constructor|].
  cbn [removelast]. now constructor.
Qed.

(** The lines of a scanner hold no line feed. *)
Lemma scanLines_no_line_feed (body : gostring) (lines : list gostring) :
  scanLines body = Some lines -> Forall (fun l => Strings.byteIn lineFeed l = false) lines.
Proof.
  unfold scanLines. cbv zeta. destruct (existsb _ _); [discriminate|]. intros [= <-].
  apply Forall_map.
  assert (H : Forall (fun l => Strings.byteIn lineFeed l = false)
                (match last (Strings.Split body lineFeed) with
                 | Some [] => removelast (Strings.Split body lineFeed)
                 | _ => Strings.Split body lineFeed
                 end)).
  { pose proof (GroupFacts.Split_no_sep body lineFeed) as H.
    destruct (last (Strings.Split body lineFeed)) as [[|c l]|]; try exact H.
    now apply Forall_removelast. }
  eapply Forall_impl; [exact H|]. intros l Hl. unfold dropCR.
  destruct (last l) as [c|]; [|exact Hl]. destruct (Ascii.eqb c (ascii_of_nat 13)); [|exact Hl].
  now apply byteIn_removelast.
Qed.

(** What holds of the records read and of the record that waits for its
    URL, after any number of lines. *)
Local Abbreviation checked :=
  (fun s : Stream => valid s = true /\
                     Strings.byteIn lineFeed (URL s) = false /\
                     Strings.byteIn doubleQuote (TvgName s) = false /\
                     Strings.byteIn doubleQuote (GroupTitle s) = false).

Local Abbreviation readerOK rejected seen :=
  (fun r : Reader =>
     Forall checked (readStreams r) /\
     (forall cur, currentStream r = Some cur ->
                  Strings.byteIn doubleQuote (TvgName cur) = false /\
                  Strings.byteIn doubleQuote (GroupTitle cur) = false) /\
     rejected <= rejectedFileExts r /\
     Z.of_nat (length (readStreams r)) + (rejectedFileExts r - rejected)
     + match currentStream r with Some _ => 1 | None => 0 end <= seen).

Lemma parse_no_quote (line : gostring) :
  Strings.byteIn doubleQuote (parseTvgName line) = false /\
  Strings.byteIn doubleQuote (parseGroupTitle line) = false.
Proof.
  unfold parseTvgName, parseGroupTitle. split.
  - destruct (FindStringSubmatch _ line) eqn:E; [|reflexivity].
    now apply PlaylistFacts.FindStringSubmatch_no_quote in E.
  - destruct (FindStringSubmatch _ line) eqn:E; [|reflexivity].
    now apply PlaylistFacts.FindStringSubmatch_no_quote in E.
Qed.

Lemma readLine_ok (rejected seen : Z) (r : Reader) (line : gostring) :
  Strings.byteIn lineFeed line = false ->
  readerOK rejected seen r ->
  readerOK rejected (seen + (if isEXTINF line then 1 else 0)) (readLine lower fileTypes r line).
Proof.
  intros Hlf (Hs & Hc & Hr & Hn). unfold readLine. cbv zeta.
  destruct (Strings.HasPrefix line (str "#EXTINF:")).
  - cbn [readStreams currentStream rejectedFileExts].
    split; [exact Hs|]. split; [|split; [exact Hr|]].
    + intros cur0 [= <-]. apply parse_no_quote.
    + destruct (currentStream r); lia.
  - destruct (currentStream r) as [cur|] eqn:Ecur.
    + destruct (Hc cur eq_refl) as [Hq1 Hq2].
      destruct (isValidStrmType lower fileTypes _) eqn:Ev;
        cbn [readStreams currentStream rejectedFileExts URL TvgName GroupTitle] in *.
      * split; [|split; [discriminate|split; [exact Hr|]]].
        -- apply Forall_app. split; [exact Hs|]. constructor; [|constructor].
           cbn [URL TvgName GroupTitle]. repeat split; assumption.
        -- rewrite length_app. cbn [length]. lia.
      * split; [exact Hs|]. split; [discriminate|]. split; lia.
    + split; [exact Hs|]. split; [|split; [exact Hr|]].
      * intros cur H. rewrite Ecur in H. discriminate H.
      * rewrite Ecur. lia.
Qed.

Lemma fold_readLine_ok (rejected : Z) (lines : list gostring) :
  Forall (fun l => Strings.byteIn lineFeed l = false) lines ->
  forall (seen : Z) (r : Reader),
  readerOK rejected seen r ->
  readerOK rejected (seen + Z.of_nat (length (List.filter isEXTINF lines)))
    (fold_left (readLine lower fileTypes) lines r).
Proof.
  induction 1 as [|line lines Hl _ IH]; intros seen r Hr; cbn [fold_left List.filter length].
  - now rewrite Z.add_0_r.
  - pose proof (IH _ _ (readLine_ok rejected seen r line Hl Hr)) as H.
    destruct (Strings.HasPrefix line (str "#EXTINF:")); cbn [length].
    + now rewrite Nat2Z.inj_succ, <- Z.add_1_l, Z.add_assoc.
    + now rewrite Z.add_0_r in H.
Qed.

(** Lines that do not start with [#EXTINF:] are passed over while no record
    waits for its URL. *)
Lemma fold_readLine_idle (lines : list gostring) (r : Reader) :
  forallb (fun l => negb (isEXTINF l)) lines = true -> currentStream r = None ->
  fold_left (readLine lower fileTypes) lines r = r.
Proof.
  revert r. induction lines as [|l lines IH]; intros r H Hr; [reflexivity|].
  cbn [forallb] in H. apply andb_true_iff in H as [Hl H]. apply negb_true_iff in Hl.
  cbn [fold_left]. assert (readLine lower fileTypes r l = r) as ->; [|now apply IH].
  unfold readLine. now rewrite Hl, Hr.
Qed.

(** The records of a playlist in which every [#EXTINF:] line is followed by
    the line of its URL. *)
Lemma fold_readLine_entries (entries : list (gostring * gostring * list gostring)) :
  forallb (fun e => isEXTINF e.1.1 && negb (isEXTINF e.1.2)
                    && forallb (fun l => negb (isEXTINF l)) e.2) entries = true ->
  forall (r : Reader), currentStream r = None ->
  let records := map (fun e => mkStream e.1.2 (parseTvgName e.1.1) (parseGroupTitle e.1.1))
                     entries in
  fold_left (readLine lower fileTypes) (flat_map (fun e => e.1.1 :: e.1.2 :: e.2) entries) r
  = mkReader None (readStreams r ++ List.filter valid records)
      (rejectedFileExts r
       + Z.of_nat (length (List.filter (fun s => negb (valid s)) records))).
Proof.
  induction entries as [|[[e u] junk] entries IH]; intros H r Hr; cbv zeta.
  - cbn. rewrite app_nil_r, Z.add_0_r. destruct r. cbn in Hr. now rewrite Hr.
  - cbn [forallb fst snd] in H. apply andb_true_iff in H as [He H].
    apply andb_true_iff in He as [He Hjunk]. apply andb_true_iff in He as [He Hu].
    apply negb_true_iff in Hu.
    cbn [flat_map fst snd map]. cbn [app fold_left]. rewrite fold_left_app.
    assert (E1 : readLine lower fileTypes r e
                 = mkReader (Some (mkStream [] (parseTvgName e) (parseGroupTitle e)))
                     (readStreams r) (rejectedFileExts r)).
    { unfold readLine. now rewrite He. }
    assert (E2 : readLine lower fileTypes
                   (mkReader (Some (mkStream [] (parseTvgName e) (parseGroupTitle e)))
                      (readStreams r) (rejectedFileExts r)) u
                 = if isValidStrmType lower fileTypes u
                   then mkReader None
                          (readStreams r ++ [mkStream u (parseTvgName e) (parseGroupTitle e)])
                          (rejectedFileExts r)
                   else mkReader None (readStreams r) (rejectedFileExts r + 1)).
    { unfold readLine. now rewrite Hu. }
    rewrite E1, E2. cbn [List.filter URL].
    destruct (isValidStrmType lower fileTypes u) eqn:Ev; cbn [negb].
    + rewrite (fold_readLine_idle junk) by (exact Hjunk || reflexivity).
      rewrite (IH H) by reflexivity. cbn [readStreams rejectedFileExts].
      now rewrite <- app_assoc.
    + rewrite (fold_readLine_idle junk) by (exact Hjunk || reflexivity).
      rewrite (IH H) by reflexivity. cbn [readStreams rejectedFileExts length].
      f_equal. lia.
Qed.

End ReaderFacts.

(** X24.  Whatever the playlist, every record that [processM3U] returns has
    a URL that [isValidStrmType] accepts and that holds no line feed, and a
    name and a group without a double quote; the counter of rejected URLs
    does not fall; and each line that starts with [#EXTINF:] gives at most
    one record or one rejection. *)
Theorem playlist_records_are_checked
    (lower : gostring -> gostring) (fileTypes : list gostring)
    (body : gostring) (rejected : Z) (streams : list Stream) (rejected' : Z) :
  processM3U lower fileTypes body rejected = Some (streams, rejected') ->
  Forall (fun s => isValidStrmType lower fileTypes (URL s) = true /\
                   Strings.byteIn (ascii_of_nat 10) (URL s) = false /\
                   Strings.byteIn doubleQuote (TvgName s) = false /\
                   Strings.byteIn doubleQuote (GroupTitle s) = false) streams /\
  rejected <= rejected' /\
  exists lines,
    scanLines body = Some lines /\
    Z.of_nat (length streams) + (rejected' - rejected)
    <= Z.of_nat (length (List.filter (fun l => Strings.HasPrefix l (str "#EXTINF:")) lines)).
Proof.
  unfold processM3U, readLines. destruct (scanLines body) as [lines|] eqn:E; [|discriminate].
  cbv zeta. intros [= <- <-].
  pose proof (fold_readLine_ok lower fileTypes rejected lines
                (scanLines_no_line_feed body lines E) 0 (mkReader None [] rejected)) as H.
  destruct H as (Hs & _ & Hr & Hn).
  { cbn [readStreams currentStream rejectedFileExts length].
    split; [constructor|]. split; [discriminate|]. split; lia. }
  split; [exact Hs|]. split; [exact Hr|]. exists lines. split; [reflexivity|].
  destruct (currentStream _); lia.
Qed.

(** X24, witness: a playlist of two entries, the second of a type that is
    not accepted. *)
Lemma playlist_records_are_checked_witness :
  let body := str "#EXTM3U" ++ [ascii_of_nat 10]
              ++ str "#EXTINF:-1 tvg-name=" ++ [doubleQuote] ++ str "Show S01E01" ++ [doubleQuote]
              ++ str ",Show" ++ [ascii_of_nat 13; ascii_of_nat 10]
              ++ str "http://x/a.MKV" ++ [ascii_of_nat 13; ascii_of_nat 10]
              ++ str "#EXTINF:-1,Live" ++ [ascii_of_nat 10]
              ++ str "http://x/live.ts" ++ [ascii_of_nat 10] in
  let streams := [mkStream (str "http://x/a.MKV") (str "Show S01E01") []] in
  Forall (fun s => isValidStrmType noUnicodeToLower [str "mkv"; str "avi"] (URL s) = true /\
                   Strings.byteIn (ascii_of_nat 10) (URL s) = false /\
                   Strings.byteIn doubleQuote (TvgName s) = false /\
                   Strings.byteIn doubleQuote (GroupTitle s) = false) streams /\
  0 <= 1 /\
  exists lines,
    scanLines body = Some lines /\
    Z.of_nat (length streams) + (1 - 0)
    <= Z.of_nat (length (List.filter (fun l => Strings.HasPrefix l (str "#EXTINF:")) lines)).
Proof.
  intros body streams.
  apply (playlist_records_are_checked noUnicodeToLower [str "mkv"; str "avi"] body 0 streams 1).
  vm_compute. reflexivity.
Defined.

(** X25.  In a playlist where every line that starts with [#EXTINF:] is
    followed by a line that does not, [processM3U]'s loop reads one record
    for each such pair, in the order of the playlist: the URL is the line
    that follows, whatever it holds, the name and the group are the
    attributes of the [#EXTINF:] line.  The records whose URL
    [isValidStrmType] accepts are returned, the others are counted as
    rejected; the lines before the first pair and the lines between a URL
    and the next [#EXTINF:] line are ignored. *)
Theorem well_formed_playlist_is_read_in_order
    (lower : gostring -> gostring) (fileTypes : list gostring)
    (header : list gostring) (entries : list (gostring * gostring * list gostring))
    (rejected : Z) :
  forallb (fun l => negb (Strings.HasPrefix l (str "#EXTINF:"))) header = true ->
  forallb (fun e => Strings.HasPrefix e.1.1 (str "#EXTINF:")
                    && negb (Strings.HasPrefix e.1.2 (str "#EXTINF:"))
                    && forallb (fun l => negb (Strings.HasPrefix l (str "#EXTINF:"))) e.2)
          entries = true ->
  let records := map (fun e => mkStream e.1.2 (parseTvgName e.1.1) (parseGroupTitle e.1.1))
                     entries in
  let r := readLines lower fileTypes
             (header ++ flat_map (fun e => e.1.1 :: e.1.2 :: e.2) entries) rejected in
  readStreams r = List.filter (fun s => isValidStrmType lower fileTypes (URL s)) records /\
  rejectedFileExts r
  = rejected + Z.of_nat (length (List.filter
                                   (fun s => negb (isValidStrmType lower fileTypes (URL s)))
                                   records)) /\
  currentStream r = None.
Proof.
  intros Hh He. cbv zeta. unfold readLines. rewrite fold_left_app.
  rewrite (fold_readLine_idle lower fileTypes header) by (exact Hh || reflexivity).
  pose proof (fold_readLine_entries lower fileTypes entries He (mkReader None [] rejected) eq_refl)
    as H. cbv zeta in H. rewrite H. cbn [readStreams rejectedFileExts currentStream app].
  repeat split.
Qed.

(** X25, witness: a header line, an entry with a blank line after its URL,
    and an entry whose URL line is blank, so that the URL that follows is
    ignored. *)
Lemma well_formed_playlist_is_read_in_order_witness :
  let r := readLines noUnicodeToLower [str "mkv"]
             ([str "#EXTM3U"]
              ++ flat_map (fun e => e.1.1 :: e.1.2 :: e.2)
                   [(str "#EXTINF:-1,One", str "http://x/one.mkv", [[]]);
                    (str "#EXTINF:-1,Two", [], [str "http://x/two.mkv"])]) 0 in
  readStreams r = [mkStream (str "http://x/one.mkv") [] []] /\
  rejectedFileExts r = 0 + 1 /\
  currentStream r = None.
Proof.
  intros r.
  apply (well_formed_playlist_is_read_in_order noUnicodeToLower [str "mkv"] [str "#EXTM3U"]
           [(str "#EXTINF:-1,One", str "http://x/one.mkv", [[]]);
            (str "#EXTINF:-1,Two", [], [str "http://x/two.mkv"])] 0); reflexivity.
Defined.

(** ** File types and the defaults of the flags *)

Module ConfigFacts.

Lemma Split_cons (s : gostring) (sep : ascii) : exists e rest, Strings.Split s sep = e :: rest.
Proof.
  destruct s as [|c s]; cbn [Strings.Split]; [eauto|].
  destruct (Ascii.eqb c sep); [eauto|]. destruct (Strings.Split s sep); eauto.
Qed.

(** After a separator at the end, [strings.Split] returns one more element,
    the empty string. *)
Lemma Split_trailing (s : gostring) (sep : ascii) :
  Strings.Split (s ++ [sep]) sep = Strings.Split s sep ++ [[]].
Proof.
  induction s as [|c s IH]; cbn [app Strings.Split].
  - now rewrite Ascii.eqb_refl.
  - rewrite IH. destruct (Ascii.eqb c sep); [reflexivity|].
    now destruct (Split_cons s sep) as (e & rest & ->).
Qed.

Lemma HasSuffix_nil (s : gostring) : Strings.HasSuffix s [] = true.
Proof. reflexivity. Qed.

Lemma isValidStrmType_empty (lower : gostring -> gostring) (fileTypes : list gostring)
    (url : gostring) :
  In [] fileTypes -> isValidStrmType lower fileTypes url = true.
Proof.
  intros H. unfold isValidStrmType. apply existsb_exists. exists []. split; [exact H|].
  reflexivity.
Qed.

(** The configuration after the flags, when the three flags that have a
    default other than the zero value were left at it. *)
Lemma overrideConfig_defaults (flags : Main.Flags) (config c : Main.Config) :
  Main.overrideConfig flags config = Some c ->
  (Main.limitDeleteFlag flags = 25 -> Main.LimitDelete c = Main.LimitDelete config) /\
  (Main.defaultGroupFlag flags = str "Dummy" -> Main.DefaultGroup c = Main.DefaultGroup config) /\
  (Main.fileTypeFlag flags <> [] -> Main.FileType c = Main.fileTypeFlag flags).
Proof.
  unfold Main.overrideConfig. cbv zeta. destruct (_ && _); [discriminate|]. intros [= <-].
  cbn [Main.LimitDelete Main.DefaultGroup Main.FileType]. repeat split.
  - now intros ->.
  - now intros ->.
  - intros H. now rewrite (proj2 (OSFacts.eqs_false _ []) H).
Qed.

End ConfigFacts.

(** X26.  A file-type setting that is empty or ends with a comma accepts
    every URL: [strings.Split] then returns an empty type, and every string
    ends with the empty string. *)
Theorem empty_file_type_accepts_every_url
    (lower : gostring -> gostring) (config : Main.Config) (url : gostring) :
  (Main.FileType config = [] \/ exists s, Main.FileType config = s ++ str ",") ->
  isValidStrmType lower (fileTypesOf config) url = true.
Proof.
  intros H. apply ConfigFacts.isValidStrmType_empty. unfold fileTypesOf.
  destruct H as [->|[s ->]]; [now left|].
  change (str ",") with [","%char]. rewrite ConfigFacts.Split_trailing.
  apply in_or_app. right. now left.
Qed.

(** X26, witness: the setting [mkv,] and a URL of a live stream. *)
Lemma empty_file_type_accepts_every_url_witness :
  isValidStrmType noUnicodeToLower
    (fileTypesOf (Main.mkConfig [] 0 [] [] [] [] [] (str "mkv,") [] [] 0 [] 0 0 [] [] []))
    (str "http://x/live.ts") = true.
Proof.
  apply (empty_file_type_accepts_every_url noUnicodeToLower
           (Main.mkConfig [] 0 [] [] [] [] [] (str "mkv,") [] [] 0 [] 0 0 [] [] [])
           (str "http://x/live.ts")).
  right. exists (str "mkv"). reflexivity.
Defined.

(** X27.  The defaults of three flags: a [-limitDelete] of 25 and a
    [-defaultGroup] of [Dummy] are taken for flags that were not given, so
    the limit and the default group stay what the configuration file says
    (zero and the empty string without a file); a [-fileType] that is not
    empty, its default included, replaces the file types of the
    configuration file. *)
Theorem flag_defaults_and_the_configuration
    (flags : Main.Flags) (config c : Main.Config) :
  Main.overrideConfig flags config = Some c ->
  (Main.limitDeleteFlag flags = Main.limitDeleteFlag Main.defaultFlags ->
   Main.LimitDelete c = Main.LimitDelete config) /\
  (Main.defaultGroupFlag flags = Main.defaultGroupFlag Main.defaultFlags ->
   Main.DefaultGroup c = Main.DefaultGroup config) /\
  (Main.fileTypeFlag flags = Main.fileTypeFlag Main.defaultFlags ->
   fileTypesOf c
   = map str ["avi"; "flv"; "m4v"; "mkv"; "mkv2"; "mkv5"; "mkvv"; "mp4"; "mp41"; "mp42";
              "mp44"; "mpg"; "wmv"]%string).
Proof.
  intros H. destruct (ConfigFacts.overrideConfig_defaults flags config c H) as (H1 & H2 & H3).
  split; [exact H1|]. split; [exact H2|]. intros E. unfold fileTypesOf.
  rewrite H3 by (rewrite E; discriminate). rewrite E. reflexivity.
Qed.

(** X27, witness: no flag given but the two directories, and a
    configuration file with a limit of 10, the default group [misc] and the
    file type [ts]. *)
Lemma flag_defaults_and_the_configuration_witness :
  let flags := Main.mkFlags [] [] (-1) (str "/tv") (str "/movies") [] [] []
                 (Main.fileTypeFlag Main.defaultFlags) [] [] false 0 [] 25 0 (str "Dummy")
                 [] [] false in
  let config := Main.mkConfig [] 0 [] [] [] [] [] (str "ts") [] [] 0 [] 10 0 (str "misc") [] [] in
  exists c, Main.overrideConfig flags config = Some c /\
            Main.LimitDelete c = 10 /\ Main.DefaultGroup c = str "misc" /\
            fileTypesOf c
            = map str ["avi"; "flv"; "m4v"; "mkv"; "mkv2"; "mkv5"; "mkvv"; "mp4"; "mp41"; "mp42";
                       "mp44"; "mpg"; "wmv"]%string.
Proof.
  intros flags config. eexists. split; [reflexivity|].
  destruct (flag_defaults_and_the_configuration flags config _ eq_refl) as (H1 & H2 & H3).
  split; [exact (H1 eq_refl)|]. split; [exact (H2 eq_refl) | exact (H3 eq_refl)].
Defined.

(** X28.  Without a configuration file and with [-limitDelete] left at its
    default of 25, the limit that [main] passes to [removeEmptyDirs] is
    zero, and a run removes nothing: no stream file and no empty
    directory. *)
Theorem default_limit_without_a_file_prunes_nothing
    (lower : gostring -> gostring) (fold : gostring -> gostring -> bool)
    (flags : Main.Flags) (c : Main.Config) (streams : list Stream) (fs0 : OS.node) :
  Main.overrideConfig flags Main.emptyConfig = Some c ->
  Main.limitDeleteFlag flags = 25 ->
  LimitDelete (globalsOf lower c) = 0 /\
  removedStrmFiles (stats (run lower fold (globalsOf lower c) streams fs0)) = 0 /\
  removedEmptyDirs (stats (run lower fold (globalsOf lower c) streams fs0)) = 0.
Proof.
  intros H Hflag.
  destruct (ConfigFacts.overrideConfig_defaults flags Main.emptyConfig c H) as (H1 & _).
  specialize (H1 Hflag). cbn [Main.LimitDelete Main.emptyConfig] in H1.
  assert (Hl : LimitDelete (globalsOf lower c) = 0) by exact H1.
  split; [exact Hl|]. unfold run. cbv zeta. rewrite Hl.
  set (cfg := globalsOf lower c).
  destruct (processStreams_removed lower fold cfg streams (mkState fs0 ∅ (mkStats 0 0 0 0)))
    as [R1 R2].
  set (st1 := processStreams lower fold cfg streams _) in *.
  destruct (removeEmptyDirs_idle lower (tvShowsDir cfg) 0 st1 (Z.le_refl 0)) as (E1 & _).
  set (st2 := removeEmptyDirs lower (tvShowsDir cfg) 0 st1) in *.
  destruct (removeEmptyDirs_idle lower (moviesDir cfg) 0 st2 (Z.le_refl 0)) as (E2 & _).
  rewrite E2, E1. split; [exact R1 | exact R2].
Qed.

(** X28, witness: the scenario started with its two directories and a
    playlist URL only; the stale stream file is not removed. *)
Lemma default_limit_without_a_file_prunes_nothing_witness :
  let flags := Main.mkFlags [] [] (-1) (str "tvshows") (str "movies") [] (str "http://x/list.m3u")
                 [] (Main.fileTypeFlag Main.defaultFlags) [] [] false 0 [] 25 0 (str "Dummy")
                 [] [] false in
  exists c, Main.overrideConfig flags Main.emptyConfig = Some c /\
    LimitDelete (globalsOf noUnicodeToLower c) = 0 /\
    removedStrmFiles (stats (run noUnicodeToLower noUnicodeEqualFold
                               (globalsOf noUnicodeToLower c) scenarioCatalog scenarioTree)) = 0 /\
    removedEmptyDirs (stats (run noUnicodeToLower noUnicodeEqualFold
                               (globalsOf noUnicodeToLower c) scenarioCatalog scenarioTree)) = 0.
Proof.
  intros flags. eexists. split; [reflexivity|].
  apply (default_limit_without_a_file_prunes_nothing noUnicodeToLower noUnicodeEqualFold flags);
    reflexivity.
Defined.

(** The only error of the part of [main] that applies the flags: it
    stops exactly when [-logFile] is given and holds a slash or a backslash.
    The log file name of the configuration file is not checked. *)
Lemma overrideConfig_None (flags : Main.Flags) (config : Main.Config) :
  Main.overrideConfig flags config = None <->
  Strings.eqs (Main.logFileFlag flags) [] = false /\
  Main.ContainsAny (Main.logFileFlag flags) (str "/\") = true.
Proof.
  unfold Main.overrideConfig. cbv zeta.
  destruct (Strings.eqs (Main.logFileFlag flags) []) eqn:E; cbn [negb andb].
  - split; [discriminate | now intros [? _]].
  - destruct (Main.ContainsAny (Main.logFileFlag flags) (str "/\")); split; auto; try discriminate.
    now intros [_ ?].
Qed.

Module ReaderSplit.

Lemma Split_app (a t : gostring) (sep : ascii) :
  Strings.Split (a ++ sep :: t) sep = Strings.Split a sep ++ Strings.Split t sep.
Proof.
  induction a as [|c a IH]; cbn [app Strings.Split].
  - now rewrite Ascii.eqb_refl.
  - rewrite IH. destruct (Ascii.eqb c sep); [reflexivity|].
    now destruct (ConfigFacts.Split_cons a sep) as (e & rest & ->).
Qed.

Lemma Split_no_sep_id (s : gostring) (sep : ascii) :
  Strings.byteIn sep s = false -> Strings.Split s sep = [s].
Proof.
  unfold Strings.byteIn. induction s as [|c s IH]; [reflexivity|]. cbn [existsb Strings.Split].
  intros H. apply orb_false_iff in H as [Hc Hs]. rewrite Ascii.eqb_sym, Hc. now rewrite (IH Hs).
Qed.

End ReaderSplit.

(** X29.  A playlist that holds a line of [MaxScanTokenSize] bytes or more
    is refused as a whole: the scanner stops with an error, [processM3U]
    returns it instead of the records read so far, and [main] ends the
    process. *)
Theorem long_line_refuses_the_playlist
    (lower : gostring -> gostring) (fileTypes : list gostring)
    (before line after : gostring) (rejected : Z) :
  Strings.byteIn (ascii_of_nat 10) line = false ->
  MaxScanTokenSize <= Z.of_nat (length line) ->
  processM3U lower fileTypes (before ++ ascii_of_nat 10 :: line ++ ascii_of_nat 10 :: after)
    rejected = None.
Proof.
  intros Hlf Hlen. unfold processM3U, scanLines. cbv zeta.
  assert (H : existsb (fun l => MaxScanTokenSize <=? Z.of_nat (length l))
                (Strings.Split (before ++ ascii_of_nat 10 :: line ++ ascii_of_nat 10 :: after)
                   (ascii_of_nat 10)) = true); [|now rewrite H].
  apply existsb_exists. exists line. split; [|now apply Z.leb_le].
  rewrite ReaderSplit.Split_app. apply in_or_app. right.
  rewrite ReaderSplit.Split_app. apply in_or_app. left.
  rewrite ReaderSplit.Split_no_sep_id by exact Hlf. now left.
Qed.

(** X29, witness: a line of 65536 letters between two entries. *)
Lemma long_line_refuses_the_playlist_witness :
  processM3U noUnicodeToLower [str "mkv"]
    (str "#EXTM3U" ++ ascii_of_nat 10 :: repeat "a"%char (Z.to_nat 65536)
     ++ ascii_of_nat 10 :: str "http://x/a.mkv") 0 = None.
Proof.
  apply (long_line_refuses_the_playlist noUnicodeToLower [str "mkv"] (str "#EXTM3U")
           (repeat "a"%char (Z.to_nat 65536)) (str "http://x/a.mkv") 0).
  - vm_compute. reflexivity.
  - apply Z.leb_le. vm_compute. reflexivity.
Defined.

(** ** The download directory *)

Module DownloadFacts.
Import OS.

Lemma removeEntry_absent (name : gostring) (es : list (gostring * node)) :
  ~ In name (map fst es) -> removeEntry name es = es.
Proof.
  induction es as [|[k m] es IH]; [reflexivity|]. cbn [map fst In removeEntry]. intros H.
  rewrite (proj2 (OSFacts.eqs_false k name)) by tauto. rewrite IH; tauto.
Qed.

Lemma lookupEntry_absent (name : gostring) (es : list (gostring * node)) :
  ~ In name (map fst es) -> lookupEntry name es = None.
Proof.
  induction es as [|[k m] es IH]; [reflexivity|]. cbn [map fst In lookupEntry]. intros H.
  rewrite (proj2 (OSFacts.eqs_false k name)) by tauto. apply IH. tauto.
Qed.

(** An entry whose name occurs once: looking it up and removing it. *)
Lemma entry_once (name : gostring) (n : node) (kept rest : list (gostring * node)) :
  ~ In name (map fst kept) ->
  lookupEntry name (kept ++ (name, n) :: rest) = Some n /\
  removeEntry name (kept ++ (name, n) :: rest) = kept ++ rest.
Proof.
  induction kept as [|[k m] kept IH]; cbn [map fst In app lookupEntry removeEntry]; intros H.
  - now rewrite OSFacts.eqs_refl.
  - rewrite (proj2 (OSFacts.eqs_false k name)) by tauto.
    destruct IH as [IH1 IH2]; [tauto|]. now rewrite IH1, IH2.
Qed.

Lemma replaceAt_step (e x : gostring) (l : list gostring) (es : list (gostring * node))
    (new : option node) :
  replaceAt (Dir es) (e :: x :: l) new
  = match lookupEntry e es with
    | Some c => Dir (putEntry e (replaceAt c (x :: l) new) es)
    | None => Dir es
    end.
Proof. reflexivity. Qed.

(** Removing an entry of the directory at [rd]. *)
Lemma replaceAt_remove (name : gostring) (rd : list gostring) :
  forall (t : node) (es : list (gostring * node)),
  lookup t rd = Found (Dir es) ->
  lookup (replaceAt t (rd ++ [name]) None) rd = Found (Dir (removeEntry name es)).
Proof.
  induction rd as [|e rd IH]; intros t es Hl.
  - cbn [lookup] in Hl. injection Hl as ->. reflexivity.
  - cbn [lookup] in Hl. destruct t as [c|es0]; [discriminate|].
    destruct (lookupEntry e es0) as [ch|] eqn:He; [|discriminate].
    assert (exists x l, rd ++ [name] = x :: l) as (x & l & Hx) by (destruct rd; cbn; eauto).
    cbn [app]. rewrite Hx, replaceAt_step, He, <- Hx.
    rewrite lookup_Dir_eq. now apply IH.
Qed.

(** The loop of [removeDownloadedFiles] over entries with plain names that
    occur once each. *)
Lemma remove_loop (downloadDir : gostring) (files : list (gostring * node)) :
  downloadDir <> [] ->
  forall (kept : list (gostring * node)) (t : node),
  NoDup (map fst (kept ++ files)) -> Forall Filepath.plain (map fst files) ->
  lookup t (resolve downloadDir) = Found (Dir (kept ++ files)) ->
  lookup (fold_left (fun fs file =>
                       if negb (isDir file.2) then
                         match Remove fs (Filepath.Join [downloadDir; file.1]) with
                         | Some fs' => fs'
                         | None => fs
                         end
                       else fs) files t) (resolve downloadDir)
  = Found (Dir (kept ++ List.filter (fun f => isDir f.2) files)).
Proof.
  intros Hd. induction files as [|[name n] files IH]; intros kept t Hnd Hp Hl; [exact Hl|].
  cbn [fold_left List.filter fst snd]. cbn [map fst] in Hp. inversion_clear Hp as [|? ? Hname Hp'].
  assert (Hnd' : ~ In name (map fst kept) /\ NoDup (map fst (kept ++ files))).
  { rewrite map_app in Hnd |- *. cbn [map fst] in Hnd.
    apply NoDup_app in Hnd as (H1 & H2 & H3). apply NoDup_cons in H3 as [_ H3]. split.
    - intros Hin. apply list_elem_of_In in Hin. apply (H2 name Hin). now left.
    - apply NoDup_app. split; [exact H1|]. split; [|exact H3].
      intros x Hx Hx'. apply (H2 x Hx). now right. }
  destruct Hnd' as [Hnot Hnd'].
  destruct n as [c|es']; cbn [isDir negb].
  - assert (Hres : resolve (Filepath.Join [downloadDir; name]) = resolve downloadDir ++ [name]).
    { cbn [Filepath.Join]. rewrite (proj2 (OSFacts.eqs_false downloadDir []) Hd).
      rewrite PathFacts.resolve_Clean. cbn [Filepath.joinSlash].
      now apply FilepathFacts.resolve_slash_plain. }
    destruct (entry_once name (File c) kept files Hnot) as [Hfind Hrem].
    assert (Remove t (Filepath.Join [downloadDir; name])
            = Some (replaceAt t (resolve downloadDir ++ [name]) None)) as ->.
    { unfold Remove. rewrite Stat_lookup
        by (apply Join_nonempty; now apply Exists_cons_hd).
      rewrite Hres, TreeUpdates.lookup_app, Hl. cbn [lookup]. rewrite Hfind.
      now destruct (resolve downloadDir). }
    apply IH; [exact Hnd' | exact Hp' |].
    rewrite (replaceAt_remove name _ t _ Hl). now rewrite Hrem.
  - assert (E : forall X, kept ++ (name, Dir es') :: X = (kept ++ [(name, Dir es')]) ++ X)
      by (intros; now rewrite <- app_assoc).
    rewrite E in Hl, Hnd |- *. now apply IH.
Qed.

End DownloadFacts.

(** X30.  [removeDownloadedFiles] removes the regular files that lie in the
    download directory itself, and nothing else there: afterwards the
    directory holds the directories it held, with what they hold, and no
    regular file, whatever the names of the files.  (The names of the
    entries of a directory are plain and occur once each.) *)
Theorem downloaded_files_are_removed
    (downloadDir : gostring) (fs : OS.node) (files : list (gostring * OS.node)) :
  OS.Stat fs downloadDir = OS.Found (OS.Dir files) ->
  NoDup (map fst files) -> Forall Filepath.plain (map fst files) ->
  OS.Stat (removeDownloadedFiles downloadDir fs) downloadDir
  = OS.Found (OS.Dir (List.filter (fun f => OS.isDir f.2) files)).
Proof.
  intros HS Hnd Hp. unfold removeDownloadedFiles, OS.ReadDir. rewrite HS.
  assert (Hd : downloadDir <> []) by (intros ->; discriminate HS).
  rewrite Stat_lookup in * by exact Hd.
  apply (DownloadFacts.remove_loop downloadDir files Hd [] fs Hnd Hp HS).
Qed.

(** X30, witness: two downloaded lists and a directory in [Download]. *)
Lemma downloaded_files_are_removed_witness :
  let files := [(str "GetSTRM_0.m3u", OS.File (str "#EXTM3U"));
                (str "old", OS.Dir [(str "list.m3u", OS.File (str "#EXTM3U"))]);
                (str "z.json", OS.File (str "[]"))] in
  let fs := OS.Dir [(str "Download", OS.Dir files)] in
  OS.Stat (removeDownloadedFiles (str "Download") fs) (str "Download")
  = OS.Found (OS.Dir [(str "old", OS.Dir [(str "list.m3u", OS.File (str "#EXTM3U"))])]).
Proof.
  intros files fs. apply (downloaded_files_are_removed (str "Download") fs files).
  - reflexivity.
  - repeat (apply NoDup_cons_2;
            [intros H; repeat (apply elem_of_cons in H as [H|H]; [discriminate H|]);
             now apply elem_of_nil in H|]).
    apply NoDup_nil_2.
  - repeat (constructor; [repeat split; try discriminate; repeat constructor; discriminate|]).
    constructor.
Defined.
